(** * amicus: the event bus, the session handler and the worker registry

    A shallow embedding of [src/amicus/common.py] and [src/amicus/server.py].

    - Python [str] values are Rocq strings holding their UTF-8 bytes.
    - Python [int] is [Z]; [float] is the binary64 [PrimFloat.float].
    - An f-string is kept as the list of its literal and formatted pieces.
    - A handler is a function from the service's state and the event to the
      new state, the publishes it made (in order) and the exception, if any,
      that ended it. *)

From Stdlib Require Import ZArith Floats Lia Ascii String.
From stdpp Require Import base option list strings gmap pretty.

Local Open Scope string_scope.
Local Open Scope list_scope.
Local Open Scope Z_scope.

(** ** Values carried by events *)

(** [Client.progress]: the int [0] of a fresh record, a float ratio, or
    free-form text. *)
Inductive progress_t :=
  | PInt (z : Z)
  | PFloat (f : float)
  | PStr (s : string).

(** Pieces of an f-string. *)
Inductive piece :=
  | Lit (s : string)
  | FInt (z : Z)
  | FStr (s : string)
  | FProgress (p : progress_t)
  | FClient (idx status : Z) (name : string) (p : progress_t) (listidx : Z).

(** The objects this program publishes. [VClient pos] is the reference to the
    record object stored at position [pos] of [ClientService.clients]
    (records are never removed or moved, so the position names the object). *)
Inductive value :=
  | VLog (level : Z) (txt : list piece)
  | VClient (pos : nat)
  | VJoin (idx : Z) (prefix : string)
  | VProgressEv (idx : Z) (p : progress_t)
  | VAlertEv (idx : Z) (msg : string)
  | VIdx (idx : Z)
  | VProgress (p : progress_t)
  | VStr (s : string)
  | VBytes (b : string)
  | VNone.

(** Exceptions a handler can end with. *)
Inductive exn :=
  | IndexError
  | ValueError
  | ZeroDivisionError
  | OverflowError
  | UnicodeDecodeError.

(** One call of [Service.pub(topic, obj)]. *)
Definition emit : Type := string * value.

(** [Service.log(level, txt)] is [pub('log', (level, txt))]. *)
Definition log (level : Z) (txt : list piece) : emit := ("log", VLog level txt).

(** [l[i]] with Python's negative indices; [None] is IndexError. *)
Definition py_index {A} (l : list A) (i : Z) : option nat :=
  let n := Z.of_nat (length l) in
  if bool_decide (0 <= i < n) then Some (Z.to_nat i)
  else if bool_decide (- n <= i < 0) then Some (Z.to_nat (n + i))
  else None.

(** ** Worker registry: [ClientService] *)

Module Registry.

Record Client := mkClient {
  idx : Z;
  status : Z;
  name : string;
  progress : progress_t;
  listidx : Z
}.

(** The three values [status] takes, as [ScreenService.on_refresh] reads them. *)
Definition Recording : Z := 0.
Definition Success : Z := 1.
Definition Error : Z := 2.

Definition set_idx (v : Z) (c : Client) : Client :=
  mkClient v (status c) (name c) (progress c) (listidx c).
Definition set_status (v : Z) (c : Client) : Client :=
  mkClient (idx c) v (name c) (progress c) (listidx c).
Definition set_progress (v : progress_t) (c : Client) : Client :=
  mkClient (idx c) (status c) (name c) v (listidx c).
Definition set_name (v : string) (c : Client) : Client :=
  mkClient (idx c) (status c) v (progress c) (listidx c).

(** [Client.reset] *)
Definition reset (c : Client) : Client :=
  set_progress (PInt 0) (set_status 1 (set_idx (-1) c)).

Definition fclient (c : Client) : piece :=
  FClient (idx c) (status c) (name c) (progress c) (listidx c).

(** What a handler leaves behind: [self.clients], the publishes made, and the
    exception that ended it ([None]: it returned). *)
Record outcome := mkOut {
  clients : list Client;
  emits : list emit;
  raised : option exn
}.

(** [get_client]: position of the first record whose [idx] is the given one. *)
Fixpoint get_client_from (pos : nat) (cs : list Client) (i : Z) : option nat :=
  match cs with
  | [] => None
  | c :: cs' => if bool_decide (idx c = i) then Some pos
                else get_client_from (S pos) cs' i
  end.

Definition get_client (cs : list Client) (i : Z) : option nat :=
  get_client_from 0 cs i.

(** [_refresh(idx)]: [self.pub('client-refresh', self.clients[idx])], after the
    publishes [es] already made. *)
Definition _refresh (cs : list Client) (es : list emit) (i : Z) : outcome :=
  match py_index cs i with
  | Some pos => mkOut cs (es ++ [("client-refresh", VClient pos)]) None
  | None => mkOut cs es (Some IndexError)
  end.

(** Mutation of the record object at [pos], then [self._refresh(c.listidx)]. *)
Definition update_refresh (cs : list Client) (es : list emit) (pos : nat)
    (f : Client -> Client) : outcome :=
  match cs !! pos with
  | Some c => _refresh (<[pos := f c]> cs) es (listidx c)
  | None => mkOut cs es (Some IndexError)
  end.

Definition on_rename (cs : list Client) (i : Z) (newname : string) : outcome :=
  match py_index cs i with
  | Some pos =>
      match cs !! pos with
      | Some c => _refresh (<[pos := set_name newname c]> cs) [] i
      | None => mkOut cs [] (Some IndexError)
      end
  | None => mkOut cs [] (Some IndexError)
  end.

Definition on_client_join (cs : list Client) (i : Z) (prefix : string) : outcome :=
  match get_client cs (-1) with
  | Some pos =>
      update_refresh cs [] pos
        (fun c => set_progress (PInt 0) (set_status 0 (set_idx i c)))
  | None =>
      let c := mkClient i 0 prefix (PInt 0) (Z.of_nat (length cs)) in
      _refresh (cs ++ [c]) [log 0 [Lit "client-join "; fclient c]] (listidx c)
  end.

Definition on_client_progress (cs : list Client) (i : Z) (p : progress_t) : outcome :=
  match get_client cs i with
  | Some pos => update_refresh cs [] pos (set_progress p)
  | None =>
      mkOut cs [log 2 [Lit "client "; FInt i; Lit " progressed without joining"]] None
  end.

Definition on_client_done (cs : list Client) (i : Z) : outcome :=
  match get_client cs i with
  | Some pos => update_refresh cs [] pos (set_status 1)
  | None =>
      mkOut cs [log 2 [Lit "client "; FInt i; Lit " was done without joining"]] None
  end.

Definition on_client_leave (cs : list Client) (i : Z) : outcome :=
  match get_client cs i with
  | Some pos =>
      match cs !! pos with
      | Some c =>
          if bool_decide (status c ≠ 1) then
            _refresh (<[pos := set_status 2 (set_idx (-1) c)]> cs)
              [log 2 [Lit "client "; FInt i; Lit " ("; FStr (name c);
                      Lit ") left without being done"]]
              (listidx c)
          else
            _refresh (<[pos := set_idx (-1) c]> cs) [] (listidx c)
      | None => mkOut cs [] (Some IndexError)
      end
  | None =>
      mkOut cs [log 2 [Lit "client "; FInt i; Lit " left without joining"]] None
  end.

(** The events the registry subscribes to, and their dispatch. *)
Inductive event :=
  | Join (i : Z) (prefix : string)
  | Progress (i : Z) (p : progress_t)
  | Done (i : Z)
  | Leave (i : Z).

Definition handle (cs : list Client) (e : event) : outcome :=
  match e with
  | Join i prefix => on_client_join cs i prefix
  | Progress i p => on_client_progress cs i p
  | Done i => on_client_done cs i
  | Leave i => on_client_leave cs i
  end.

(** The consumer loops run the handlers one event at a time; an exception
    leaves the mutation made so far in place. *)
Fixpoint process (cs : list Client) (evs : list event) : list Client * list emit * list exn :=
  match evs with
  | [] => (cs, [], [])
  | e :: evs' =>
      let o := handle cs e in
      let '(cs', es, xs) := process (clients o) evs' in
      (cs', emits o ++ es, from_option (fun x => [x]) [] (raised o) ++ xs)
  end.

(** Every record sits at the position its [listidx] names. *)
Definition wf (cs : list Client) : Prop :=
  forall pos c, cs !! pos = Some c -> listidx c = Z.of_nat pos.

(** The position [on_client_join] gives a new session: the first record with
    [idx = -1], or the end of the list. *)
Definition join_slot (cs : list Client) : nat :=
  from_option id (length cs) (get_client cs (-1)).

End Registry.

(** ** Python text and numbers used by the session handler *)

Module Py.

Definition byte (a : ascii) : Z := Z.of_N (N_of_ascii a).

Definition bytes (l : list Z) : string :=
  string_of_list_ascii (map (fun z => ascii_of_N (Z.to_N z)) l).

Definition between (lo hi b : Z) : bool := (lo <=? b) && (b <=? hi).

(** The byte [b'\n'] that ends a line. *)
Definition newline : string := String "010"%char EmptyString.

(** Strict UTF-8: [more] continuation bytes are still due, the next one within
    [lo..hi] (which excludes overlong forms, surrogates and code points above
    U+10FFFF). *)
Fixpoint utf8_from (lo hi : Z) (more : nat) (l : list ascii) : bool :=
  match l with
  | [] => bool_decide (more = 0%nat)
  | a :: l' =>
      let b := byte a in
      match more with
      | S m => between lo hi b && utf8_from 0x80 0xBF m l'
      | O =>
          if b <? 0x80 then utf8_from 0x80 0xBF 0 l'
          else if between 0xC2 0xDF b then utf8_from 0x80 0xBF 1 l'
          else if b =? 0xE0 then utf8_from 0xA0 0xBF 2 l'
          else if b =? 0xED then utf8_from 0x80 0x9F 2 l'
          else if between 0xE1 0xEF b then utf8_from 0x80 0xBF 2 l'
          else if b =? 0xF0 then utf8_from 0x90 0xBF 3 l'
          else if between 0xF1 0xF3 b then utf8_from 0x80 0xBF 3 l'
          else if b =? 0xF4 then utf8_from 0x80 0x8F 3 l'
          else false
      end
  end.

(** [bytes.decode()]: [None] is UnicodeDecodeError. *)
Definition decode (line : string) : option string :=
  if utf8_from 0x80 0xBF 0 (list_ascii_of_string line) then Some line else None.

(** Number of bytes of the whitespace character [l] starts with, [0] when it
    starts with none. The characters are those [str.split()] splits on:
    U+0009..000D, U+001C..0020, U+0085, U+00A0, U+1680, U+2000..200A, U+2028,
    U+2029, U+202F, U+205F, U+3000. *)
Definition ws_len (l : list ascii) : nat :=
  match map byte l with
  | b0 :: t =>
      if between 0x09 0x0D b0 || between 0x1C 0x20 b0 then 1%nat
      else match t with
      | b1 :: t' =>
          if (b0 =? 0xC2) && ((b1 =? 0x85) || (b1 =? 0xA0)) then 2%nat
          else match t' with
          | b2 :: _ =>
              if (b0 =? 0xE1) && (b1 =? 0x9A) && (b2 =? 0x80) then 3%nat
              else if (b0 =? 0xE2) && (b1 =? 0x80)
                      && (between 0x80 0x8A b2 || between 0xA8 0xA9 b2 || (b2 =? 0xAF))
                   then 3%nat
              else if (b0 =? 0xE2) && (b1 =? 0x81) && (b2 =? 0x9F) then 3%nat
              else if (b0 =? 0xE3) && (b1 =? 0x80) && (b2 =? 0x80) then 3%nat
              else 0%nat
          | [] => 0%nat
          end
      | [] => 0%nat
      end
  | [] => 0%nat
  end.

Definition flush (cur : list ascii) : list string :=
  match cur with [] => [] | _ => [string_of_list_ascii cur] end.

(** [skip]: bytes of the current whitespace character still to pass over;
    [cur]: the token being read. *)
Fixpoint split_from (skip : nat) (cur : list ascii) (l : list ascii) : list string :=
  match l with
  | [] => flush cur
  | a :: l' =>
      match skip with
      | S k => split_from k cur l'
      | O =>
          match ws_len l with
          | O => split_from 0 (cur ++ [a]) l'
          | S k => flush cur ++ split_from k [] l'
          end
      end
  end.

(** [str.split()] with no argument. *)
Definition split (s : string) : list string :=
  split_from 0 [] (list_ascii_of_string s).

(** The binary64 nearest to [n/d] (ties to even), for [n] and [d] positive. *)
Definition ratio (neg : bool) (n d : positive) : spec_float :=
  SFdiv prec emax (S754_finite neg n 0) (S754_finite false d 0).

(** [a / b] on ints (true division). *)
Definition int_truediv (a b : Z) : exn + float :=
  match a, b with
  | _, Z0 => inl ZeroDivisionError
  | Z0, Zpos _ => inr (SF2Prim (S754_zero false))
  | Z0, Zneg _ => inr (SF2Prim (S754_zero true))
  | Zpos n, Zpos d | Zneg n, Zneg d =>
      match ratio false n d with
      | S754_infinity _ => inl OverflowError
      | q => inr (SF2Prim q)
      end
  | Zpos n, Zneg d | Zneg n, Zpos d =>
      match ratio true n d with
      | S754_infinity _ => inl OverflowError
      | q => inr (SF2Prim q)
      end
  end.

(** *** [int(str)] and [float(str)] on ASCII decimal text

    The two builtins are parameters of the session handler; these are the
    functions put in their place when a line is run. On text made of ASCII
    characters they read what the builtins read: an optional sign, digits
    with single underscores between them, and for floats a fraction, an
    exponent, and the words inf, infinity and nan. *)

Definition digit (a : ascii) : option Z :=
  let b := byte a in if between 48 57 b then Some (b - 48) else None.

(** Digits with single underscores between them: the value read so far, the
    number of digits, and the rest. [None] when no digit starts [l], or an
    underscore is not followed by a digit. *)
Fixpoint digits_from (acc : Z) (n : nat) (l : list ascii) : option (Z * nat * list ascii) :=
  match l with
  | a :: l' =>
      match digit a with
      | Some d =>
          let acc' := 10 * acc + d in
          match l' with
          | "_"%char :: l'' =>
              match l'' with
              | b :: _ =>
                  match digit b with
                  | Some _ => digits_from acc' (S n) l''
                  | None => None
                  end
              | [] => None
              end
          | _ =>
              match digits_from acc' (S n) l' with
              | Some r => Some r
              | None => Some (acc', S n, l')
              end
          end
      | None => None
      end
  | [] => None
  end.

Definition sign_of (l : list ascii) : bool * list ascii :=
  match l with
  | "-"%char :: l' => (true, l')
  | "+"%char :: l' => (false, l')
  | _ => (false, l)
  end.

Definition dec_int (s : string) : option Z :=
  let '(neg, l) := sign_of (list_ascii_of_string s) in
  match digits_from 0 0 l with
  | Some (v, _, []) => Some (if neg then - v else v)
  | _ => None
  end.

Definition lower (a : ascii) : ascii :=
  let b := byte a in
  if between 65 90 b then ascii_of_N (Z.to_N (b + 32)) else a.

(** The float [m * 10^e] rounds to. *)
Definition scale10 (neg : bool) (m e : Z) : float :=
  match m with
  | Zpos n =>
      SF2Prim (match e with
               | Zneg k => ratio neg n (10 ^ k)%positive
               | Z0 => ratio neg n 1
               | Zpos k => ratio neg (n * 10 ^ k)%positive 1
               end)
  | _ => SF2Prim (S754_zero neg)
  end.

(** Exponent part: [e], an optional sign and digits, up to the end. *)
Definition exponent (l : list ascii) : option Z :=
  match l with
  | [] => Some 0
  | a :: l' =>
      if bool_decide (lower a = "e"%char) then
        let '(neg, l'') := sign_of l' in
        match digits_from 0 0 l'' with
        | Some (v, _, []) => Some (if neg then - v else v)
        | _ => None
        end
      else None
  end.

Definition dec_float (s : string) : option float :=
  let '(neg, l) := sign_of (list_ascii_of_string s) in
  let word := string_of_list_ascii (map lower l) in
  if bool_decide (word = "inf") || bool_decide (word = "infinity")
  then Some (SF2Prim (S754_infinity neg))
  else if bool_decide (word = "nan") then Some (SF2Prim S754_nan)
  else
    let '(ip, after_ip) :=
      match digits_from 0 0 l with
      | Some (v, _, r) => (Some v, r)
      | None => (None, l)
      end in
    let '(fp, after_fp) :=
      match after_ip with
      | "."%char :: r =>
          match digits_from 0 0 r with
          | Some (v, n, r') => (Some (Some (v, n)), r')
          | None => (Some None, r)
          end
      | _ => (None, after_ip)
      end in
    match ip, fp with
    | None, None | None, Some None => None
    | _, _ =>
        let '(fv, fn) := from_option id (0, 0%nat) (from_option id None fp) in
        match exponent after_fp with
        | Some e =>
            Some (scale10 neg (from_option id 0 ip * 10 ^ Z.of_nat fn + fv)
                              (e - Z.of_nat fn))
        | None => None
        end
    end.

End Py.

(** ** Session handler: [ClientHandlerService] *)

Module Handler.

(** What a handler call leaves behind: the publishes made, in order, and the
    exception that ended it ([None]: it returned). *)
Record outcome := mkOut {
  emits : list emit;
  raised : option exn
}.

(** [f'{self.name}/{idx}'] with [self.name = 'handler']. *)
Definition prefix_of (idx : Z) : string := "handler/" +:+ pretty idx.

(** [f'{prefix}/{sub}'] *)
Definition topic_of (idx : Z) (sub : string) : string := prefix_of idx +:+ "/" +:+ sub.

(** The callables [new_client] defines, and the coroutine it runs as a task. *)
Inductive func :=
  | F_client_update (idx : Z)
  | F_writer (idx : Z)
  | F_ka (idx : Z).

Inductive action :=
  | APub (e : emit)
  | ACreate (topic : string)
  | ASub (topic : string) (f : func)
  | ARunAsTask_reader (idx : Z).

Section Builtins.

(** The builtins [int(str)] and [float(str)]; [None] is ValueError. *)
Variable py_int : string -> option Z.
Variable py_float : string -> option float.

(** The value of [progress], or the exception raised while computing it. *)
Definition progress_of (args : list string) : exn + progress_t :=
  if bool_decide (length args = 3%nat) then
    match args !! 1%nat, args !! 2%nat with
    | Some a, Some b =>
        match py_int a with
        | None => inl ValueError
        | Some x =>
            match py_int b with
            | None => inl ValueError
            | Some y =>
                match Py.int_truediv x y with
                | inl e => inl e
                | inr f => inr (PFloat f)
                end
            end
        end
    | _, _ => inl IndexError
    end
  else
    match args !! 1%nat with
    | Some a =>
        match py_float a with
        | Some f => inr (PFloat (f / 100)%float)
        | None => inr (PStr a)
        end
    | None => inl IndexError
    end.

(** The body of [client_update] after [args = line.decode().split()]. *)
Definition client_update_args (idx : Z) (args : list string) : outcome :=
  match args with
  | [] => mkOut [] (Some IndexError)
  | cmd :: _ =>
      if bool_decide (cmd = "progress") then
        match progress_of args with
        | inl e => mkOut [] (Some e)
        | inr p =>
            mkOut [ log 0 [Lit "progress "; FInt idx; Lit " "; FProgress p];
                    (topic_of idx "progress", VProgress p);
                    ("client-progress", VProgressEv idx p) ] None
        end
      else if bool_decide (cmd = "alert") then
        match args !! 1%nat with
        | Some a =>
            mkOut [ log 0 [Lit "alert "; FInt idx; Lit " "; FStr a];
                    (topic_of idx "alert", VStr a);
                    ("client-alert", VAlertEv idx a) ] None
        | None => mkOut [] (Some IndexError)
        end
      else if bool_decide (cmd = "done") then
        mkOut [ log 0 [Lit "done "; FInt idx]; ("client-done", VIdx idx) ] None
      else if bool_decide (cmd = "keepalive") then
        mkOut [ log 0 [Lit "keepalive "; FInt idx];
                (topic_of idx "keepalive", VNone) ] None
      else mkOut [] None
  end.

Definition client_update (idx : Z) (line : string) : outcome :=
  match Py.decode line with
  | Some s => client_update_args idx (Py.split s)
  | None => mkOut [] (Some UnicodeDecodeError)
  end.

(** The consumer loop of [{prefix}/recv]: [client_update] on each line in
    turn; an exception ends the loop. *)
Fixpoint recv_listener (idx : Z) (lines : list string) : list emit :=
  match lines with
  | [] => []
  | l :: ls =>
      let o := client_update idx l in
      emits o ++ match raised o with
                 | None => recv_listener idx ls
                 | Some _ => []
                 end
  end.

End Builtins.

(** [_writer(line)]: the bytes written to the socket; nothing is published. *)
Definition _writer (line : string) : list string * outcome := ([line], mkOut [] None).

(** What [reader.readuntil(b'\n')] gives: a line, the end of the stream, or
    another exception. *)
Inductive read :=
  | Line (b : string)
  | IncompleteReadError
  | OtherError.

(** [_reader()] over the reads the stream gives it; on [[]] it is waiting in
    [readuntil]. *)
Fixpoint _reader (idx : Z) (rs : list read) : list emit :=
  match rs with
  | [] => []
  | Line b :: rs' => (topic_of idx "recv", VBytes b) :: _reader idx rs'
  | IncompleteReadError :: _ => [("client-leave", VIdx idx)]
  | OtherError :: _ => []
  end.

(** [_ka(n)], the closure [keepalive] defines: [last_time] before the call and
    the two readings of [time()]; gives [last_time] after the call and the
    publishes made. *)
Definition _ka (idx : Z) (last_time now1 now2 : float) : float * list emit :=
  let last_time' := if (last_time =? 0)%float then now1 else last_time in
  (last_time',
   if (10 <? now2 - last_time')%float then [("client-leave", VIdx idx)] else []).

(** [keepalive()]: binds [last_time] and defines [_ka]; it subscribes nothing
    and returns nothing. *)
Definition keepalive (idx : Z) : list action := [].

(** [new_client(rw_pair)]: the counter after the call and what the call does,
    in order. [keepalive] is defined there and not called. *)
Definition new_client (counter : Z) : Z * list action :=
  let idx := counter in
  (counter + 1,
   [ APub ("client-join", VJoin idx (prefix_of idx));
     APub (log 0 [Lit "client-join "; FInt idx; Lit " "; FStr (prefix_of idx)]);
     ACreate (topic_of idx "progress");
     ACreate (topic_of idx "alert");
     ACreate (topic_of idx "recv");
     ACreate (topic_of idx "send");
     ACreate (topic_of idx "keepalive");
     ASub (topic_of idx "recv") (F_client_update idx);
     ASub (topic_of idx "send") (F_writer idx);
     ARunAsTask_reader idx ]).

Definition subscriptions (l : list action) : list (string * func) :=
  omap (fun a => match a with ASub t f => Some (t, f) | _ => None end) l.

Definition topics_of (es : list emit) : list string := map fst es.

(** The [sub] calls the services make in their [__post_init__]: the service
    and the topic. *)
Definition wiring : list (string * string) :=
  [ ("notification", "log");
    ("curses", "line"); ("curses", "color"); ("curses", "raw-input");
    ("curses", "edit/start"); ("curses", "log");
    ("handler", "listener");
    ("client", "client-rename"); ("client", "client-join");
    ("client", "client-leave"); ("client", "client-done");
    ("client", "client-progress");
    ("screen", "cursor"); ("screen", "input"); ("screen", "edit/end");
    ("screen", "client-refresh") ].

(** The last character of a text. *)
Fixpoint last_char (s : string) : option ascii :=
  match s with
  | EmptyString => None
  | String a EmptyString => Some a
  | String _ s' => last_char s'
  end.

End Handler.

(** ** The event bus and the task awaiters: [Service], [TaskAwaiter],
       [ServiceManager]

    The asyncio event loop is a FIFO of callbacks ([call_soon]); [create_task]
    appends the first step of the task. A callback runs to its next
    suspension in one step. A service object is named by its [name] (one
    object per name). No handler of this program awaits, so a handler call is
    the list of manager calls it makes, in order, and whether it then raises;
    a manager call that raises ends the handler there. *)

Module Bus.

Section Bus.

(** [F]: the callables given to [sub]; [V]: the objects published. *)
Context {F V : Type}.

(** What a queue holds: the sentinel [QUIT] or a published object. *)
Inductive obj :=
  | QUIT
  | Ev (v : V).

(** The failures of the manager calls: the assertion that fails, or the
    lookup that raises. *)
Inductive error :=
  | UnknownTopic            (* assert topic in self._topics *)
  | DuplicateTopic          (* assert topic not in self._topics *)
  | DuplicateSubscription   (* assert topic not in self._subs *)
  | UnknownService          (* self._manager of a service never registered *)
  | NotSubscribed           (* assert topic in self._subs *)
  | KeyError.               (* self._services[sub], del self._task_awaiters[idx] *)

(** The state of a [_topic_listener] task. [LWaiting]: suspended in
    [queue.get()], its future in the queue's [_getters]. [LReady]: its next
    step is in the loop's FIFO, or it is running. [LQuit]: it left the loop
    on [QUIT]. [LCrashed]: its handler raised. *)
Inductive lstate := LReady | LWaiting | LQuit | LCrashed.

(** [service._subs[topic]] with its consumer. *)
Record sub_rec := mkSub {
  items : list obj;
  func : F;
  status : lstate
}.

Inductive callback :=
  | OnPub (tid : nat) (svc topic : string) (o : obj)
  | ListenerStep (svc topic : string)
  | AwaiterStart (idx : nat)
  | OnCompletion (idx : nat)
  | AwaiterWake (idx : nat)
  | WaitStep.

(** A [Task]: whether it runs a coroutine given to [run_as_task] (its steps
    are the environment's), whether it is done, and the awaiters whose
    [asyncio.wait] callback it holds. *)
Record task := mkTask {
  t_ext : bool;
  t_done : bool;
  t_cbs : list nat
}.

(** A [TaskAwaiter]: [_tasks], the count [asyncio.wait] still waits for, and
    whether [_done] is set. *)
Record awaiter := mkAwaiter {
  a_tasks : list nat;
  a_counter : nat;
  a_done : bool
}.

(** [ServiceManager.wait]: not called yet, suspended on [_quit], suspended on
    the [_done] of an awaiter, returned, or looping without suspending. *)
Inductive wstate := WIdle | WQuit | WOn (idx : nat) | WReturned | WSpin.

(** The manager, the services' queues, and the loop. [services] is the keys of
    [_services], [managed] the services whose [_manager] is set. A topic's
    subscribers are a set; [pub] goes through it in the order [elements]
    gives. [task_awaiters] is the dict [_task_awaiters] as its keys in
    insertion order, the objects themselves in [awaiters]. [handled] lists
    the handler calls and [created] the [on_pub] tasks, both in the order
    they were made. *)
Record state := mkState {
  services : gset string;
  managed : gset string;
  topics : gmap string (gset string);
  subs : gmap (string * string) sub_rec;
  ready : list callback;
  tasks : gmap nat task;
  next_tid : nat;
  awaiters : gmap nat awaiter;
  task_awaiters : list nat;
  awaiter_counter : nat;
  quit : bool;
  waiting : wstate;
  handled : list (string * string * V);
  created : list (string * string * obj)
}.

Definition set_services (x : gset string) (st : state) : state :=
  mkState x (managed st) (topics st) (subs st) (ready st) (tasks st) (next_tid st) (awaiters st) (task_awaiters st) (awaiter_counter st) (quit st) (waiting st) (handled st) (created st).

Definition set_managed (x : gset string) (st : state) : state :=
  mkState (services st) x (topics st) (subs st) (ready st) (tasks st) (next_tid st) (awaiters st) (task_awaiters st) (awaiter_counter st) (quit st) (waiting st) (handled st) (created st).

Definition set_topics (x : gmap string (gset string)) (st : state) : state :=
  mkState (services st) (managed st) x (subs st) (ready st) (tasks st) (next_tid st) (awaiters st) (task_awaiters st) (awaiter_counter st) (quit st) (waiting st) (handled st) (created st).

Definition set_subs (x : gmap (string * string) sub_rec) (st : state) : state :=
  mkState (services st) (managed st) (topics st) x (ready st) (tasks st) (next_tid st) (awaiters st) (task_awaiters st) (awaiter_counter st) (quit st) (waiting st) (handled st) (created st).

Definition set_ready (x : list callback) (st : state) : state :=
  mkState (services st) (managed st) (topics st) (subs st) x (tasks st) (next_tid st) (awaiters st) (task_awaiters st) (awaiter_counter st) (quit st) (waiting st) (handled st) (created st).

Definition set_tasks (x : gmap nat task) (st : state) : state :=
  mkState (services st) (managed st) (topics st) (subs st) (ready st) x (next_tid st) (awaiters st) (task_awaiters st) (awaiter_counter st) (quit st) (waiting st) (handled st) (created st).

Definition set_next_tid (x : nat) (st : state) : state :=
  mkState (services st) (managed st) (topics st) (subs st) (ready st) (tasks st) x (awaiters st) (task_awaiters st) (awaiter_counter st) (quit st) (waiting st) (handled st) (created st).

Definition set_awaiters (x : gmap nat awaiter) (st : state) : state :=
  mkState (services st) (managed st) (topics st) (subs st) (ready st) (tasks st) (next_tid st) x (task_awaiters st) (awaiter_counter st) (quit st) (waiting st) (handled st) (created st).

Definition set_task_awaiters (x : list nat) (st : state) : state :=
  mkState (services st) (managed st) (topics st) (subs st) (ready st) (tasks st) (next_tid st) (awaiters st) x (awaiter_counter st) (quit st) (waiting st) (handled st) (created st).

Definition set_awaiter_counter (x : nat) (st : state) : state :=
  mkState (services st) (managed st) (topics st) (subs st) (ready st) (tasks st) (next_tid st) (awaiters st) (task_awaiters st) x (quit st) (waiting st) (handled st) (created st).

Definition set_quit (x : bool) (st : state) : state :=
  mkState (services st) (managed st) (topics st) (subs st) (ready st) (tasks st) (next_tid st) (awaiters st) (task_awaiters st) (awaiter_counter st) x (waiting st) (handled st) (created st).

Definition set_waiting (x : wstate) (st : state) : state :=
  mkState (services st) (managed st) (topics st) (subs st) (ready st) (tasks st) (next_tid st) (awaiters st) (task_awaiters st) (awaiter_counter st) (quit st) x (handled st) (created st).

Definition set_handled (x : list (string * string * V)) (st : state) : state :=
  mkState (services st) (managed st) (topics st) (subs st) (ready st) (tasks st) (next_tid st) (awaiters st) (task_awaiters st) (awaiter_counter st) (quit st) (waiting st) x (created st).

Definition set_created (x : list (string * string * obj)) (st : state) : state :=
  mkState (services st) (managed st) (topics st) (subs st) (ready st) (tasks st) (next_tid st) (awaiters st) (task_awaiters st) (awaiter_counter st) (quit st) (waiting st) (handled st) x.

Definition empty_state : state :=
  mkState ∅ ∅ ∅ ∅ [] ∅ 0 ∅ [] 0 false WIdle [] [].

(** [ServiceManager.create_topic] *)
Definition create_topic (topic : string) (st : state) : state * option error :=
  match topics st !! topic with
  | Some _ => (st, Some DuplicateTopic)
  | None => (set_topics (<[topic := ∅]> (topics st)) st, None)
  end.

(** [ServiceManager.__init__] *)
Definition init : state := fst (create_topic "log" empty_state).

(** [ServiceManager.register]; the service's [__post_init__] is the calls
    that follow. *)
Definition register (svc : string) (st : state) : state * option error :=
  match create_topic svc (set_services (services st ∪ {[svc]}) st) with
  | (st1, None) => (set_managed (managed st1 ∪ {[svc]}) st1, None)
  | r => r
  end.

(** [TaskAwaiter(tasks, manager)]: [run_tasks]. *)
Definition run_tasks (tids : list nat) (st : state) : state :=
  let idx := awaiter_counter st in
  set_awaiter_counter (S idx)
    (set_task_awaiters (task_awaiters st ++ [idx])
      (set_awaiters (<[idx := mkAwaiter tids 0 false]> (awaiters st))
        (set_ready (ready st ++ [AwaiterStart idx]) st))).

(** The loop of [pub] over the subscribers: one [on_pub] task each. *)
Fixpoint spawn (topic : string) (o : obj) (names : list string) (tids : list nat)
    (st : state) : state * list nat * option error :=
  match names with
  | [] => (st, tids, None)
  | s :: rest =>
      if bool_decide (s ∈ services st) then
        let tid := next_tid st in
        spawn topic o rest (tids ++ [tid])
          (set_created (created st ++ [(s, topic, o)])
            (set_ready (ready st ++ [OnPub tid s topic o])
              (set_next_tid (S tid)
                (set_tasks (<[tid := mkTask false false []]> (tasks st)) st))))
      else (st, tids, Some KeyError)
  end.

(** [ServiceManager.pub] *)
Definition pub (topic : string) (o : obj) (st : state) : state * option error :=
  match topics st !! topic with
  | None => (st, Some UnknownTopic)
  | Some names =>
      match spawn topic o (elements names) [] st with
      | (st1, tids, None) => (run_tasks tids st1, None)
      | (st1, _, Some e) => (st1, Some e)
      end
  end.

(** [ServiceManager.close_topic] *)
Definition close_topic (topic : string) (st : state) : state * option error :=
  match pub topic QUIT st with
  | (st1, None) => (set_topics (delete topic (topics st1)) st1, None)
  | r => r
  end.

(** [Service.sub], with [_register_sub] at its end. *)
Definition sub (svc topic : string) (f : F) (st : state) : state * option error :=
  match subs st !! (svc, topic) with
  | Some _ => (st, Some DuplicateSubscription)
  | None =>
      if bool_decide (svc ∈ managed st) then
        let st1 :=
          set_ready (ready st ++ [ListenerStep svc topic])
            (set_subs (<[(svc, topic) := mkSub [] f LReady]> (subs st)) st) in
        if bool_decide (svc ∈ services st1) then
          match topics st1 !! topic with
          | None => (st1, Some UnknownTopic)
          | Some names =>
              (set_topics (<[topic := names ∪ {[svc]}]> (topics st1)) st1, None)
          end
        else (st1, Some UnknownService)
      else (st, Some UnknownService)
  end.

(** [ServiceManager.run_as_task] *)
Definition run_as_task (st : state) : state :=
  let tid := next_tid st in
  run_tasks [tid]
    (set_next_tid (S tid) (set_tasks (<[tid := mkTask true false []]> (tasks st)) st)).

(** The manager calls a service makes. *)
Inductive cmd :=
  | CreateTopic (topic : string)
  | Register (svc : string)
  | Sub (svc topic : string) (f : F)
  | Pub (topic : string) (o : obj)
  | CloseTopic (topic : string)
  | RunAsTask.

Definition exec (c : cmd) (st : state) : state * option error :=
  match c with
  | CreateTopic topic => create_topic topic st
  | Register svc => register svc st
  | Sub svc topic f => sub svc topic f st
  | Pub topic o => pub topic o st
  | CloseTopic topic => close_topic topic st
  | RunAsTask => (run_as_task st, None)
  end.

(** Calls made one after the other; the first that raises ends them. *)
Fixpoint exec_all (cs : list cmd) (st : state) : state * option error :=
  match cs with
  | [] => (st, None)
  | c :: cs' =>
      match exec c st with
      | (st1, None) => exec_all cs' st1
      | r => r
      end
  end.

(** [Service.on_pub]: [queue.put(obj)] on the unbounded queue; a consumer
    suspended in [get] is woken. *)
Definition on_pub (svc topic : string) (o : obj) (st : state) : state * option error :=
  match subs st !! (svc, topic) with
  | None => (st, Some NotSubscribed)
  | Some r =>
      match status r with
      | LWaiting =>
          (set_ready (ready st ++ [ListenerStep svc topic])
             (set_subs (<[(svc, topic) := mkSub (items r ++ [o]) (func r) LReady]> (subs st)) st),
           None)
      | _ =>
          (set_subs (<[(svc, topic) := mkSub (items r ++ [o]) (func r) (status r)]> (subs st)) st,
           None)
      end
  end.

(** A task ends: the callbacks [asyncio.wait] left on it are scheduled. *)
Definition finish_task (tid : nat) (st : state) : state :=
  match tasks st !! tid with
  | Some t =>
      set_ready (ready st ++ map OnCompletion (t_cbs t))
        (set_tasks (<[tid := mkTask (t_ext t) true []]> (tasks st)) st)
  | None => st
  end.

(** [del self._manager._task_awaiters[self._idx]] *)
Definition awaiter_del (idx : nat) (st : state) : state * option error :=
  if bool_decide (idx ∈ task_awaiters st)
  then (set_task_awaiters (filter (fun i => i ≠ idx) (task_awaiters st)) st, None)
  else (st, Some KeyError).

(** [self._done.set()]: a [wait] suspended on this event is woken. *)
Definition awaiter_set (idx : nat) (st : state) : state :=
  match awaiters st !! idx with
  | Some a =>
      if a_done a then st
      else
        let st1 := set_awaiters (<[idx := mkAwaiter (a_tasks a) (a_counter a) true]> (awaiters st)) st in
        match waiting st1 with
        | WOn j => if bool_decide (j = idx) then set_ready (ready st1 ++ [WaitStep]) st1 else st1
        | _ => st1
        end
  | None => st
  end.

(** The end of [_await_tasks]: the [del], then the [set]. *)
Definition awaiter_finish (idx : nat) (st : state) : state :=
  match awaiter_del idx st with
  | (st1, None) => awaiter_set idx st1
  | (st1, Some _) => st1
  end.

(** [add_done_callback] of [asyncio.wait] on one task. *)
Definition add_done_callback (idx : nat) (st : state) (tid : nat) : state :=
  match tasks st !! tid with
  | Some t =>
      if t_done t then set_ready (ready st ++ [OnCompletion idx]) st
      else set_tasks (<[tid := mkTask (t_ext t) false (t_cbs t ++ [idx])]> (tasks st)) st
  | None => st
  end.

(** The first step of [_await_tasks]. *)
Definition awaiter_start (idx : nat) (st : state) : state :=
  match awaiters st !! idx with
  | Some a =>
      match a_tasks a with
      | [] => awaiter_finish idx st
      | tids =>
          foldl (add_done_callback idx)
            (set_awaiters (<[idx := mkAwaiter tids (length tids) false]> (awaiters st)) st)
            tids
      end
  | None => st
  end.

(** [_on_completion] of [asyncio.wait]. *)
Definition on_completion (idx : nat) (st : state) : state :=
  match awaiters st !! idx with
  | Some a =>
      let c := Nat.pred (a_counter a) in
      let st1 := set_awaiters (<[idx := mkAwaiter (a_tasks a) c (a_done a)]> (awaiters st)) st in
      if bool_decide (c = 0%nat) then set_ready (ready st1 ++ [AwaiterWake idx]) st1 else st1
  | None => st
  end.

(** The loop of [wait]: [while self._task_awaiters], on the dict as it is now. *)
Definition wait_drain (st : state) : state :=
  match task_awaiters st with
  | [] => set_waiting WReturned st
  | idx :: _ =>
      match awaiters st !! idx with
      | Some a => if a_done a then set_waiting WSpin st else set_waiting (WOn idx) st
      | None => st
      end
  end.

(** [wait()] is called. *)
Definition start_wait (st : state) : state :=
  match waiting st with
  | WIdle => if quit st then wait_drain st else set_waiting WQuit st
  | _ => st
  end.

(** [wait] is resumed. *)
Definition wait_step (st : state) : state :=
  match waiting st with
  | WQuit | WOn _ => wait_drain st
  | _ => st
  end.

(** [self._quit.set()] *)
Definition quit_set (st : state) : state :=
  if quit st then st
  else
    let st1 := set_quit true st in
    match waiting st1 with
    | WQuit => set_ready (ready st1 ++ [WaitStep]) st1
    | _ => st1
    end.

Definition set_status (k : string * string) (s : lstate) (st : state) : state :=
  match subs st !! k with
  | Some r => set_subs (<[k := mkSub (items r) (func r) s]> (subs st)) st
  | None => st
  end.

Definition set_items (k : string * string) (its : list obj) (st : state) : state :=
  match subs st !! k with
  | Some r => set_subs (<[k := mkSub its (func r) (status r)]> (subs st)) st
  | None => st
  end.

(** What a handler call does: the manager calls it makes and whether it then
    raises, given the state it is called in. *)
Variable call : F -> V -> state -> list cmd * bool.

(** [_topic_listener] from a resumption to its next suspension, [its] being
    what the queue holds. *)
Fixpoint listener_loop (svc topic : string) (f : F) (its : list obj) (st : state) : state :=
  match its with
  | [] => set_status (svc, topic) LWaiting st
  | QUIT :: rest => set_status (svc, topic) LQuit (set_items (svc, topic) rest st)
  | Ev v :: rest =>
      let st1 :=
        set_handled (handled st ++ [(svc, topic, v)]) (set_items (svc, topic) rest st) in
      let '(cs, raises) := call f v st1 in
      match exec_all cs st1 with
      | (st2, None) =>
          if raises then set_status (svc, topic) LCrashed st2
          else listener_loop svc topic f rest st2
      | (st2, Some _) => set_status (svc, topic) LCrashed st2
      end
  end.

Definition listener_step (svc topic : string) (st : state) : state :=
  match subs st !! (svc, topic) with
  | Some r =>
      match status r with
      | LReady => listener_loop svc topic (func r) (items r) st
      | _ => st
      end
  | None => st
  end.

Definition run_cb (cb : callback) (st : state) : state :=
  match cb with
  | OnPub tid svc topic o => finish_task tid (fst (on_pub svc topic o st))
  | ListenerStep svc topic => listener_step svc topic st
  | AwaiterStart idx => awaiter_start idx st
  | OnCompletion idx => on_completion idx st
  | AwaiterWake idx => awaiter_finish idx st
  | WaitStep => wait_step st
  end.

(** One iteration of the event loop: the first callback of the FIFO runs. A
    [wait] that loops without suspending keeps the loop from running. *)
Definition run_once (st : state) : state :=
  match waiting st with
  | WSpin => st
  | _ =>
      match ready st with
      | [] => st
      | cb :: rest => run_cb cb (set_ready rest st)
      end
  end.

Definition run (n : nat) (st : state) : state := Nat.iter n run_once st.

(** The end of a coroutine given to [run_as_task]. *)
Definition finish_external (tid : nat) (st : state) : state :=
  match tasks st !! tid with
  | Some t => if t_ext t && negb (t_done t) then finish_task tid st else st
  | None => st
  end.

(** The states the program can be in: from a fresh manager, the loop runs a
    callback, or code outside the handlers (service wiring, a coroutine
    given to [run_as_task]) makes a manager call, ends, calls [wait] or sets
    [_quit]. *)
Inductive reachable : state -> Prop :=
  | reach_init : reachable init
  | reach_loop st : reachable st -> reachable (run_once st)
  | reach_cmd st c : reachable st -> reachable (fst (exec c st))
  | reach_finish st tid : reachable st -> reachable (finish_external tid st)
  | reach_wait st : reachable st -> reachable (start_wait st)
  | reach_quit st : reachable st -> reachable (quit_set st).

(** The objects the tasks in the FIFO will still put on the queue [k]. *)
Definition inflight (k : string * string) (cbs : list callback) : list obj :=
  omap (fun cb => match cb with
                  | OnPub _ svc topic o => if bool_decide (k = (svc, topic)) then Some o else None
                  | _ => None
                  end) cbs.

(** The objects of the [on_pub] tasks made for the queue [k]. *)
Definition created_for (k : string * string) (st : state) : list obj :=
  omap (fun e => if bool_decide (k = e.1) then Some e.2 else None) (created st).

(** The values the handler of [k] was called with. *)
Definition handled_for (k : string * string) (st : state) : list V :=
  omap (fun e => if bool_decide (k = e.1) then Some e.2 else None) (handled st).

Definition queue_of (k : string * string) (st : state) : list obj :=
  from_option items [] (subs st !! k).

Definition status_of (k : string * string) (st : state) : option lstate :=
  status <$> subs st !! k.

(** What the consumer of [k] has taken off its queue. *)
Definition consumed (k : string * string) (st : state) : list obj :=
  map Ev (handled_for k st) ++
  match status_of k st with Some LQuit => [QUIT] | _ => [] end.

(** *** Invariants *)

(** The [on_pub] tasks of a FIFO. *)
Definition is_on_pub (cb : callback) : bool :=
  match cb with OnPub _ _ _ _ => true | _ => false end.

(** The bus: the subscribers of a topic are registered and hold a queue for
    it; so does the service an [on_pub] task is for; only subscribers'
    handlers were called; and the [on_pub] tasks made for a queue are, in
    order, what its consumer took, what the queue holds, and what the tasks
    still in the FIFO will put. *)
Record bus_inv (st : state) : Prop := {
  bi_topics : forall t names s,
    topics st !! t = Some names -> s ∈ names ->
    s ∈ services st /\ is_Some (subs st !! (s, t));
  bi_pending : forall tid s t o,
    OnPub tid s t o ∈ ready st -> is_Some (subs st !! (s, t));
  bi_handled : forall k, subs st !! k = None -> handled_for k st = [];
  bi_idle : forall k r, subs st !! k = Some r -> status r = LWaiting -> items r = [];
  bi_stream : forall k,
    created_for k st = consumed k st ++ queue_of k st ++ inflight k (ready st)
}.

(** The awaiters: one whose [_done] is set is no longer in
    [_task_awaiters]; the keys of [_task_awaiters] name awaiters; [wait]
    suspends at each turn of its loop. *)
Record life_inv (st : state) : Prop := {
  li_done : forall idx a,
    awaiters st !! idx = Some a -> a_done a = true -> idx ∉ task_awaiters st;
  li_present : forall idx, idx ∈ task_awaiters st -> is_Some (awaiters st !! idx);
  li_spin : waiting st ≠ WSpin
}.

(** From [st] to [st']: the FIFO, the list of tasks made and the list of
    handler calls only got longer at their ends, and the [on_pub] tasks
    added to the FIFO are the tasks made. *)
Definition grows (st st' : state) : Prop :=
  exists x y h,
    ready st' = ready st ++ x /\
    created st' = created st ++ y /\
    handled st' = handled st ++ h /\
    (forall k, inflight k x
               = omap (fun e => if bool_decide (k = e.1) then Some e.2 else None) y) /\
    (forall k, is_Some (subs st !! k) -> is_Some (subs st' !! k)).

(** The consumers whose next step is due have it in the FIFO, the consumer
    [skip] apart: the one that is running. *)
Definition ready_inv (skip : option (string * string)) (st : state) : Prop :=
  forall k r,
    Some k ≠ skip -> subs st !! k = Some r -> status r = LReady ->
    ListenerStep k.1 k.2 ∈ ready st.

(** The consumer a callback resumes. *)
Definition resumes (cb : callback) : option (string * string) :=
  match cb with ListenerStep svc topic => Some (svc, topic) | _ => None end.

End Bus.

(** A handler that makes no manager call and raises nothing. *)
Definition observer {F V : Type} : F -> V -> @state F V -> list (@cmd F V) * bool :=
  fun _ _ _ => ([], false).

(** A manager with the services a and b registered and the topic T created. *)
Definition wired : @state unit nat :=
  (exec (CreateTopic "T") (exec (Register "b") (exec (Register "a") init).1).1).1.

(** The same with a and b subscribed to T. *)
Definition wired_subscribed : @state unit nat :=
  (exec (Sub "b" "T" tt) (exec (Sub "a" "T" tt) wired).1).1.

End Bus.

(** ** Conditions on the registry *)

Module RegistryInv.
Import Registry.

(** The three values [ScreenService.on_refresh] has a text for. *)
Definition status_ok (cs : list Client) : Prop :=
  Forall (fun c => status c = Recording \/ status c = Success \/ status c = Error) cs.

(** No two records carry the same id, the id -1 of the free records apart. *)
Definition live_unique (cs : list Client) : Prop :=
  forall p q c d,
    cs !! p = Some c -> cs !! q = Some d -> idx c = idx d -> idx c ≠ -1 -> p = q.

(** The id of a join is carried by no record: sessions get new ids. *)
Definition fresh_join (cs : list Client) (e : event) : Prop :=
  match e with
  | Join i _ => Forall (fun c => idx c ≠ i) cs
  | _ => True
  end.

(** The events on the registry's topics, the rename of the editor among
    them. *)
Inductive input :=
  | Ev (e : event)
  | Rename (i : Z) (newname : string).

Definition is_rename (x : input) : bool :=
  match x with Rename _ _ => true | Ev _ => false end.

Definition step (cs : list Client) (x : input) : outcome :=
  match x with
  | Ev e => handle cs e
  | Rename i newname => on_rename cs i newname
  end.

(** The registry after the inputs [xs], each handled in turn whether the one
    before raised or not, and the exceptions raised. *)
Fixpoint steps (cs : list Client) (xs : list input) : list Client * list exn :=
  match xs with
  | [] => (cs, [])
  | x :: xs' =>
      let o := step cs x in
      let '(cs', es) := steps (clients o) xs' in
      (cs', from_option (fun e => [e]) [] (raised o) ++ es)
  end.

End RegistryInv.

(** ** Connections accepted one after the other *)

Module Sessions.
Import Handler.

(** [new_client] called [n] times, [self._counter] threaded through the
    calls: the counter after the last one and what each call does. *)
Fixpoint accept (n : nat) (counter : Z) : Z * list (list action) :=
  match n with
  | O => (counter, [])
  | S n' =>
      let '(counter1, acts) := new_client counter in
      let '(counter2, rest) := accept n' counter1 in
      (counter2, acts :: rest)
  end.

(** The topics a call creates, in order. *)
Definition created (l : list action) : list string :=
  omap (fun a => match a with ACreate t => Some t | _ => None end) l.

(** The session ids a run of calls announces on client-join. *)
Definition joined (l : list action) : list Z :=
  omap (fun a => match a with
                 | APub (_, VJoin idx _) => Some idx
                 | _ => None
                 end) l.

(** A text without the separator of the topic names. *)
Fixpoint slash_free (s : string) : bool :=
  match s with
  | EmptyString => true
  | String a s' => negb (Ascii.eqb a "/") && slash_free s'
  end.

End Sessions.

(** ** The terminal: [CursesService]

    The drawing calls on the curses window are recorded in the order made;
    a failure of curses itself is outside this model. *)

(** [l.insert(i, x)]: Python clamps the index, after counting a negative one
    from the end. *)
Definition py_insert {A} (l : list A) (i : Z) (x : A) : list A :=
  let n := Z.of_nat (length l) in
  let j := if bool_decide (i < 0) then Z.max (n + i) 0 else Z.min i n in
  take (Z.to_nat j) l ++ x :: drop (Z.to_nat j) l.

(** [del l[i]]; [None] is IndexError. *)
Definition py_del {A} (l : list A) (i : Z) : option (list A) :=
  (fun pos => delete pos l) <$> py_index l i.

Module Editor.

Section Editor.

Context {char : Type} `{!EqDecision char}.

(** The character ['\n'], [curses.LINES] and [curses.color_pair(1)]. *)
Variable nl : char.
Variable LINES : Z.
Variable color_pair_1 : Z.

(** What [get_wch] gives and the raw-input topic carries: the code of a key
    (an int) or a text (a str). *)
Inductive key :=
  | KInt (z : Z)
  | KStr (s : list char).

#[global] Instance key_eq_dec : EqDecision key.
Proof. solve_decision. Defined.

(** The key codes of ncurses. *)
Definition KEY_DOWN : Z := 258.
Definition KEY_UP : Z := 259.
Definition KEY_LEFT : Z := 260.
Definition KEY_RIGHT : Z := 261.
Definition KEY_BACKSPACE : Z := 263.
Definition KEY_ENTER : Z := 343.

Record state := mkState {
  _buf : list (list char);
  _editing : bool;
  _edit_cursor : Z;
  _cursor : Z;
  _color : Z
}.

Definition set_buf (v : list (list char)) (s : state) : state :=
  mkState v (_editing s) (_edit_cursor s) (_cursor s) (_color s).
Definition set_editing (v : bool) (s : state) : state :=
  mkState (_buf s) v (_edit_cursor s) (_cursor s) (_color s).
Definition set_edit_cursor (v : Z) (s : state) : state :=
  mkState (_buf s) (_editing s) v (_cursor s) (_color s).
Definition set_cursor_field (v : Z) (s : state) : state :=
  mkState (_buf s) (_editing s) (_edit_cursor s) v (_color s).
Definition set_color (v : Z) (s : state) : state :=
  mkState (_buf s) (_editing s) (_edit_cursor s) (_cursor s) v.

(** [CursesService.__init__] *)
Definition init : state := mkState [] false 0 0 0.

(** The publishes and the calls on [self._stdscr], in the order made. *)
Inductive effect :=
  | Pub_edit_end (text : list char)
  | Pub_input (c : key)
  | Pub_cursor (cursor : Z)
  | Pub_log (level : Z) (c : key)
  | Addstr (y x : Z) (text : list char) (attr : Z)
  | Clrtoeol
  | Move (y x : Z)
  | Refresh.

Record outcome := mkOut {
  after : state;
  effects : list effect;
  raised : option exn
}.

(** [''.join(self._buf)] *)
Definition joined (s : state) : list char := concat (_buf s).

(** [refresh()] *)
Definition refresh (s : state) : list effect :=
  [ if _editing s then Move (LINES - 1) (_edit_cursor s) else Move (_cursor s) 0;
    Refresh ].

(** [set_cursor(cursor)] *)
Definition set_cursor (s : state) (cursor : Z) : state * list effect :=
  let '(s1, es) :=
    if bool_decide (cursor ≠ _cursor s) then
      (set_cursor_field (Z.max (Z.min cursor (LINES - 3)) 0) s, [Pub_cursor cursor])
    else (s, []) in
  (s1, es ++ refresh s1).

(** The branch of [on_input] taken while editing, up to the drawing that
    follows it. *)
Definition edit_key (s : state) (c : key) : state * list effect * option exn :=
  if bool_decide (c = KInt KEY_LEFT) then
    (set_edit_cursor (Z.max (_edit_cursor s - 1) 0) s, [], None)
  else if bool_decide (c = KInt KEY_RIGHT) then
    (set_edit_cursor (Z.min (_edit_cursor s + 1) (Z.of_nat (length (_buf s)))) s, [], None)
  else if bool_decide (c = KInt KEY_BACKSPACE) then
    if bool_decide (0 < _edit_cursor s) then
      let s1 := set_edit_cursor (_edit_cursor s - 1) s in
      match py_del (_buf s1) (_edit_cursor s1) with
      | Some b => (set_buf b s1, [], None)
      | None => (s1, [], Some IndexError)
      end
    else (s, [], None)
  else if bool_decide (c = KStr [nl]) || bool_decide (c = KInt KEY_ENTER) then
    (set_editing false (set_edit_cursor 0 (set_buf [] s)), [Pub_edit_end (joined s)], None)
  else
    match c with
    | KStr t =>
        (set_edit_cursor (_edit_cursor s + 1)
           (set_buf (py_insert (_buf s) (_edit_cursor s) t) s), [], None)
    | KInt _ => (s, [], None)
    end.

Definition on_input (s : state) (c : key) : outcome :=
  if _editing s then
    match edit_key s c with
    | (s1, es, Some e) => mkOut s1 es (Some e)
    | (s1, es, None) =>
        mkOut s1 (es ++ [Addstr (LINES - 1) 0 (joined s1) (_color s1); Clrtoeol]
                     ++ refresh s1) None
    end
  else
    let '(s1, es) :=
      if bool_decide (c = KInt KEY_UP) then set_cursor s (_cursor s - 1)
      else if bool_decide (c = KInt KEY_DOWN) then set_cursor s (_cursor s + 1)
      else (s, []) in
    mkOut s1 ([Pub_log 0 c] ++ es ++ [Pub_input c]) None.

(** [list(text)] *)
Definition chars (text : list char) : list (list char) := map (fun a => [a]) text.

Definition on_start_edit (s : state) (text : list char) : outcome :=
  let s1 := set_buf (chars text) (set_editing true s) in
  mkOut s1 (Addstr (LINES - 1) 0 (joined s1) (_color s1) :: refresh s1) None.

Definition on_line (s : state) (row : Z) (line : list char) : outcome :=
  mkOut s ([Addstr row 1 line (_color s); Clrtoeol] ++ refresh s) None.

Definition on_log (s : state) (severity : Z) (txt : list char) : outcome :=
  let old_color := _color s in
  let s1 := if bool_decide (2 <= severity) then set_color color_pair_1 s else s in
  let s2 := set_color old_color s1 in
  mkOut s2 ([Addstr (LINES - 2) 0 txt (_color s1); Clrtoeol] ++ refresh s2) None.

Definition on_color (s : state) (color : Z) : outcome :=
  mkOut (set_color color s) [] None.

(** What the topics the service subscribes to deliver, and their handlers. *)
Inductive msg :=
  | Raw_input (c : key)
  | Edit_start (text : list char)
  | Line (row : Z) (line : list char)
  | Color (color : Z)
  | Log (severity : Z) (txt : list char).

Definition handle (s : state) (m : msg) : outcome :=
  match m with
  | Raw_input c => on_input s c
  | Edit_start text => on_start_edit s text
  | Line row line => on_line s row line
  | Color color => on_color s color
  | Log severity txt => on_log s severity txt
  end.

(** The state after the messages [ms], each handled in turn. *)
Fixpoint run (s : state) (ms : list msg) : state :=
  match ms with
  | [] => s
  | m :: ms' => run (after (handle s m)) ms'
  end.

(** The texts [ts] typed one after the other. *)
Definition typed (ts : list (list char)) : list msg :=
  map (fun t => Raw_input (KStr t)) ts.

End Editor.

Arguments key char : clear implicits.
Arguments state char : clear implicits.
Arguments effect char : clear implicits.
Arguments outcome char : clear implicits.
Arguments msg char : clear implicits.
Arguments KInt {char} z.
Arguments KStr {char} s.

End Editor.

(** ** The rows of the screen: [ScreenService] *)

Module Screen.

Section Screen.

(** The texts are stored and passed on, never looked into. *)
Context {char : Type} `{!EqDecision char} {str : Type}.

Variable nl : char.

Record state := mkState {
  _names : gmap Z str;
  _cursor : Z
}.

Definition init : state := mkState ∅ 0.

(** [progress] as the line shows it: [f'{x:.2f}%'] for [x = progress*100]
    when the value is a float, the value itself otherwise. *)
Inductive cell :=
  | Percent2 (x : float)
  | Plain (p : progress_t).

(** [f'{status} | {client.name:<16}| {progress}'] *)
Record line := mkLine {
  l_status : string;
  l_name : str;
  l_progress : cell
}.

Inductive effect :=
  | Pub_edit_start (name : str)
  | Pub_client_rename (cursor : Z) (newname : str)
  | Pub_line (row : Z) (l : line).

Record outcome := mkOut {
  after : state;
  effects : list effect;
  raised : option exn
}.

Definition statuses : list string :=
  ["-- GRAVANDO --"; "!! SUCESSO !! "; "#### ERRO ####"].

Definition on_cursor (s : state) (c : Z) : outcome :=
  mkOut (mkState (_names s) c) [] None.

Definition on_input (s : state) (c : Editor.key char) : outcome :=
  if bool_decide (c ≠ Editor.KStr [nl]) then mkOut s [] None
  else
    match _names s !! _cursor s with
    | Some name => mkOut s [Pub_edit_start name] None
    | None => mkOut s [] None
    end.

Definition on_finish_edit (s : state) (newname : str) : outcome :=
  mkOut s [Pub_client_rename (_cursor s) newname] None.

(** [on_refresh(client)], on the fields the record has when it is handled. *)
Definition on_refresh (s : state) (listidx status : Z) (name : str)
    (progress : progress_t) : outcome :=
  let s1 := mkState (<[listidx := name]> (_names s)) (_cursor s) in
  match py_index statuses status with
  | Some pos =>
      match statuses !! pos with
      | Some text =>
          let shown := match progress with
                       | PFloat f => Percent2 (f * 100)%float
                       | p => Plain p
                       end in
          mkOut s1 [Pub_line listidx (mkLine text name shown)] None
      | None => mkOut s1 [] (Some IndexError)
      end
  | None => mkOut s1 [] (Some IndexError)
  end.

End Screen.

Arguments state str : clear implicits.
Arguments effect str : clear implicits.
Arguments outcome str : clear implicits.
Arguments line str : clear implicits.

End Screen.

(** ** The terminal and the screen together

    What [CursesService.on_input] publishes on cursor, input and edit/end is
    handled by [ScreenService], in the order published: each publish wakes
    the consumer of its topic, and the consumers run in the order woken. *)

Module Terminal.

Section Terminal.

Context {char : Type} `{!EqDecision char}.

Variable nl : char.
Variable LINES : Z.

Definition deliver (sc : Screen.state (list char)) (e : Editor.effect char)
    : Screen.outcome (list char) :=
  match e with
  | Editor.Pub_cursor p => Screen.on_cursor sc p
  | Editor.Pub_input c => Screen.on_input nl sc c
  | Editor.Pub_edit_end text => Screen.on_finish_edit sc text
  | _ => Screen.mkOut sc [] None
  end.

Fixpoint deliver_all (sc : Screen.state (list char)) (es : list (Editor.effect char))
    : Screen.state (list char) * list (Screen.effect (list char)) :=
  match es with
  | [] => (sc, [])
  | e :: es' =>
      let o := deliver sc e in
      let '(sc', out) := deliver_all (Screen.after o) es' in
      (sc', Screen.effects o ++ out)
  end.

(** One key from raw-input: the editor handles it, then the screen handles
    what the editor published; gives the two states and what the screen
    published. *)
Definition key_press (ed : Editor.state char) (sc : Screen.state (list char))
    (c : Editor.key char)
    : Editor.state char * Screen.state (list char) * list (Screen.effect (list char)) :=
  let o := Editor.on_input nl LINES ed c in
  let '(sc', out) := deliver_all sc (Editor.effects o) in
  (Editor.after o, sc', out).

End Terminal.

End Terminal.

(** ** Conditions on the manager's [wait] *)

Module BusLife.
Import Bus.

Section BusLife.

Context {F V : Type}.

(** The callback that resumes [wait]. *)
Definition is_wait_step (cb : @callback V) : bool :=
  match cb with WaitStep => true | _ => false end.

(** From [st] to [st']: [_quit] and the state of [wait] are as they were,
    and the FIFO got longer at its end, by callbacks that do not resume
    [wait]. *)
Definition quiet (st st' : @state F V) : Prop :=
  quit st' = quit st /\ waiting st' = waiting st /\
  exists x, ready st' = ready st ++ x /\ Forall (fun cb => is_wait_step cb = false) x.

(** While [_quit] is unset: [wait] is not called yet or is suspended on
    [_quit], and nothing in the FIFO resumes it. *)
Definition before_quit (st : @state F V) : Prop :=
  quit st = false ->
  (waiting st = WIdle \/ waiting st = WQuit) /\
  Forall (fun cb => is_wait_step cb = false) (ready st).

End BusLife.

(** A handler that makes no manager call and raises. *)
Definition raiser {F V : Type} : F -> V -> @state F V -> list (@cmd F V) * bool :=
  fun _ _ _ => ([], true).

End BusLife.

(** ** The wiring of the server: [Server.__init__] and the sessions *)

Module Startup.
Import Bus.

(** The callables the services give to [sub]. *)
Inductive callable :=
  | Notification_notification
  | Curses_on_line
  | Curses_on_color
  | Curses_on_input
  | Curses_on_start_edit
  | Curses_on_log
  | Handler_new_client
  | Client_on_rename
  | Client_on_client_join
  | Client_on_client_leave
  | Client_on_client_done
  | Client_on_client_progress
  | Screen_on_cursor
  | Screen_on_input
  | Screen_on_finish_edit
  | Screen_on_refresh
  | Session (f : Handler.func).

Definition command : Type := @cmd callable value.

(** The manager calls of each [__post_init__], in order. [InputService] and
    [ListenerService] have none. *)
Definition notification_post_init : list command :=
  [ Sub "notification" "log" Notification_notification ].

Definition curses_post_init : list command :=
  [ Register "raw-input";
    CreateTopic "line"; CreateTopic "cursor"; CreateTopic "color";
    CreateTopic "edit/start"; CreateTopic "edit/end"; CreateTopic "input";
    Sub "curses" "line" Curses_on_line;
    Sub "curses" "color" Curses_on_color;
    Sub "curses" "raw-input" Curses_on_input;
    Sub "curses" "edit/start" Curses_on_start_edit;
    Sub "curses" "log" Curses_on_log ].

Definition handler_post_init : list command :=
  [ CreateTopic "client-join"; CreateTopic "client-leave"; CreateTopic "client-done";
    CreateTopic "client-progress"; CreateTopic "client-alert";
    Sub "handler" "listener" Handler_new_client ].

Definition client_post_init : list command :=
  [ CreateTopic "client-refresh"; CreateTopic "client-rename";
    Sub "client" "client-rename" Client_on_rename;
    Sub "client" "client-join" Client_on_client_join;
    Sub "client" "client-leave" Client_on_client_leave;
    Sub "client" "client-done" Client_on_client_done;
    Sub "client" "client-progress" Client_on_client_progress ].

Definition screen_post_init : list command :=
  [ Sub "screen" "cursor" Screen_on_cursor;
    Sub "screen" "input" Screen_on_input;
    Sub "screen" "edit/end" Screen_on_finish_edit;
    Sub "screen" "client-refresh" Screen_on_refresh ].

(** [Server.__init__] after [super().__init__()]: each [register] is followed
    by the [__post_init__] of the service. *)
Definition server_init : list command :=
  Register "notification" :: notification_post_init ++
  Register "curses" :: curses_post_init ++
  Register "listener" ::
  Register "handler" :: handler_post_init ++
  Register "client" :: client_post_init ++
  Register "screen" :: screen_post_init.

Definition server : @state callable value := (exec_all server_init init).1.

(** What [new_client] does, as calls of the handler service on the manager. *)
Definition session_cmd (a : Handler.action) : command :=
  match a with
  | Handler.APub (topic, v) => Pub topic (Ev v)
  | Handler.ACreate topic => CreateTopic topic
  | Handler.ASub topic f => Sub "handler" topic (Session f)
  | Handler.ARunAsTask_reader _ => RunAsTask
  end.

(** The manager is ready for the sessions from [c] on: the handler service is
    registered, the topics [new_client] publishes on are there, and no topic
    and no queue of the handler service has the name of a topic of a session
    [j >= c]. *)
Definition session_ready (c : Z) (st : @state callable value) : Prop :=
  bus_inv st /\ life_inv st /\
  "handler" ∈ managed st /\ "handler" ∈ services st /\
  is_Some (topics st !! "client-join") /\ is_Some (topics st !! "log") /\
  forall (j : Z) (sub : string),
    c <= j ->
    topics st !! Handler.topic_of j sub = None /\
    subs st !! ("handler", Handler.topic_of j sub) = None.


End Startup.

(** * Properties *)

(** ** The worker registry *)

Module RegistryFacts.
Import Registry.

Lemma get_client_from_find (cs : list Client) (i : Z) (pos : nat) :
  get_client_from pos cs i
  = (fun r => (pos + r.1)%nat) <$> list_find (fun c => idx c = i) cs.
Proof.
  revert pos. induction cs as [|c cs IH]; intros pos; simpl; [done|].
  destruct (decide (idx c = i)) as [Hc|Hc].
  - rewrite bool_decide_eq_true_2 by done. simpl. f_equal. lia.
  - rewrite bool_decide_eq_false_2 by done. rewrite IH.
    destruct (list_find _ cs) as [[j x]|]; simpl; [f_equal; lia|done].
Qed.

(** [get_client] gives the first record with the id, or [None] when no record
    has it. *)
Lemma get_client_Some (cs : list Client) (i : Z) (pos : nat) :
  get_client cs i = Some pos <->
  exists c, cs !! pos = Some c /\ idx c = i /\
            forall j c', cs !! j = Some c' -> (j < pos)%nat -> idx c' ≠ i.
Proof.
  unfold get_client. rewrite get_client_from_find. split.
  - destruct (list_find _ cs) as [[j x]|] eqn:E; simpl; [|done].
    intros [= <-]. apply list_find_Some in E as (?&?&?). eauto.
  - intros (c & H1 & H2 & H3).
    assert (list_find (fun c => idx c = i) cs = Some (pos, c)) as ->; [|done].
    apply list_find_Some. eauto.
Qed.

Lemma get_client_None (cs : list Client) (i : Z) :
  get_client cs i = None <-> Forall (fun c => idx c ≠ i) cs.
Proof.
  unfold get_client. rewrite get_client_from_find.
  rewrite fmap_None. apply list_find_None.
Qed.

Lemma py_index_pos {A} (l : list A) (pos : nat) :
  (pos < length l)%nat -> py_index l (Z.of_nat pos) = Some pos.
Proof.
  intros H. unfold py_index.
  rewrite bool_decide_eq_true_2 by lia. f_equal. lia.
Qed.

Lemma refresh_ok (cs : list Client) (es : list emit) (pos : nat) :
  (pos < length cs)%nat ->
  _refresh cs es (Z.of_nat pos) = mkOut cs (es ++ [("client-refresh", VClient pos)]) None.
Proof. intros H. unfold _refresh. by rewrite py_index_pos. Qed.

(** On a well-formed registry the mutation of a record is followed by the
    refresh of that record, and nothing raises. *)
Lemma update_refresh_ok (cs : list Client) (es : list emit) (pos : nat) (c : Client)
    (f : Client -> Client) :
  wf cs -> cs !! pos = Some c ->
  update_refresh cs es pos f
  = mkOut (<[pos := f c]> cs) (es ++ [("client-refresh", VClient pos)]) None.
Proof.
  intros Hwf Hc. unfold update_refresh. rewrite Hc, (Hwf _ _ Hc).
  apply refresh_ok. rewrite length_insert. by eapply lookup_lt_Some.
Qed.

Lemma wf_insert (cs : list Client) (pos : nat) (c c' : Client) :
  wf cs -> cs !! pos = Some c -> listidx c' = listidx c -> wf (<[pos := c']> cs).
Proof.
  intros Hwf Hc Hl j x Hx.
  destruct (decide (j = pos)) as [->|Hne].
  - rewrite list_lookup_insert_eq in Hx by (by eapply lookup_lt_Some).
    injection Hx as <-. rewrite Hl. by apply Hwf.
  - rewrite list_lookup_insert_ne in Hx by done. by apply Hwf.
Qed.

Lemma wf_snoc (cs : list Client) (c : Client) :
  wf cs -> listidx c = Z.of_nat (length cs) -> wf (cs ++ [c]).
Proof.
  intros Hwf Hl j x Hx. apply lookup_app_Some in Hx as [Hx|[Hlen Hx]].
  - by apply Hwf.
  - apply list_lookup_singleton_Some in Hx as [Hj <-]. rewrite Hl. f_equal. lia.
Qed.

(** What [on_client_join] does on a well-formed registry. *)
Lemma join_ok (cs : list Client) (i : Z) (prefix : string) :
  wf cs ->
  exists c es,
    on_client_join cs i prefix = mkOut (clients (on_client_join cs i prefix)) es None /\
    wf (clients (on_client_join cs i prefix)) /\
    clients (on_client_join cs i prefix) !! join_slot cs = Some c /\
    idx c = i /\ status c = Recording /\ progress c = PInt 0 /\
    listidx c = Z.of_nat (join_slot cs) /\
    (forall j, j ≠ join_slot cs ->
       clients (on_client_join cs i prefix) !! j = cs !! j) /\
    match get_client cs (-1) with
    | Some pos =>
        length (clients (on_client_join cs i prefix)) = length cs /\
        exists c0, cs !! pos = Some c0 /\ name c = name c0
    | None =>
        clients (on_client_join cs i prefix) = cs ++ [c] /\ name c = prefix
    end.
Proof.
  intros Hwf. unfold on_client_join, join_slot.
  destruct (get_client cs (-1)) as [pos|] eqn:E; simpl.
  - apply get_client_Some in E as (c0 & Hc0 & Hi & Hfirst).
    rewrite (update_refresh_ok _ _ _ c0) by done. simpl.
    eexists _, _. split; [done|].
    assert (pos < length cs)%nat by (by eapply lookup_lt_Some).
    split; [by eapply wf_insert|].
    split; [by rewrite list_lookup_insert_eq|].
    repeat split; simpl; eauto.
    + intros j Hj. by rewrite list_lookup_insert_ne.
    + by rewrite length_insert.
  - rewrite refresh_ok by (rewrite length_app; simpl; lia). simpl.
    eexists _, _. split; [done|].
    split; [by apply wf_snoc|].
    split; [by rewrite lookup_app_r, Nat.sub_diag|].
    repeat split; simpl; eauto.
    intros j Hj. destruct (decide (j < length cs)%nat).
    + by rewrite lookup_app_l.
    + rewrite lookup_app_r by lia. rewrite !lookup_ge_None_2; simpl; [done|lia|lia].
Qed.

Lemma get_client_unique (cs : list Client) (i : Z) (pos : nat) (c : Client) :
  cs !! pos = Some c -> idx c = i ->
  (forall j c', cs !! j = Some c' -> j ≠ pos -> idx c' ≠ i) ->
  get_client cs i = Some pos.
Proof.
  intros Hc Hi Ho. apply get_client_Some. exists c. repeat split; [done..|].
  intros j c' Hj Hlt. apply (Ho j c' Hj). lia.
Qed.

Section Steps.

Context (cs : list Client) (i : Z) (pos : nat) (c : Client).
Hypothesis Hwf : wf cs.
Hypothesis Hc : cs !! pos = Some c.
Hypothesis Hget : get_client cs i = Some pos.

Lemma progress_at (p : progress_t) :
  on_client_progress cs i p
  = mkOut (<[pos := set_progress p c]> cs) [("client-refresh", VClient pos)] None.
Proof. unfold on_client_progress. rewrite Hget. by rewrite (update_refresh_ok _ _ _ c). Qed.

Lemma done_at :
  on_client_done cs i
  = mkOut (<[pos := set_status 1 c]> cs) [("client-refresh", VClient pos)] None.
Proof. unfold on_client_done. rewrite Hget. by rewrite (update_refresh_ok _ _ _ c). Qed.

Lemma leave_at :
  exists es,
    on_client_leave cs i
    = mkOut (<[pos := if bool_decide (status c ≠ 1) then set_status 2 (set_idx (-1) c)
                      else set_idx (-1) c]> cs) es None.
Proof.
  unfold on_client_leave. rewrite Hget, Hc.
  assert (pos < length cs)%nat by (by eapply lookup_lt_Some).
  destruct (bool_decide (status c ≠ 1)); rewrite (Hwf _ _ Hc), refresh_ok;
    rewrite ?length_insert; eauto.
Qed.

End Steps.

(** C2. From a well-formed registry in which no record has the id [i], the
    events join(i), progress(i, p), done(i), leave(i) raise nothing and leave
    the record join gave to [i] with status Success, id -1 and progress [p];
    the events join(i), leave(i) leave it with status Error and id -1. *)
Theorem worker_lifecycle (cs : list Client) (i : Z) (p : progress_t) (prefix : string) :
  wf cs -> Forall (fun c => idx c ≠ i) cs ->
  (exists c, clients (on_client_join cs i prefix) !! join_slot cs = Some c /\ idx c = i) /\
  (exists cs' es c,
     process cs [Join i prefix; Progress i p; Done i; Leave i] = (cs', es, []) /\
     cs' !! join_slot cs = Some c /\
     status c = Success /\ idx c = -1 /\ progress c = p) /\
  (exists cs' es c,
     process cs [Join i prefix; Leave i] = (cs', es, []) /\
     cs' !! join_slot cs = Some c /\
     status c = Error /\ idx c = -1).
Proof.
  intros Hwf Hfresh.
  destruct (join_ok cs i prefix Hwf)
    as (c1 & es1 & Hj & Hwf1 & Hc1 & Hi1 & Hs1 & Hp1 & Hl1 & Hoth & _).
  set (pos := join_slot cs) in *.
  set (cs1 := clients (on_client_join cs i prefix)) in *.
  assert (Hlt1 : (pos < length cs1)%nat) by (by eapply lookup_lt_Some).
  assert (Hg1 : get_client cs1 i = Some pos).
  { apply (get_client_unique _ _ _ c1); [done..|].
    intros j c' Hj' Hne. rewrite Hoth in Hj' by done.
    rewrite Forall_forall in Hfresh. apply Hfresh.
    by eapply list_elem_of_lookup_2. }
  split; [eauto|]. split.
  - (* join, progress, done, leave *)
    set (c2 := set_progress p c1). set (cs2 := <[pos := c2]> cs1).
    assert (Hc2 : cs2 !! pos = Some c2) by (by apply list_lookup_insert_eq).
    assert (Hwf2 : wf cs2) by (by eapply wf_insert).
    assert (Hg2 : get_client cs2 i = Some pos).
    { apply (get_client_unique _ _ _ c2); [done..|].
      intros j c' Hj' Hne. unfold cs2 in Hj'.
      rewrite list_lookup_insert_ne in Hj' by done.
      rewrite Hoth in Hj' by done. rewrite Forall_forall in Hfresh.
      apply Hfresh. by eapply list_elem_of_lookup_2. }
    set (c3 := set_status 1 c2). set (cs3 := <[pos := c3]> cs2).
    assert (Hc3 : cs3 !! pos = Some c3)
      by (apply list_lookup_insert_eq; by eapply lookup_lt_Some).
    assert (Hwf3 : wf cs3) by (by eapply wf_insert).
    assert (Hg3 : get_client cs3 i = Some pos).
    { apply (get_client_unique _ _ _ c3); [done..|].
      intros j c' Hj' Hne. unfold cs3, cs2 in Hj'.
      rewrite !list_lookup_insert_ne in Hj' by done.
      rewrite Hoth in Hj' by done. rewrite Forall_forall in Hfresh.
      apply Hfresh. by eapply list_elem_of_lookup_2. }
    destruct (leave_at cs3 i pos c3 Hwf3 Hc3 Hg3) as (es4 & Hleave).
    eexists _, _, _. split.
    + simpl. rewrite Hj. simpl. fold cs1.
      rewrite (progress_at cs1 i pos c1 Hwf1 Hc1 Hg1). simpl. fold c2 cs2.
      rewrite (done_at cs2 i pos c2 Hwf2 Hc2 Hg2). simpl. fold c3 cs3.
      rewrite Hleave. simpl. reflexivity.
    + split; [apply list_lookup_insert_eq; by eapply lookup_lt_Some|].
      simpl. done.
  - (* join, leave *)
    destruct (leave_at cs1 i pos c1 Hwf1 Hc1 Hg1) as (es2 & Hleave).
    eexists _, _, _. split.
    + simpl. rewrite Hj. simpl. fold cs1. rewrite Hleave. simpl. reflexivity.
    + split; [by apply list_lookup_insert_eq|].
      rewrite Hs1. simpl. done.
Qed.

(** The lifecycle of session 7 on the empty registry. *)
Lemma worker_lifecycle_witness :
  (exists cs' es c,
     process [] [Join 7 "handler/7"; Progress 7 (PFloat 0.5); Done 7; Leave 7] = (cs', es, []) /\
     cs' !! 0%nat = Some c /\ status c = Success /\ idx c = -1 /\ progress c = PFloat 0.5) /\
  (exists cs' es c,
     process [] [Join 7 "handler/7"; Leave 7] = (cs', es, []) /\
     cs' !! 0%nat = Some c /\ status c = Error /\ idx c = -1).
Proof.
  assert (Hwf : wf []) by (intros pos c H; by rewrite lookup_nil in H).
  exact (proj2 (worker_lifecycle [] 7 (PFloat 0.5) "handler/7" Hwf (Forall_nil_2 _))).
Defined.

Lemma join_slot_first (cs : list Client) (j : nat) (c : Client) :
  cs !! j = Some c -> (j < join_slot cs)%nat -> idx c ≠ -1.
Proof.
  unfold join_slot. intros Hj Hlt.
  destruct (get_client cs (-1)) as [pos|] eqn:E; simpl in Hlt.
  - apply get_client_Some in E as (_ & _ & _ & Hfirst). by eapply Hfirst.
  - apply get_client_None in E. rewrite Forall_forall in E.
    apply E. by eapply list_elem_of_lookup_2.
Qed.

(** C3. After join(i) and leave(i), join(j) appends nothing: the record join
    gave to [i] is the one it gives to [j], at the same place and with the
    same [listidx], its id now [j], its status Recording and its progress 0,
    the other records as they were. And on any registry a join appends a
    record, with [listidx = len(clients)], exactly when no record has id
    -1. *)
Theorem slot_reuse (cs : list Client) (i j : Z) (prefix prefix' : string) :
  wf cs -> Forall (fun c => idx c ≠ i) cs ->
  (exists cs2 es c0 c,
     process cs [Join i prefix; Leave i] = (cs2, es, []) /\
     let o := on_client_join cs2 j prefix' in
     raised o = None /\
     length (clients o) = length cs2 /\
     cs2 !! join_slot cs = Some c0 /\
     clients o !! join_slot cs = Some c /\
     listidx c = listidx c0 /\ name c = name c0 /\
     idx c = j /\ status c = Recording /\ progress c = PInt 0 /\
     forall k, k ≠ join_slot cs -> clients o !! k = cs2 !! k) /\
  (forall (cs' : list Client) (k : Z) (pre : string),
     (get_client cs' (-1) = None ->
        clients (on_client_join cs' k pre)
        = cs' ++ [mkClient k 0 pre (PInt 0) (Z.of_nat (length cs'))]) /\
     (length (clients (on_client_join cs' k pre)) = S (length cs')
        <-> Forall (fun c => idx c ≠ -1) cs')).
Proof.
  intros Hwf Hfresh. split.
  - destruct (join_ok cs i prefix Hwf)
      as (c1 & es1 & Hj & Hwf1 & Hc1 & Hi1 & Hs1 & Hp1 & Hl1 & Hoth & _).
    set (pos := join_slot cs) in *.
    set (cs1 := clients (on_client_join cs i prefix)) in *.
    assert (Hg1 : get_client cs1 i = Some pos).
    { apply (get_client_unique _ _ _ c1); [done..|].
      intros k c' Hk Hne. rewrite Hoth in Hk by done.
      rewrite Forall_forall in Hfresh. apply Hfresh.
      by eapply list_elem_of_lookup_2. }
    destruct (leave_at cs1 i pos c1 Hwf1 Hc1 Hg1) as (es2 & Hleave).
    rewrite Hs1 in Hleave. simpl in Hleave.
    set (c2 := set_status 2 (set_idx (-1) c1)) in *.
    set (cs2 := <[pos := c2]> cs1) in *.
    assert (Hlt : (pos < length cs1)%nat) by (by eapply lookup_lt_Some).
    assert (Hc2 : cs2 !! pos = Some c2) by (by apply list_lookup_insert_eq).
    assert (Hwf2 : wf cs2) by (by eapply wf_insert).
    assert (Hg2 : get_client cs2 (-1) = Some pos).
    { apply get_client_Some. exists c2. repeat split; [done..|].
      intros k c' Hk Hkp. unfold cs2 in Hk.
      rewrite list_lookup_insert_ne in Hk by lia.
      rewrite Hoth in Hk by lia. by eapply join_slot_first. }
    exists cs2, (emits (on_client_join cs i prefix) ++ es2 ++ []), c2.
    eexists. split.
    { simpl. rewrite Hj at 2 3. simpl. fold cs1. rewrite Hleave. simpl.
      rewrite Hj. reflexivity. }
    simpl. unfold on_client_join. rewrite Hg2.
    rewrite (update_refresh_ok _ _ _ c2) by done. simpl.
    split; [done|]. split; [by rewrite length_insert|].
    split; [done|].
    split; [apply list_lookup_insert_eq; by eapply lookup_lt_Some|].
    repeat split; simpl; try done.
    intros k Hk. by rewrite list_lookup_insert_ne.
  - intros cs' k pre. split.
    + intros E. unfold on_client_join. rewrite E. cbn [listidx].
      rewrite refresh_ok by (rewrite length_app; simpl; lia). done.
    + rewrite <- get_client_None. unfold on_client_join.
      destruct (get_client cs' (-1)) as [pos|] eqn:E.
      * unfold update_refresh. destruct (cs' !! pos) as [c0|]; simpl.
        -- unfold _refresh. destruct (py_index _ _); simpl;
             rewrite length_insert; (split; [lia|done]).
        -- split; [lia|done].
      * unfold _refresh. destruct (py_index _ _); simpl;
          rewrite length_app; simpl; (split; [done|lia]).
Qed.

(** join(5), leave(5), join(9) on the empty registry. *)
Lemma slot_reuse_witness :
  exists cs2 es c0 c,
    process [] [Join 5 "handler/5"; Leave 5] = (cs2, es, []) /\
    let o := on_client_join cs2 9 "handler/9" in
    raised o = None /\
    length (clients o) = length cs2 /\
    cs2 !! join_slot [] = Some c0 /\
    clients o !! join_slot [] = Some c /\
    listidx c = listidx c0 /\ name c = name c0 /\
    idx c = 9 /\ status c = Recording /\ progress c = PInt 0 /\
    forall k, k ≠ join_slot [] -> clients o !! k = cs2 !! k.
Proof.
  assert (Hwf : wf []) by (intros pos c H; by rewrite lookup_nil in H).
  exact (proj1 (slot_reuse [] 5 9 "handler/5" "handler/9" Hwf (Forall_nil_2 _))).
Defined.

(** For the id of a session, which is never -1, the records that are in use
    are the only ones that can carry it. *)
Lemma no_live_match (cs : list Client) (i : Z) :
  i ≠ -1 ->
  (Forall (fun c => idx c ≠ -1 -> idx c ≠ i) cs <-> Forall (fun c => idx c ≠ i) cs).
Proof.
  intros Hi. rewrite !Forall_forall. split; intros H c Hc.
  - destruct (decide (idx c = -1)) as [E|E]; [congruence|by apply H].
  - intros _. by apply H.
Qed.

(** C7. A progress, done or leave event whose id no record has raises nothing,
    leaves the registry as it was, and publishes one thing: a level-2 message
    on the log topic. *)
Theorem unknown_id_warns (cs : list Client) (i : Z) (p : progress_t) :
  Forall (fun c => idx c ≠ i) cs ->
  (exists txt, on_client_progress cs i p = mkOut cs [("log", VLog 2 txt)] None) /\
  (exists txt, on_client_done cs i = mkOut cs [("log", VLog 2 txt)] None) /\
  (exists txt, on_client_leave cs i = mkOut cs [("log", VLog 2 txt)] None).
Proof.
  intros H. apply get_client_None in H.
  unfold on_client_progress, on_client_done, on_client_leave. rewrite H.
  repeat split; eexists; reflexivity.
Qed.

(** A progress event for session 3 when only session 0 has joined. *)
Lemma unknown_id_warns_witness :
  let cs := [mkClient 0 0 "handler/0" (PInt 0) 0] in
  (exists txt, on_client_progress cs 3 (PFloat 0.5) = mkOut cs [("log", VLog 2 txt)] None) /\
  (exists txt, on_client_done cs 3 = mkOut cs [("log", VLog 2 txt)] None) /\
  (exists txt, on_client_leave cs 3 = mkOut cs [("log", VLog 2 txt)] None).
Proof.
  apply (unknown_id_warns [mkClient 0 0 "handler/0" (PInt 0) 0] 3 (PFloat 0.5)).
  repeat constructor. simpl. lia.
Defined.

End RegistryFacts.

(** ** The session handler *)

Module HandlerFacts.
Import Handler.

Lemma topic_of_not_leave (idx : Z) (sub : string) : topic_of idx sub ≠ "client-leave".
Proof. unfold topic_of, prefix_of. simpl. discriminate. Qed.

Section Builtins.

Context (py_int : string -> option Z) (py_float : string -> option float).

Local Abbreviation client_update_args := (client_update_args py_int py_float).
Local Abbreviation client_update := (client_update py_int py_float).
Local Abbreviation recv_listener := (recv_listener py_int py_float).

Lemma client_update_args_topics (idx : Z) (args : list string) :
  "client-leave" ∉ topics_of (emits (client_update_args idx args)).
Proof.
  pose proof (topic_of_not_leave idx) as Ht.
  unfold client_update_args. destruct args as [|cmd rest]; simpl; [set_solver|].
  repeat case_bool_decide; simpl;
    repeat match goal with
           | |- context [match ?x with _ => _ end] => destruct x; simpl
           end;
    unfold topics_of; simpl;
    rewrite ?not_elem_of_cons; repeat split; try apply not_elem_of_nil;
    try discriminate; apply not_eq_sym, Ht.
Qed.

Lemma client_update_topics (idx : Z) (line : string) :
  "client-leave" ∉ topics_of (emits (client_update idx line)).
Proof.
  unfold client_update. destruct (Py.decode line).
  - apply client_update_args_topics.
  - simpl. apply not_elem_of_nil.
Qed.

Lemma recv_listener_topics (idx : Z) (lines : list string) :
  "client-leave" ∉ topics_of (recv_listener idx lines).
Proof.
  induction lines as [|l ls IH]; simpl; [apply not_elem_of_nil|].
  unfold topics_of in *. rewrite map_app, elem_of_app.
  intros [H|H].
  - by apply (client_update_topics idx l).
  - destruct (raised _); [by apply not_elem_of_nil in H|done].
Qed.

End Builtins.

Lemma reader_leave (idx : Z) (rs : list read) :
  "client-leave" ∈ topics_of (_reader idx rs) <->
  exists ls rs', rs = map Line ls ++ IncompleteReadError :: rs'.
Proof.
  induction rs as [|r rs IH]; simpl.
  - split; [intros H; by apply elem_of_nil in H|].
    intros (ls & rs' & H). by destruct ls.
  - destruct r as [b| |]; simpl.
    + unfold topics_of in *. simpl. rewrite elem_of_cons, IH. split.
      * intros [H|(ls & rs' & ->)]; [by destruct (topic_of_not_leave idx "recv")|].
        by exists (b :: ls), rs'.
      * intros (ls & rs' & H). right.
        destruct ls as [|b' ls]; [discriminate|]. injection H as _ H.
        by exists ls, rs'.
    + split; [intros _; by exists [], rs|intros _; unfold topics_of; simpl; apply elem_of_cons; by left].
    + split; [intros H; by apply elem_of_nil in H|].
      intros (ls & rs' & H). by destruct ls.
Qed.

Lemma last_char_app (s t : string) :
  t ≠ "" -> last_char (s +:+ t) = last_char t.
Proof.
  intros Ht. induction s as [|a s IH]; [done|].
  change (String a s +:+ t) with (String a (s +:+ t)). simpl.
  destruct (s +:+ t) eqn:E; [|done].
  destruct s; [by destruct Ht|discriminate E].
Qed.

(** The keepalive topic of a session is the topic of no subscription: it is
    none of the topics the services subscribe to, and none of the two a
    session subscribes to. *)
Lemma keepalive_unsubscribed (idx j : Z) :
  topic_of idx "keepalive"
  ∉ map snd wiring ++ map fst (subscriptions (new_client j).2).
Proof.
  intros [H|H]%elem_of_app.
  - unfold topic_of, prefix_of in H. simpl in H.
    repeat (apply elem_of_cons in H as [H|H]; [discriminate|]).
    by apply elem_of_nil in H.
  - simpl in H.
    assert (forall sub, last_char (topic_of idx sub) = last_char ("/" +:+ sub)) as Hl.
    { intros sub. unfold topic_of.
      change (prefix_of idx +:+ "/" +:+ sub) with (prefix_of idx +:+ ("/" +:+ sub)).
      by apply last_char_app. }
    apply elem_of_cons in H as [H|H].
    { apply (f_equal last_char) in H. unfold topic_of in H.
      rewrite !last_char_app in H by done. discriminate. }
    apply elem_of_cons in H as [H|H]; [|by apply elem_of_nil in H].
    apply (f_equal last_char) in H. unfold topic_of in H.
    rewrite !last_char_app in H by done. discriminate.
Qed.

(** C9. Whatever lines a session receives, [client_update] publishes nothing
    on client-leave; [new_client] subscribes [client_update] and [_writer]
    and nothing else, so [_ka] is the handler of no topic; the keepalive
    topic of the session, the one a keepalive line is published on, is the
    topic of no subscription of the program; [keepalive] itself subscribes
    nothing; [_writer] publishes nothing; and [_reader]
    publishes client-leave exactly when the reads reach the end of the
    stream. *)
Theorem keepalive_timeout_unwired (py_int : string -> option Z)
    (py_float : string -> option float) (idx : Z) :
  (forall lines, "client-leave" ∉ topics_of (recv_listener py_int py_float idx lines)) /\
  subscriptions (new_client idx).2
    = [(topic_of idx "recv", F_client_update idx); (topic_of idx "send", F_writer idx)] /\
  (forall t, (t, F_ka idx) ∉ subscriptions (new_client idx).2) /\
  (forall j, topic_of idx "keepalive"
             ∉ map snd wiring ++ map fst (subscriptions (new_client j).2)) /\
  keepalive idx = [] /\
  (forall line, emits (_writer line).2 = []) /\
  (forall rs, "client-leave" ∈ topics_of (_reader idx rs) <->
              exists ls rs', rs = map Line ls ++ IncompleteReadError :: rs').
Proof.
  split; [apply recv_listener_topics|].
  split; [reflexivity|].
  split.
  { intros t. simpl. rewrite !not_elem_of_cons.
    repeat split; try discriminate. apply not_elem_of_nil. }
  split; [intros j; apply keepalive_unsubscribed|].
  split; [reflexivity|]. split; [reflexivity|].
  apply reader_leave.
Qed.

(** What [client_update] publishes for a progress value [v]. *)
Lemma progress_of_emits (py_int : string -> option Z) (py_float : string -> option float)
    (idx : Z) (rest : list string) (v : progress_t) :
  progress_of py_int py_float ("progress" :: rest) = inr v ->
  client_update_args py_int py_float idx ("progress" :: rest)
  = mkOut [ log 0 [Lit "progress "; FInt idx; Lit " "; FProgress v];
            (topic_of idx "progress", VProgress v);
            ("client-progress", VProgressEv idx v) ] None.
Proof. intros H. unfold client_update_args. simpl. by rewrite H. Qed.

(** A three-token progress line whose first number is not one: [int] raises
    and nothing catches it. *)
Lemma progress_ratio_not_int (py_int : string -> option Z)
    (py_float : string -> option float) (idx : Z) (a b : string) :
  py_int a = None ->
  client_update_args py_int py_float idx ["progress"; a; b] = mkOut [] (Some ValueError).
Proof. intros H. unfold client_update_args, progress_of. simpl. by rewrite H. Qed.

(** C4. The line [progress a b] ends [client_update] with the ValueError of
    [int('a')]: nothing is published, no progress value is stored. *)
Theorem progress_ratio_text_raises (idx : Z) :
  client_update Py.dec_int Py.dec_float idx ("progress a b" +:+ Py.newline)
  = mkOut [] (Some ValueError).
Proof. reflexivity. Qed.

(** C5. On [progress p] the value published is [float(p)/100] when [float]
    reads [p], and the text [p] when it does not. The lines [progress 3 10],
    [progress 50] and [progress banana] publish the floats 0.3 and 0.5 and
    the text banana. *)
Theorem progress_single_arg :
  (forall (py_int : string -> option Z) (py_float : string -> option float)
          (idx : Z) (p : string),
     let v := match py_float p with
              | Some f => PFloat (f / 100)%float
              | None => PStr p
              end in
     client_update_args py_int py_float idx ["progress"; p]
     = mkOut [ log 0 [Lit "progress "; FInt idx; Lit " "; FProgress v];
               (topic_of idx "progress", VProgress v);
               ("client-progress", VProgressEv idx v) ] None) /\
  (forall idx : Z,
     let v := PFloat 0x1.3333333333333p-2%float in
     client_update Py.dec_int Py.dec_float idx ("progress 3 10" +:+ Py.newline)
     = mkOut [ log 0 [Lit "progress "; FInt idx; Lit " "; FProgress v];
               (topic_of idx "progress", VProgress v);
               ("client-progress", VProgressEv idx v) ] None) /\
  (forall idx : Z,
     let v := PFloat 0.5%float in
     client_update Py.dec_int Py.dec_float idx ("progress 50" +:+ Py.newline)
     = mkOut [ log 0 [Lit "progress "; FInt idx; Lit " "; FProgress v];
               (topic_of idx "progress", VProgress v);
               ("client-progress", VProgressEv idx v) ] None) /\
  (forall idx : Z,
     let v := PStr "banana" in
     client_update Py.dec_int Py.dec_float idx ("progress banana" +:+ Py.newline)
     = mkOut [ log 0 [Lit "progress "; FInt idx; Lit " "; FProgress v];
               (topic_of idx "progress", VProgress v);
               ("client-progress", VProgressEv idx v) ] None).
Proof.
  split.
  { intros py_int py_float idx p. apply progress_of_emits.
    unfold progress_of. simpl. by destruct (py_float p). }
  repeat split; intros idx; reflexivity.
Qed.

(** C10. A line that splits into no token ends [client_update] with the
    IndexError of [args[0]], the line of the newline alone among them; a line
    whose first token is none of progress, alert, done and keepalive makes it
    return with nothing published and nothing logged. *)
Theorem dispatcher_not_total (py_int : string -> option Z)
    (py_float : string -> option float) (idx : Z) :
  client_update py_int py_float idx Py.newline = mkOut [] (Some IndexError) /\
  (forall line s,
     Py.decode line = Some s -> Py.split s = [] ->
     client_update py_int py_float idx line = mkOut [] (Some IndexError)) /\
  (forall line s cmd rest,
     Py.decode line = Some s -> Py.split s = cmd :: rest ->
     cmd ∉ ["progress"; "alert"; "done"; "keepalive"] ->
     client_update py_int py_float idx line = mkOut [] None).
Proof.
  split; [reflexivity|]. split.
  - intros line s Hd Hs. unfold client_update. by rewrite Hd, Hs.
  - intros line s cmd rest Hd Hs Hc. unfold client_update. rewrite Hd, Hs.
    rewrite !not_elem_of_cons in Hc. destruct Hc as (H1 & H2 & H3 & H4 & _).
    unfold client_update_args.
    by rewrite !bool_decide_eq_false_2.
Qed.

(** The lines of spaces alone and [hello world]. *)
Lemma dispatcher_not_total_witness :
  client_update Py.dec_int Py.dec_float 0 ("   " +:+ Py.newline) = mkOut [] (Some IndexError) /\
  client_update Py.dec_int Py.dec_float 0 ("hello world" +:+ Py.newline) = mkOut [] None.
Proof.
  destruct (dispatcher_not_total Py.dec_int Py.dec_float 0) as (_ & H1 & H2).
  split.
  - apply (H1 _ ("   " +:+ Py.newline)); reflexivity.
  - apply (H2 _ ("hello world" +:+ Py.newline) "hello" ["world"]); [reflexivity..|].
    rewrite !not_elem_of_cons. repeat split; try discriminate. apply not_elem_of_nil.
Defined.

End HandlerFacts.

(** ** The event bus *)

Module BusFacts.
Import Bus.

Section Facts.

Context {F V : Type}.
Context (call : F -> V -> @state F V -> list (@cmd F V) * bool).

Implicit Types (st : @state F V) (k : string * string) (o : @obj V).
Implicit Types (cb : @callback V) (cbs : list (@callback V)).

Local Abbreviation listener_loop := (listener_loop call).
Local Abbreviation listener_step := (listener_step call).
Local Abbreviation run_cb := (run_cb call).
Local Abbreviation run_once := (run_once call).
Local Abbreviation run := (run call).
Local Abbreviation reachable := (reachable call).

Lemma inflight_app k (l1 l2 : list (@callback V)) :
  inflight k (l1 ++ l2) = inflight k l1 ++ inflight k l2.
Proof. unfold inflight. apply omap_app. Qed.

Lemma inflight_other k cb (l : list (@callback V)) :
  is_on_pub cb = false -> inflight k (cb :: l) = inflight k l.
Proof. by destruct cb. Qed.

Lemma inflight_others k (l : list (@callback V)) :
  Forall (fun cb => is_on_pub cb = false) l -> inflight k l = [].
Proof.
  induction 1 as [|cb l H _ IH]; [done|]. by rewrite inflight_other.
Qed.

Lemma created_for_snoc k st (x : list (string * string * @obj V)) (e : string * string * @obj V) :
  created st = x ->
  omap (fun e => if bool_decide (k = e.1) then Some e.2 else None) (x ++ [e])
  = created_for k st ++ (if bool_decide (k = e.1) then [e.2] else []).
Proof.
  intros <-. unfold created_for. rewrite omap_app. simpl.
  by destruct (bool_decide (k = e.1)).
Qed.

(** The bus invariant reads the FIFO through its [on_pub] tasks alone. *)
Lemma bus_frame st st' (extra : list (@callback V)) :
  services st' = services st -> topics st' = topics st -> subs st' = subs st ->
  handled st' = handled st -> created st' = created st ->
  ready st' = ready st ++ extra -> Forall (fun cb => is_on_pub cb = false) extra ->
  bus_inv st -> bus_inv st'.
Proof.
  intros Hs Ht Hu Hh Hc Hr Hx [H1 H2 H3 H4 H5].
  split.
  - intros t names s. rewrite Ht, Hs, Hu. apply H1.
  - intros tid s t o. rewrite Hr, Hu, elem_of_app. intros [H|H]; [by eapply H2|].
    rewrite Forall_forall in Hx. by apply Hx in H.
  - intros k. unfold handled_for. rewrite Hu, Hh. apply H3.
  - intros k r. rewrite Hu. apply H4.
  - intros k. unfold created_for, consumed, handled_for, status_of, queue_of.
    rewrite Hc, Hh, Hu, Hr, inflight_app, (inflight_others _ extra), app_nil_r by done.
    apply H5.
Qed.

Lemma life_frame st st' :
  awaiters st' = awaiters st -> task_awaiters st' = task_awaiters st ->
  waiting st' = waiting st -> life_inv st -> life_inv st'.
Proof.
  intros Ha Ht Hw [H1 H2 H3]. split.
  - intros idx a. rewrite Ha, Ht. apply H1.
  - intros idx. rewrite Ha, Ht. apply H2.
  - by rewrite Hw.
Qed.

(** *** The manager calls keep the invariants *)

Lemma create_topic_bus (topic : string) st :
  bus_inv st -> bus_inv (create_topic topic st).1.
Proof.
  intros Hi. unfold create_topic. destruct (topics st !! topic) eqn:E; [done|]. simpl.
  destruct Hi as [H1 H2 H3 H4 H5]. split; simpl; try done.
  intros t names s Ht Hs. destruct (decide (t = topic)) as [->|Hne].
  - rewrite lookup_insert_eq in Ht. injection Ht as <-. by apply not_elem_of_empty in Hs.
  - rewrite lookup_insert_ne in Ht by done. by eapply H1.
Qed.

Lemma create_topic_life (topic : string) st :
  life_inv st -> life_inv (create_topic topic st).1.
Proof. unfold create_topic. destruct (topics st !! topic); [done|]. by apply life_frame. Qed.

Lemma register_bus (svc : string) st : bus_inv st -> bus_inv (register svc st).1.
Proof.
  intros Hi. unfold register.
  assert (bus_inv (set_services (services st ∪ {[svc]}) st)) as Hi1.
  { destruct Hi as [H1 H2 H3 H4 H5]. split; simpl; try done.
    intros t names s Ht Hs. destruct (H1 t names s Ht Hs). split; [apply elem_of_union; by left|done]. }
  pose proof (create_topic_bus svc _ Hi1) as Hi2.
  destruct (create_topic svc _) as [st1 [e|]]; simpl in *; [done|].
  by eapply (bus_frame st1 _ []); rewrite ?app_nil_r.
Qed.

Lemma register_life (svc : string) st : life_inv st -> life_inv (register svc st).1.
Proof.
  intros Hi. unfold register.
  assert (life_inv (set_services (services st ∪ {[svc]}) st)) as Hi1 by (by apply (life_frame st)).
  pose proof (create_topic_life svc _ Hi1) as Hi2.
  destruct (create_topic svc _) as [st1 [e|]]; simpl in *; [done|].
  by apply (life_frame st1).
Qed.

Lemma run_tasks_bus (tids : list nat) st : bus_inv st -> bus_inv (run_tasks tids st).
Proof.
  intros Hi. eapply (bus_frame st _ [AwaiterStart (awaiter_counter st)]); try done.
  by repeat constructor.
Qed.

Lemma run_tasks_life (tids : list nat) st : life_inv st -> life_inv (run_tasks tids st).
Proof.
  intros [H1 H2 H3]. split; simpl; [| |done].
  - intros idx a Ha Hd. rewrite elem_of_app, list_elem_of_singleton.
    destruct (decide (idx = awaiter_counter st)) as [->|Hne].
    + rewrite lookup_insert_eq in Ha. by injection Ha as <-.
    + rewrite lookup_insert_ne in Ha by done. intros [Hin|?]; [|done]. by eapply H1.
  - intros idx. rewrite elem_of_app, list_elem_of_singleton. intros [Hin| ->].
    + destruct (decide (idx = awaiter_counter st)) as [->|Hne].
      * by rewrite lookup_insert_eq.
      * rewrite lookup_insert_ne by done. by apply H2.
    + by rewrite lookup_insert_eq.
Qed.

(** [spawn] over subscribers that hold a queue for the topic: no lookup
    fails, and each gets one [on_pub] task. *)
Lemma spawn_spec (topic : string) o (names : list string) (tids : list nat) st :
  bus_inv st ->
  (forall s, s ∈ names -> s ∈ services st /\ is_Some (subs st !! (s, topic))) ->
  exists st1 tids1,
    spawn topic o names tids st = (st1, tids1, None) /\
    bus_inv st1 /\
    services st1 = services st /\ managed st1 = managed st /\
    topics st1 = topics st /\ subs st1 = subs st /\
    handled st1 = handled st /\
    awaiters st1 = awaiters st /\ task_awaiters st1 = task_awaiters st /\
    awaiter_counter st1 = awaiter_counter st /\
    waiting st1 = waiting st /\ quit st1 = quit st /\
    created st1 = created st ++ map (fun s => (s, topic, o)) names /\
    exists new, ready st1 = ready st ++ new /\
                Forall (fun cb => exists tid s, cb = OnPub tid s topic o) new.
Proof.
  revert tids st. induction names as [|s names IH]; intros tids st Hi Hn; simpl.
  { eexists _, _. split; [done|]. rewrite !app_nil_r.
    do 12 (split; [done|]). exists []. by rewrite app_nil_r. }
  assert (Hin : s ∈ s :: names) by (by left).
  destruct (Hn s Hin) as [Hs Hq].
  rewrite bool_decide_eq_true_2 by done.
  match goal with |- context [spawn _ _ _ _ ?x] => set (st' := x) end.
  assert (Hi' : bus_inv st').
  { destruct Hi as [H1 H2 H3 H4 H5]. split; simpl; try done.
    - intros tid s' t o'. rewrite elem_of_app, list_elem_of_singleton.
      intros [H|H]; [by eapply H2|]. by injection H as -> -> -> ->.
    - intros k. specialize (H5 k).
      unfold created_for, consumed, handled_for, status_of, queue_of in *. simpl.
      rewrite omap_app, inflight_app, H5. simpl.
      case_bool_decide; simpl; by rewrite <- ?app_assoc, ?app_nil_r. }
  destruct (IH (tids ++ [next_tid st]) st' Hi') as (st1 & tids1 & Hsp & Hi1 & Hrest).
  { intros s' Hs'. apply Hn. by right. }
  exists st1, tids1. split; [done|]. split; [done|].
  destruct Hrest as (?&?&?&?&?&?&?&?&?&?&Hc&new&Hr&Hf). simpl in *.
  do 10 (split; [congruence|]). split.
  - rewrite Hc. by rewrite <- app_assoc.
  - exists (OnPub (next_tid st) s topic o :: new). split.
    + rewrite Hr. by rewrite <- app_assoc.
    + constructor; [eauto|done].
Qed.

Lemma created_for_names k (topic : string) o (names : list string) :
  NoDup names ->
  omap (fun e : string * string * obj => if bool_decide (k = e.1) then Some e.2 else None)
       (map (fun s => (s, topic, o)) names)
  = if bool_decide (k.2 = topic /\ k.1 ∈ names) then [o] else [].
Proof.
  destruct k as [s0 t0]. simpl.
  induction 1 as [|s names Hs Hnd IH].
  { simpl. case_bool_decide as H; [|done]. destruct H as [_ H]. by apply elem_of_nil in H. }
  change (s :: names) with ([s] ++ names) at 1. rewrite map_app, omap_app, IH.
  simpl.
  destruct (decide ((s0, t0) = (s, topic))) as [E|E].
  - injection E as -> ->. rewrite bool_decide_eq_true_2 by done.
    rewrite (bool_decide_eq_false_2 (_ /\ s ∈ names)) by (intros [_ ?]; done).
    rewrite bool_decide_eq_true_2 by (split; [done|by left]). done.
  - rewrite bool_decide_eq_false_2 by done. simpl.
    assert (bool_decide (t0 = topic /\ s0 ∈ names)
            = bool_decide (t0 = topic /\ s0 ∈ s :: names)) as ->; [|done].
    apply bool_decide_ext. split.
    + intros [? ?]. split; [done|by right].
    + intros [-> [->|?]%elem_of_cons]; done.
Qed.

(** [pub] on a topic that exists: it raises nothing, and the subscribers of
    the topic each get one [on_pub] task for the object, nobody else any. *)
Lemma pub_spec (topic : string) o st (names : gset string) :
  bus_inv st -> life_inv st -> topics st !! topic = Some names ->
  exists st1,
    pub topic o st = (st1, None) /\ bus_inv st1 /\ life_inv st1 /\
    services st1 = services st /\ managed st1 = managed st /\
    topics st1 = topics st /\ subs st1 = subs st /\ handled st1 = handled st /\
    (forall k, created_for k st1
               = created_for k st ++
                 if bool_decide (k.2 = topic /\ k.1 ∈ names) then [o] else []) /\
    exists new, ready st1 = ready st ++ new.
Proof.
  intros Hi Hl Ht. unfold pub. rewrite Ht.
  destruct (spawn_spec topic o (elements names) [] st Hi)
    as (st1 & tids & Hsp & Hi1 & Hsv & Hm & Htp & Hsb & Hh & Ha & Hta & Hac & Hw & Hq & Hc & new & Hr & _).
  { intros s Hs. apply elem_of_elements in Hs. by eapply bi_topics. }
  rewrite Hsp. eexists. split; [done|].
  split; [by apply run_tasks_bus|].
  split; [apply run_tasks_life; by apply (life_frame st)|].
  simpl. do 5 (split; [done|]). split.
  - intros k. unfold created_for. simpl. rewrite Hc, omap_app.
    rewrite created_for_names by apply NoDup_elements.
    f_equal. assert (bool_decide (k.2 = topic /\ k.1 ∈ elements names)
                     = bool_decide (k.2 = topic /\ k.1 ∈ names)) as ->; [|done].
    apply bool_decide_ext. by rewrite elem_of_elements.
  - eexists. rewrite Hr, <- app_assoc. done.
Qed.

Lemma pub_bus (topic : string) o st : bus_inv st -> bus_inv (pub topic o st).1.
Proof.
  intros Hi. unfold pub. destruct (topics st !! topic) as [names|] eqn:Ht; [|done].
  destruct (spawn_spec topic o (elements names) [] st Hi) as (st1 & tids & Hsp & Hi1 & _).
  { intros s Hs. apply elem_of_elements in Hs. by eapply bi_topics. }
  rewrite Hsp. simpl. by apply run_tasks_bus.
Qed.

Lemma pub_life (topic : string) o st : bus_inv st -> life_inv st -> life_inv (pub topic o st).1.
Proof.
  intros Hi Hl. unfold pub. destruct (topics st !! topic) as [names|] eqn:Ht; [|done].
  destruct (spawn_spec topic o (elements names) [] st Hi)
    as (st1 & tids & Hsp & Hi1 & Hsv & Hm & Htp & Hsb & Hh & Ha & Hta & Hac & Hw & _).
  { intros s Hs. apply elem_of_elements in Hs. by eapply bi_topics. }
  rewrite Hsp. simpl. apply run_tasks_life. by apply (life_frame st).
Qed.

Lemma delete_topic_bus (topic : string) st :
  bus_inv st -> bus_inv (set_topics (delete topic (topics st)) st).
Proof.
  intros [H1 H2 H3 H4 H5]. split; simpl; try done.
  intros t names s Ht. apply lookup_delete_Some in Ht as [_ Ht]. by apply H1.
Qed.

Lemma close_topic_bus (topic : string) st : bus_inv st -> bus_inv (close_topic topic st).1.
Proof.
  intros Hi. unfold close_topic. pose proof (pub_bus topic QUIT st Hi) as Hp.
  destruct (pub topic QUIT st) as [st1 [e|]]; simpl in *; [done|].
  by apply delete_topic_bus.
Qed.

Lemma close_topic_life (topic : string) st :
  bus_inv st -> life_inv st -> life_inv (close_topic topic st).1.
Proof.
  intros Hi Hl. unfold close_topic. pose proof (pub_life topic QUIT st Hi Hl) as Hp.
  destruct (pub topic QUIT st) as [st1 [e|]]; simpl in *; [done|].
  by apply (life_frame st1).
Qed.

(** The state [sub] leaves when it has made the queue and the consumer. *)
Lemma sub_queue_bus (svc topic : string) (f : F) st :
  bus_inv st -> subs st !! (svc, topic) = None ->
  bus_inv (set_ready (ready st ++ [ListenerStep svc topic])
             (set_subs (<[(svc, topic) := mkSub [] f LReady]> (subs st)) st)).
Proof.
  intros [H1 H2 H3 H4 H5] Hn. split; simpl.
  - intros t names s Ht Hs. destruct (H1 t names s Ht Hs) as [? [r Hr]].
    split; [done|]. destruct (decide ((s, t) = (svc, topic))) as [->|Hne].
    + by rewrite lookup_insert_eq.
    + rewrite lookup_insert_ne by done. by exists r.
  - intros tid s t o Hin. apply elem_of_app in Hin as [Hin|Hin].
    + destruct (H2 _ _ _ _ Hin) as [r Hr].
      destruct (decide ((s, t) = (svc, topic))) as [->|Hne].
      * by rewrite lookup_insert_eq.
      * rewrite lookup_insert_ne by done. by exists r.
    + by apply list_elem_of_singleton in Hin.
  - intros k Hk. apply lookup_insert_None in Hk as [Hk _]. by apply H3.
  - intros k r Hk. destruct (decide (k = (svc, topic))) as [->|Hne].
    + rewrite lookup_insert_eq in Hk. by injection Hk as <-.
    + rewrite lookup_insert_ne in Hk by done. by apply (H4 k).
  - intros k. specialize (H5 k).
    unfold created_for, consumed, handled_for, status_of, queue_of in *. simpl.
    rewrite inflight_app. simpl. rewrite app_nil_r.
    destruct (decide (k = (svc, topic))) as [->|Hne].
    + rewrite lookup_insert_eq. rewrite Hn in H5. simpl in *. done.
    + by rewrite lookup_insert_ne.
Qed.

Lemma sub_bus (svc topic : string) (f : F) st : bus_inv st -> bus_inv (sub svc topic f st).1.
Proof.
  intros Hi. unfold sub. destruct (subs st !! (svc, topic)) eqn:Hn; [done|].
  case_bool_decide as Hm; [|done].
  pose proof (sub_queue_bus svc topic f st Hi Hn) as Hi1.
  set (st1 := set_ready _ _) in *.
  case_bool_decide as Hs; [|done].
  destruct (topics st1 !! topic) as [names|] eqn:Ht; [|done]. simpl.
  destruct Hi1 as [H1 H2 H3 H4 H5]. split; try done. simpl.
  intros t names' s Ht' Hs'. destruct (decide (t = topic)) as [->|Hne].
  - rewrite lookup_insert_eq in Ht'. injection Ht' as <-.
    apply elem_of_union in Hs' as [Hs'|Hs'].
    + by apply (H1 topic names).
    + apply elem_of_singleton in Hs' as ->. split; [done|].
      subst st1. simpl. by rewrite lookup_insert_eq.
  - rewrite lookup_insert_ne in Ht' by done. by apply (H1 t names').
Qed.

Lemma sub_life (svc topic : string) (f : F) st : life_inv st -> life_inv (sub svc topic f st).1.
Proof.
  intros Hl. unfold sub. destruct (subs st !! (svc, topic)); [done|].
  case_bool_decide; [|done]. case_bool_decide; [|by apply (life_frame st)].
  simpl. destruct (topics st !! topic); by apply (life_frame st).
Qed.

Lemma run_as_task_bus st : bus_inv st -> bus_inv (run_as_task st).
Proof.
  intros Hi. apply run_tasks_bus. by eapply (bus_frame st _ []); rewrite ?app_nil_r.
Qed.

Lemma run_as_task_life st : life_inv st -> life_inv (run_as_task st).
Proof. intros Hl. apply run_tasks_life. by apply (life_frame st). Qed.

Lemma exec_bus (c : cmd) st : bus_inv st -> bus_inv (exec c st).1.
Proof.
  destruct c; simpl; auto using create_topic_bus, register_bus, sub_bus, pub_bus,
    close_topic_bus, run_as_task_bus.
Qed.

Lemma exec_life (c : cmd) st : bus_inv st -> life_inv st -> life_inv (exec c st).1.
Proof.
  destruct c; simpl; auto using create_topic_life, register_life, sub_life, pub_life,
    close_topic_life, run_as_task_life.
Qed.

Lemma exec_all_inv (cs : list cmd) st :
  bus_inv st -> life_inv st -> bus_inv (exec_all cs st).1 /\ life_inv (exec_all cs st).1.
Proof.
  revert st. induction cs as [|c cs IH]; intros st Hi Hl; simpl; [done|].
  pose proof (exec_bus c st Hi). pose proof (exec_life c st Hi Hl).
  destruct (exec c st) as [st1 [e|]]; simpl in *; [done|]. by apply IH.
Qed.

(** *** The callbacks keep the invariants *)

Lemma finish_task_bus (tid : nat) st : bus_inv st -> bus_inv (finish_task tid st).
Proof.
  intros Hi. unfold finish_task. destruct (tasks st !! tid) as [t|]; [|done].
  eapply (bus_frame st _ (map OnCompletion (t_cbs t))); try done.
  apply Forall_forall. intros cb Hcb. apply list_elem_of_fmap in Hcb as (i & -> & _). done.
Qed.

Lemma finish_task_life (tid : nat) st : life_inv st -> life_inv (finish_task tid st).
Proof.
  intros Hl. unfold finish_task. destruct (tasks st !! tid); [|done]. by apply (life_frame st).
Qed.

(** The step of an [on_pub] task at the head of the FIFO: the object goes
    from the tasks still to run to the end of the queue. *)
Lemma on_pub_bus (tid : nat) (svc topic : string) o (rest : list (@callback V)) st :
  bus_inv st -> ready st = OnPub tid svc topic o :: rest ->
  bus_inv (on_pub svc topic o (set_ready rest st)).1.
Proof.
  intros [H1 H2 H3 H4 H5] Hr.
  destruct (H2 tid svc topic o) as [r Hsub]; [rewrite Hr; by left|].
  unfold on_pub. simpl. rewrite Hsub.
  set (st' := (match status r with LWaiting => _ | _ => _ end)).
  assert (exists s' extra,
    subs st'.1 = <[(svc, topic) := mkSub (items r ++ [o]) (func r) s']> (subs st) /\
    (s' = status r \/ (status r = LWaiting /\ s' = LReady)) /\ s' ≠ LWaiting /\
    ready st'.1 = rest ++ extra /\ Forall (fun cb => is_on_pub cb = false) extra /\
    services st'.1 = services st /\ topics st'.1 = topics st /\
    handled st'.1 = handled st /\ created st'.1 = created st)
    as (s' & extra & Hs1 & Hs2 & Hs3 & Hr1 & Hx & Hsv & Ht & Hh & Hc).
  { subst st'. destruct (status r) eqn:Es; simpl.
    2: { exists LReady, [ListenerStep svc topic]. repeat split; auto. }
    all: eexists _, []; rewrite app_nil_r; repeat split; auto; done. }
  clearbody st'. split.
  - intros t names s. rewrite Ht, Hsv, Hs1. intros Htn Hs.
    destruct (H1 t names s Htn Hs) as [? [r' Hr']]. split; [done|].
    destruct (decide ((s, t) = (svc, topic))) as [->|Hne].
    + by rewrite lookup_insert_eq.
    + rewrite lookup_insert_ne by done. by exists r'.
  - intros tid' s t o'. rewrite Hr1, Hs1, elem_of_app. intros [Hin|Hin].
    + destruct (H2 tid' s t o') as [r' Hr']; [rewrite Hr; by right|].
      destruct (decide ((s, t) = (svc, topic))) as [->|Hne].
      * by rewrite lookup_insert_eq.
      * rewrite lookup_insert_ne by done. by exists r'.
    + rewrite Forall_forall in Hx. by apply Hx in Hin.
  - intros k. unfold handled_for. rewrite Hs1, Hh. intros Hk.
    apply lookup_insert_None in Hk as [Hk _]. by apply H3.
  - intros k r'. rewrite Hs1. destruct (decide (k = (svc, topic))) as [->|Hne].
    + rewrite lookup_insert_eq. intros [= <-]. simpl. done.
    + rewrite lookup_insert_ne by done. by apply (H4 k).
  - intros k. specialize (H5 k).
    unfold created_for, consumed, handled_for, status_of, queue_of in *.
    rewrite Hc, Hh, Hs1, Hr1, inflight_app, (inflight_others k extra), app_nil_r by done.
    rewrite H5, Hr. simpl.
    destruct (decide (k = (svc, topic))) as [->|Hne].
    + rewrite bool_decide_eq_true_2 by done. rewrite lookup_insert_eq, Hsub. simpl.
      rewrite <- !app_assoc. simpl. f_equal.
      destruct Hs2 as [->|[-> ->]]; done.
    + rewrite bool_decide_eq_false_2 by done. by rewrite lookup_insert_ne.
Qed.

Lemma on_pub_life (svc topic : string) o st :
  life_inv st -> life_inv (on_pub svc topic o st).1.
Proof.
  intros Hl. unfold on_pub. destruct (subs st !! (svc, topic)) as [r|]; [|done].
  destruct (status r); by apply (life_frame st).
Qed.

(** No manager call touches a queue that exists. *)
Lemma spawn_subs (topic : string) o (names : list string) (tids : list nat) st :
  subs (spawn topic o names tids st).1.1 = subs st.
Proof.
  revert tids st. induction names as [|s names IH]; intros tids st; simpl; [done|].
  case_bool_decide; [|done]. by rewrite IH.
Qed.

Lemma pub_subs (topic : string) o st : subs (pub topic o st).1 = subs st.
Proof.
  unfold pub. destruct (topics st !! topic) as [names|]; [|done].
  pose proof (spawn_subs topic o (elements names) [] st) as H.
  destruct (spawn _ _ _ _ _) as [[st1 tids] [e|]]; simpl in *; done.
Qed.

Lemma exec_subs (c : cmd) st k (r : @sub_rec F V) :
  subs st !! k = Some r -> subs (exec c st).1 !! k = Some r.
Proof.
  intros Hk. destruct c as [t|s|s t f|t o|t|]; simpl.
  - unfold create_topic. by destruct (topics st !! t).
  - unfold register, create_topic. simpl. by destruct (topics st !! s).
  - unfold sub. destruct (subs st !! (s, t)) eqn:E; [done|].
    assert (k ≠ (s, t)) by congruence.
    case_bool_decide; [|done]. case_bool_decide; simpl.
    + destruct (topics st !! t); simpl; by rewrite lookup_insert_ne.
    + by rewrite lookup_insert_ne.
  - by rewrite pub_subs.
  - unfold close_topic. pose proof (pub_subs t QUIT st) as H.
    destruct (pub t QUIT st) as [st1 [e|]]; simpl in *; by rewrite H.
  - done.
Qed.

Lemma exec_all_subs (cs : list cmd) st k (r : @sub_rec F V) :
  subs st !! k = Some r -> subs (exec_all cs st).1 !! k = Some r.
Proof.
  revert st. induction cs as [|c cs IH]; intros st Hk; simpl; [done|].
  pose proof (exec_subs c st k r Hk) as H.
  destruct (exec c st) as [st1 [e|]]; simpl in *; [done|]. by apply IH.
Qed.

Lemma handled_map_other k' k (hs : list V) :
  k' ≠ k ->
  omap (fun e : string * string * V => if bool_decide (k' = e.1) then Some e.2 else None)
       (map (fun v => (k, v)) hs) = [].
Proof.
  intros Hne. induction hs as [|v hs IH]; simpl; [done|].
  by rewrite bool_decide_eq_false_2.
Qed.

Lemma handled_map_same k (hs : list V) :
  omap (fun e : string * string * V => if bool_decide (k = e.1) then Some e.2 else None)
       (map (fun v => (k, v)) hs) = hs.
Proof.
  induction hs as [|v hs IH]; simpl; [done|].
  rewrite bool_decide_eq_true_2 by done. f_equal. exact IH.
Qed.

(** A consumer takes from its queue: what it took and what the queue holds
    are together what the queue held. *)
Lemma bus_entry st st' k (r r' : @sub_rec F V) (hs : list V) :
  subs st !! k = Some r ->
  subs st' = <[k := r']> (subs st) ->
  handled st' = handled st ++ map (fun v => (k, v)) hs ->
  services st' = services st -> topics st' = topics st ->
  created st' = created st -> ready st' = ready st ->
  (match status r with LQuit => [QUIT] | _ => [] end) ++ items r
  = map Ev hs ++ (match status r' with LQuit => [QUIT] | _ => [] end) ++ items r' ->
  (status r' = LWaiting -> items r' = []) ->
  bus_inv st -> bus_inv st'.
Proof.
  intros Hk Hs Hh Hsv Ht Hc Hr Heq Hidle [H1 H2 H3 H4 H5].
  assert (Hkeys : forall k', is_Some (subs st !! k') -> is_Some (subs st' !! k')).
  { intros k' [x Hx]. rewrite Hs. destruct (decide (k' = k)) as [->|Hne].
    - by rewrite lookup_insert_eq.
    - rewrite lookup_insert_ne by done. by exists x. }
  pose proof (fun k' => handled_map_other k' k hs) as Hother.
  pose proof (handled_map_same k hs) as Hsame.
  split.
  - intros t names s. rewrite Ht, Hsv. intros Htn Hin.
    destruct (H1 t names s Htn Hin). split; [done|]. by apply Hkeys.
  - intros tid s t o. rewrite Hr. intros Hin. apply Hkeys. by eapply H2.
  - intros k'. rewrite Hs. intros Hn. apply lookup_insert_None in Hn as [Hn Hne].
    unfold handled_for. rewrite Hh, omap_app, Hother by done. rewrite app_nil_r. by apply H3.
  - intros k' x. rewrite Hs. destruct (decide (k' = k)) as [->|Hne].
    + rewrite lookup_insert_eq. by intros [= <-].
    + rewrite lookup_insert_ne by done. by apply (H4 k').
  - intros k'. specialize (H5 k').
    unfold created_for, consumed, handled_for, status_of, queue_of in *.
    rewrite Hc, Hh, Hs, Hr, H5, omap_app.
    destruct (decide (k' = k)) as [->|Hne].
    + rewrite lookup_insert_eq, Hk, Hsame. simpl. rewrite map_app, <- !app_assoc.
      f_equal. rewrite !app_assoc. f_equal. rewrite <- app_assoc. done.
    + rewrite lookup_insert_ne, Hother, app_nil_r by done. done.
Qed.

Lemma set_status_eq k (s : lstate) st (r : @sub_rec F V) :
  subs st !! k = Some r ->
  set_status k s st = set_subs (<[k := mkSub (items r) (func r) s]> (subs st)) st.
Proof. intros H. unfold set_status. by rewrite H. Qed.

Lemma set_items_eq k (its : list obj) st (r : @sub_rec F V) :
  subs st !! k = Some r ->
  set_items k its st = set_subs (<[k := mkSub its (func r) (status r)]> (subs st)) st.
Proof. intros H. unfold set_items. by rewrite H. Qed.

Lemma set_status_life k (s : lstate) st : life_inv st -> life_inv (set_status k s st).
Proof. intros H. unfold set_status. destruct (subs st !! k); [|done]. by apply (life_frame st). Qed.

Lemma set_items_life k (its : list obj) st : life_inv st -> life_inv (set_items k its st).
Proof. intros H. unfold set_items. destruct (subs st !! k); [|done]. by apply (life_frame st). Qed.

(** A running consumer may end as crashed. *)
Lemma crash_bus k st (r : @sub_rec F V) :
  subs st !! k = Some r -> status r = LReady ->
  bus_inv st -> bus_inv (set_status k LCrashed st).
Proof.
  intros Hk Hs Hi. rewrite (set_status_eq _ _ _ r) by done.
  eapply (bus_entry st _ k r (mkSub (items r) (func r) LCrashed) []);
    [exact Hk|simpl..]; try done.
  - by rewrite app_nil_r.
  - by rewrite Hs.
Qed.

(** The consumer loop, from a state in which the queue holds [its]. *)
Lemma listener_loop_inv (svc topic : string) (f : F) (its : list obj) st :
  subs st !! (svc, topic) = Some (mkSub its f LReady) ->
  bus_inv st -> life_inv st ->
  bus_inv (listener_loop svc topic f its st) /\ life_inv (listener_loop svc topic f its st).
Proof.
  revert st. induction its as [|o rest IH]; intros st Hk Hi Hl; simpl.
  - split; [|by apply set_status_life].
    rewrite (set_status_eq _ _ _ _ Hk).
    eapply (bus_entry st _ (svc, topic) _ (mkSub [] f LWaiting) []);
      [exact Hk|simpl..]; try done.
    by rewrite app_nil_r.
  - destruct o as [|v].
    + rewrite (set_items_eq _ _ _ _ Hk). simpl.
      erewrite set_status_eq by (simpl; apply lookup_insert_eq). simpl.
      split; [|by apply (life_frame st)].
      eapply (bus_entry st _ (svc, topic) _ (mkSub rest f LQuit) []);
        [exact Hk|simpl..]; try done.
      * by rewrite insert_insert_eq.
      * by rewrite app_nil_r.
    + rewrite (set_items_eq _ _ _ _ Hk). simpl.
      set (st1 := set_handled _ _).
      assert (Hk1 : subs st1 !! (svc, topic) = Some (mkSub rest f LReady))
        by (simpl; apply lookup_insert_eq).
      assert (Hi1 : bus_inv st1).
      { eapply (bus_entry st _ (svc, topic) _ (mkSub rest f LReady) [v]);
          [exact Hk|simpl..]; done. }
      assert (Hl1 : life_inv st1) by (by apply (life_frame st)).
      destruct (call f v st1) as [cs raises].
      destruct (exec_all_inv cs st1 Hi1 Hl1) as [Hi2 Hl2].
      pose proof (exec_all_subs cs st1 _ _ Hk1) as Hk2.
      destruct (exec_all cs st1) as [st2 [e|]]; simpl in *.
      * split; [by eapply crash_bus|by apply set_status_life].
      * destruct raises.
        -- split; [by eapply crash_bus|by apply set_status_life].
        -- by apply IH.
Qed.

Lemma listener_step_inv (svc topic : string) st :
  bus_inv st -> life_inv st ->
  bus_inv (listener_step svc topic st) /\ life_inv (listener_step svc topic st).
Proof.
  intros Hi Hl. unfold Bus.listener_step.
  destruct (subs st !! (svc, topic)) as [r|] eqn:Hk; [|done].
  destruct (status r) eqn:Hs; try done.
  apply listener_loop_inv; try done. rewrite Hk. f_equal. destruct r; simpl in *. by subst.
Qed.

(** *** The awaiters *)

Lemma awaiter_del_spec (idx : nat) st :
  life_inv st ->
  life_inv (awaiter_del idx st).1 /\
  (idx ∉ task_awaiters (awaiter_del idx st).1) /\
  awaiters (awaiter_del idx st).1 = awaiters st /\
  waiting (awaiter_del idx st).1 = waiting st /\
  ready (awaiter_del idx st).1 = ready st.
Proof.
  intros [H1 H2 H3]. unfold awaiter_del. case_bool_decide as Hin; simpl; [|done].
  split; [|split; [|done]].
  - split; simpl; [| |done].
    + intros i a Ha Hd Hi. apply list_elem_of_filter in Hi as [_ Hi]. by eapply H1.
    + intros i Hi. apply list_elem_of_filter in Hi as [_ Hi]. by apply H2.
  - intros Hi. apply list_elem_of_filter in Hi as [Hne _]. done.
Qed.

Lemma awaiter_set_life (idx : nat) st :
  life_inv st -> idx ∉ task_awaiters st -> life_inv (awaiter_set idx st).
Proof.
  intros [H1 H2 H3] Hnin. unfold awaiter_set.
  destruct (awaiters st !! idx) as [a|] eqn:Ha; [|done].
  destruct (a_done a); [done|].
  assert (life_inv (set_awaiters (<[idx := mkAwaiter (a_tasks a) (a_counter a) true]> (awaiters st)) st))
    as Hl.
  { split; simpl; [| |done].
    - intros i a' Ha' Hd. destruct (decide (i = idx)) as [->|Hne]; [done|].
      rewrite lookup_insert_ne in Ha' by done. by eapply H1.
    - intros i Hi. destruct (decide (i = idx)) as [->|Hne]; [done|].
      rewrite lookup_insert_ne by done. by apply H2. }
  simpl. destruct (waiting st); try done.
  case_bool_decide; [|done]. eapply life_frame; [| | |exact Hl]; done.
Qed.

Lemma awaiter_finish_life (idx : nat) st : life_inv st -> life_inv (awaiter_finish idx st).
Proof.
  intros Hl. unfold awaiter_finish.
  destruct (awaiter_del_spec idx st Hl) as (Hl1 & Hnin & _).
  destruct (awaiter_del idx st) as [st1 [e|]]; simpl in *; [done|].
  by apply awaiter_set_life.
Qed.

Lemma awaiter_set_ready (idx : nat) st :
  exists extra, ready (awaiter_set idx st) = ready st ++ extra /\
                Forall (fun cb : @callback V => is_on_pub cb = false) extra.
Proof.
  unfold awaiter_set. destruct (awaiters st !! idx) as [a|].
  2: { exists []. by rewrite app_nil_r. }
  destruct (a_done a). { exists []. by rewrite app_nil_r. }
  simpl. destruct (waiting st); try (exists []; by rewrite app_nil_r).
  case_bool_decide; [|exists []; by rewrite app_nil_r].
  exists [WaitStep]. split; [done|by repeat constructor].
Qed.

Lemma awaiter_finish_bus (idx : nat) st : bus_inv st -> bus_inv (awaiter_finish idx st).
Proof.
  intros Hi. unfold awaiter_finish, awaiter_del. case_bool_decide; simpl; [|done].
  set (st1 := set_task_awaiters _ st).
  destruct (awaiter_set_ready idx st1) as (extra & Hr & Hx).
  eapply (bus_frame st _ extra); try done; try exact Hr;
    unfold awaiter_set; destruct (awaiters st1 !! idx) as [a|]; try done;
    destruct (a_done a); try done; simpl; destruct (waiting st); try done;
    case_bool_decide; done.
Qed.

Lemma add_done_callback_bus (idx : nat) st (tid : nat) :
  bus_inv st -> bus_inv (add_done_callback idx st tid).
Proof.
  intros Hi. unfold add_done_callback. destruct (tasks st !! tid) as [t|]; [|done].
  destruct (t_done t).
  - eapply (bus_frame st _ [OnCompletion idx]); try done. by repeat constructor.
  - by eapply (bus_frame st _ []); rewrite ?app_nil_r.
Qed.

Lemma add_done_callback_life (idx : nat) st (tid : nat) :
  life_inv st -> life_inv (add_done_callback idx st tid).
Proof.
  intros Hl. unfold add_done_callback. destruct (tasks st !! tid) as [t|]; [|done].
  destruct (t_done t); by apply (life_frame st).
Qed.

Lemma foldl_add_done_callback (idx : nat) (tids : list nat) st :
  bus_inv st -> life_inv st ->
  bus_inv (foldl (add_done_callback idx) st tids) /\
  life_inv (foldl (add_done_callback idx) st tids).
Proof.
  revert st. induction tids as [|tid tids IH]; intros st Hi Hl; simpl; [done|].
  apply IH; [by apply add_done_callback_bus|by apply add_done_callback_life].
Qed.

(** Writing the count of an awaiter leaves its [_done] as it is. *)
Lemma set_counter_life (idx : nat) (a : awaiter) (c : nat) (d : bool) st :
  awaiters st !! idx = Some a -> (d = true -> a_done a = true) ->
  life_inv st ->
  life_inv (set_awaiters (<[idx := mkAwaiter (a_tasks a) c d]> (awaiters st)) st).
Proof.
  intros Ha Hd [H1 H2 H3]. split; simpl; [| |done].
  - intros i a' Ha' Hd'. destruct (decide (i = idx)) as [->|Hne].
    + rewrite lookup_insert_eq in Ha'. injection Ha' as <-. simpl in Hd'.
      eapply H1; [exact Ha|]. by apply Hd.
    + rewrite lookup_insert_ne in Ha' by done. by eapply H1.
  - intros i Hi. destruct (decide (i = idx)) as [->|Hne].
    + by rewrite lookup_insert_eq.
    + rewrite lookup_insert_ne by done. by apply H2.
Qed.

Lemma awaiter_start_inv (idx : nat) st :
  bus_inv st -> life_inv st ->
  bus_inv (awaiter_start idx st) /\ life_inv (awaiter_start idx st).
Proof.
  intros Hi Hl. unfold awaiter_start.
  destruct (awaiters st !! idx) as [a|] eqn:Ha; [|done].
  destruct (a_tasks a) as [|tid tids] eqn:Et.
  - split; [by apply awaiter_finish_bus|by apply awaiter_finish_life].
  - apply foldl_add_done_callback.
    + by eapply (bus_frame st _ []); rewrite ?app_nil_r.
    + rewrite <- Et. by apply set_counter_life.
Qed.

Lemma on_completion_inv (idx : nat) st :
  bus_inv st -> life_inv st ->
  bus_inv (on_completion idx st) /\ life_inv (on_completion idx st).
Proof.
  intros Hi Hl. unfold on_completion.
  destruct (awaiters st !! idx) as [a|] eqn:Ha; [|done].
  pose proof (set_counter_life idx a (Nat.pred (a_counter a)) (a_done a) st Ha (fun H => H) Hl) as Hl1.
  simpl. case_bool_decide.
  - split.
    + eapply (bus_frame st _ [AwaiterWake idx]); try done. by repeat constructor.
    + eapply life_frame; [| | |exact Hl1]; done.
  - split; [|done]. by eapply (bus_frame st _ []); rewrite ?app_nil_r.
Qed.

(** The loop of [wait] on the dict as it is: it returns when the dict is
    empty, and suspends on the first awaiter when it is not. *)
Lemma wait_drain_spec st :
  life_inv st ->
  life_inv (wait_drain st) /\
  (waiting (wait_drain st) = WReturned <-> task_awaiters st = []) /\
  (forall idx rest, task_awaiters st = idx :: rest -> waiting (wait_drain st) = WOn idx).
Proof.
  intros [H1 H2 H3]. unfold wait_drain.
  destruct (task_awaiters st) as [|idx rest] eqn:Et.
  { split; [split; simpl; rewrite ?Et; done|]. split; [done|]. intros; done. }
  destruct (H2 idx) as [a Ha]; [by left|]. rewrite Ha.
  destruct (a_done a) eqn:Hd.
  { exfalso. apply (H1 idx a Ha Hd). by left. }
  split; [|split].
  - split; simpl; [by rewrite Et| by rewrite Et|done].
  - simpl. split; intros; done.
  - intros i r [= <- <-]. done.
Qed.

Lemma wait_drain_bus st : bus_inv st -> bus_inv (wait_drain st).
Proof.
  intros Hi. unfold wait_drain. destruct (task_awaiters st) as [|idx rest].
  - by eapply (bus_frame st _ []); rewrite ?app_nil_r.
  - destruct (awaiters st !! idx) as [a|]; [|done].
    destruct (a_done a); by eapply (bus_frame st _ []); rewrite ?app_nil_r.
Qed.

Lemma wait_step_inv st :
  bus_inv st -> life_inv st -> bus_inv (wait_step st) /\ life_inv (wait_step st).
Proof.
  intros Hi Hl. unfold wait_step.
  destruct (waiting st); try done; (split; [by apply wait_drain_bus|by apply wait_drain_spec]).
Qed.

Lemma start_wait_inv st :
  bus_inv st -> life_inv st -> bus_inv (start_wait st) /\ life_inv (start_wait st).
Proof.
  intros Hi Hl. unfold start_wait. destruct (waiting st) eqn:Hw; try done.
  destruct (quit st).
  - split; [by apply wait_drain_bus|by apply wait_drain_spec].
  - split; [by eapply (bus_frame st _ []); rewrite ?app_nil_r|].
    destruct Hl as [H1 H2 H3]. by split.
Qed.

Lemma quit_set_inv st :
  bus_inv st -> life_inv st -> bus_inv (quit_set st) /\ life_inv (quit_set st).
Proof.
  intros Hi Hl. unfold quit_set. destruct (quit st); [done|]. simpl.
  destruct (waiting st) eqn:Hw;
    (split; [|by apply (life_frame st)]);
    try (by eapply (bus_frame st _ []); rewrite ?app_nil_r).
  eapply (bus_frame st _ [WaitStep]); try done. by repeat constructor.
Qed.

Lemma finish_external_inv (tid : nat) st :
  bus_inv st -> life_inv st ->
  bus_inv (finish_external tid st) /\ life_inv (finish_external tid st).
Proof.
  intros Hi Hl. unfold finish_external. destruct (tasks st !! tid) as [t|]; [|done].
  destruct (t_ext t && negb (t_done t)); [|done].
  split; [by apply finish_task_bus|by apply finish_task_life].
Qed.

(** *** The loop *)

Lemma pop_bus cb (rest : list (@callback V)) st :
  bus_inv st -> ready st = cb :: rest -> is_on_pub cb = false ->
  bus_inv (set_ready rest st).
Proof.
  intros [H1 H2 H3 H4 H5] Hr Hcb. split; simpl; try done.
  - intros tid s t o Hin. apply (H2 tid s t o). rewrite Hr. by right.
  - intros k. specialize (H5 k).
    unfold created_for, consumed, handled_for, status_of, queue_of in *. simpl.
    rewrite H5, Hr. by rewrite inflight_other.
Qed.

Lemma run_once_inv st :
  bus_inv st -> life_inv st -> bus_inv (run_once st) /\ life_inv (run_once st).
Proof.
  intros Hi Hl. unfold Bus.run_once.
  destruct (waiting st) eqn:Hw; try done;
    (destruct (ready st) as [|cb rest] eqn:Hr; [done|]);
    assert (Hl' : life_inv (set_ready rest st)) by (by apply (life_frame st));
    (destruct cb as [tid svc topic o|svc topic|i|i|i|]; simpl;
     [ split; [apply finish_task_bus; by eapply on_pub_bus
              |apply finish_task_life; by apply on_pub_life]
     | apply listener_step_inv; [by eapply pop_bus|done]
     | apply awaiter_start_inv; [by eapply pop_bus|done]
     | apply on_completion_inv; [by eapply pop_bus|done]
     | split; [apply awaiter_finish_bus; by eapply pop_bus|by apply awaiter_finish_life]
     | apply wait_step_inv; [by eapply pop_bus|done] ]).
Qed.

Lemma run_inv (n : nat) st :
  bus_inv st -> life_inv st -> bus_inv (run n st) /\ life_inv (run n st).
Proof.
  intros Hi Hl. induction n as [|n [IH1 IH2]]; simpl; [done|]. by apply run_once_inv.
Qed.

Lemma init_eq : @init F V = set_topics (<["log" := ∅]> ∅) empty_state.
Proof. reflexivity. Qed.

Lemma init_inv : bus_inv (@init F V) /\ life_inv (@init F V).
Proof.
  rewrite init_eq. split.
  - split; simpl; try done.
    + intros t names s Ht. apply lookup_insert_Some in Ht as [[_ <-]|[_ Ht]]; [|done].
      intros Hs. by apply not_elem_of_empty in Hs.
    + intros tid s t o Hin. by apply elem_of_nil in Hin.
  - split; simpl; try done.
    + intros idx Hin. by apply elem_of_nil in Hin.
Qed.

(** Every state the program reaches satisfies the invariants. *)
Lemma reachable_inv st : reachable st -> bus_inv st /\ life_inv st.
Proof.
  induction 1 as [|st _ [Hi Hl]|st c _ [Hi Hl]|st tid _ [Hi Hl]|st _ [Hi Hl]|st _ [Hi Hl]].
  - apply init_inv.
  - by apply run_once_inv.
  - split; [by apply exec_bus|by apply exec_life].
  - by apply finish_external_inv.
  - by apply start_wait_inv.
  - by apply quit_set_inv.
Qed.

(** *** What the steps add *)

Lemma grows_refl st : grows st st.
Proof. exists [], [], []. by rewrite !app_nil_r. Qed.

Lemma grows_keys st st' k : grows st st' -> is_Some (subs st !! k) -> is_Some (subs st' !! k).
Proof. intros (x & y & h & _ & _ & _ & _ & H). apply H. Qed.

Lemma grows_trans st1 st2 st3 : grows st1 st2 -> grows st2 st3 -> grows st1 st3.
Proof.
  intros (x1 & y1 & h1 & H1 & H2 & H3 & H4 & K1) (x2 & y2 & h2 & H5 & H6 & H7 & H8 & K2).
  exists (x1 ++ x2), (y1 ++ y2), (h1 ++ h2).
  rewrite H5, H6, H7, H1, H2, H3, <- !app_assoc. do 3 (split; [done|]).
  split; [|by auto].
  intros k. by rewrite inflight_app, omap_app, H4, H8.
Qed.

Ltac grows_eq := first [reflexivity | symmetry; apply app_nil_r].

Ltac grows_keys :=
  intros ? ?; simpl;
  first [assumption | rewrite lookup_insert_is_Some'; by right].

Ltac grows_tac :=
  unfold grows; simpl; eexists _, _, _;
  split; [grows_eq|split; [grows_eq|split; [grows_eq|
    split; [intros ?; simpl; reflexivity|grows_keys]]]].

Lemma create_topic_grows (topic : string) st : grows st (create_topic topic st).1.
Proof. unfold create_topic. destruct (topics st !! topic); grows_tac. Qed.

Lemma register_grows (svc : string) st : grows st (register svc st).1.
Proof. unfold register, create_topic. simpl. destruct (topics st !! svc); grows_tac. Qed.

Lemma run_tasks_grows (tids : list nat) st : grows st (run_tasks tids st).
Proof. grows_tac. Qed.

Lemma spawn_grows (topic : string) o (names : list string) (tids : list nat) st :
  grows st (spawn topic o names tids st).1.1.
Proof.
  revert tids st. induction names as [|s names IH]; intros tids st; simpl.
  { apply grows_refl. }
  case_bool_decide; [|apply grows_refl].
  eapply grows_trans; [|apply IH]. grows_tac.
Qed.

Lemma pub_grows (topic : string) o st : grows st (pub topic o st).1.
Proof.
  unfold pub. destruct (topics st !! topic) as [names|]; [|apply grows_refl].
  pose proof (spawn_grows topic o (elements names) [] st) as H.
  destruct (spawn _ _ _ _ _) as [[st1 tids] [e|]]; simpl in *; [done|].
  eapply grows_trans; [exact H|apply run_tasks_grows].
Qed.

Lemma close_topic_grows (topic : string) st : grows st (close_topic topic st).1.
Proof.
  unfold close_topic. pose proof (pub_grows topic QUIT st) as H.
  destruct (pub topic QUIT st) as [st1 [e|]]; simpl in *; [done|].
  eapply grows_trans; [exact H|grows_tac].
Qed.

Lemma sub_grows (svc topic : string) (f : F) st : grows st (sub svc topic f st).1.
Proof.
  unfold sub. destruct (subs st !! (svc, topic)); [apply grows_refl|].
  case_bool_decide; [|apply grows_refl]. case_bool_decide; [|grows_tac].
  simpl. destruct (topics st !! topic); grows_tac.
Qed.

Lemma exec_grows (c : cmd) st : grows st (exec c st).1.
Proof.
  destruct c; simpl; auto using create_topic_grows, register_grows, sub_grows,
    pub_grows, close_topic_grows. grows_tac.
Qed.

Lemma exec_all_grows (cs : list cmd) st : grows st (exec_all cs st).1.
Proof.
  revert st. induction cs as [|c cs IH]; intros st; simpl; [apply grows_refl|].
  pose proof (exec_grows c st) as H.
  destruct (exec c st) as [st1 [e|]]; simpl in *; [done|].
  eapply grows_trans; [exact H|apply IH].
Qed.

Lemma exec_handled (c : cmd) st : handled (exec c st).1 = handled st.
Proof.
  destruct c as [t|s|s t f|t o|t|]; simpl.
  - unfold create_topic. by destruct (topics st !! t).
  - unfold register, create_topic. simpl. by destruct (topics st !! s).
  - unfold sub. destruct (subs st !! (s, t)); [done|].
    case_bool_decide; [|done]. case_bool_decide; [|done].
    simpl. by destruct (topics st !! t).
  - unfold pub. destruct (topics st !! t) as [names|] eqn:Ht; [|done].
    assert (forall names tids st, handled (spawn t o names tids st).1.1 = handled st) as H.
    { clear. induction names as [|s names IH]; intros tids st; simpl; [done|].
      case_bool_decide; [|done]. by rewrite IH. }
    specialize (H (elements names) [] st).
    destruct (spawn _ _ _ _ _) as [[st1 tids] [e|]]; simpl in *; done.
  - unfold close_topic, pub. destruct (topics st !! t) as [names|] eqn:Ht; [|done].
    assert (forall names tids st, handled (spawn t QUIT names tids st).1.1 = handled st) as H.
    { clear. induction names as [|s names IH]; intros tids st; simpl; [done|].
      case_bool_decide; [|done]. by rewrite IH. }
    specialize (H (elements names) [] st).
    destruct (spawn _ _ _ _ _) as [[st1 tids] [e|]]; simpl in *; done.
  - done.
Qed.

Lemma exec_all_handled (cs : list cmd) st : handled (exec_all cs st).1 = handled st.
Proof.
  revert st. induction cs as [|c cs IH]; intros st; simpl; [done|].
  pose proof (exec_handled c st) as H.
  destruct (exec c st) as [st1 [e|]]; simpl in *; [done|]. by rewrite IH.
Qed.

Lemma set_status_grows k (s : lstate) st : grows st (set_status k s st).
Proof. unfold set_status. destruct (subs st !! k); grows_tac. Qed.

Lemma set_items_grows k (its : list obj) st : grows st (set_items k its st).
Proof. unfold set_items. destruct (subs st !! k); grows_tac. Qed.

Lemma listener_loop_grows (svc topic : string) (f : F) (its : list obj) st :
  grows st (listener_loop svc topic f its st).
Proof.
  revert st. induction its as [|o rest IH]; intros st; simpl.
  { apply set_status_grows. }
  destruct o as [|v].
  { eapply grows_trans; [apply set_items_grows|apply set_status_grows]. }
  set (st1 := set_handled _ _).
  assert (grows st st1) as H1.
  { subst st1. unfold set_items. destruct (subs st !! (svc, topic)); grows_tac. }
  destruct (call f v st1) as [cs raises].
  pose proof (exec_all_grows cs st1) as H2.
  destruct (exec_all cs st1) as [st2 [e|]]; simpl in *.
  - eapply grows_trans; [exact H1|]. eapply grows_trans; [exact H2|apply set_status_grows].
  - destruct raises.
    + eapply grows_trans; [exact H1|]. eapply grows_trans; [exact H2|apply set_status_grows].
    + eapply grows_trans; [exact H1|]. eapply grows_trans; [exact H2|apply IH].
Qed.

Lemma awaiter_finish_grows (idx : nat) st : grows st (awaiter_finish idx st).
Proof.
  unfold awaiter_finish, awaiter_del. case_bool_decide; simpl; [|apply grows_refl].
  unfold awaiter_set. simpl. destruct (awaiters st !! idx) as [a|]; [|grows_tac].
  destruct (a_done a); [grows_tac|]. simpl.
  destruct (waiting st); try grows_tac. case_bool_decide; grows_tac.
Qed.

Lemma foldl_add_done_callback_grows (idx : nat) (tids : list nat) st :
  grows st (foldl (add_done_callback idx) st tids).
Proof.
  revert st. induction tids as [|tid tids IH]; intros st; simpl; [apply grows_refl|].
  eapply grows_trans; [|apply IH].
  unfold add_done_callback. destruct (tasks st !! tid) as [t|]; [|apply grows_refl].
  destruct (t_done t); grows_tac.
Qed.

Lemma run_cb_grows cb st : grows st (run_cb cb st).
Proof.
  destruct cb as [tid svc topic o|svc topic|i|i|i|]; simpl.
  - eapply (grows_trans _ (on_pub svc topic o st).1).
    + unfold on_pub. destruct (subs st !! (svc, topic)) as [r|]; [|apply grows_refl].
      destruct (status r); grows_tac.
    + unfold finish_task. destruct (tasks _ !! tid) as [t|]; [|apply grows_refl].
      exists (map OnCompletion (t_cbs t)), [], []. simpl. rewrite !app_nil_r.
      do 3 (split; [done|]). split; [|done].
      intros k. apply inflight_others, Forall_forall.
      intros cb Hcb. apply list_elem_of_fmap in Hcb as (i & -> & _). done.
  - unfold Bus.listener_step. destruct (subs st !! (svc, topic)) as [r|]; [|apply grows_refl].
    destruct (status r); try apply grows_refl. apply listener_loop_grows.
  - unfold awaiter_start. destruct (awaiters st !! i) as [a|]; [|apply grows_refl].
    destruct (a_tasks a) as [|tid tids]; [apply awaiter_finish_grows|].
    eapply grows_trans; [|apply foldl_add_done_callback_grows]. grows_tac.
  - unfold on_completion. destruct (awaiters st !! i) as [a|]; [|apply grows_refl].
    simpl. case_bool_decide; grows_tac.
  - apply awaiter_finish_grows.
  - unfold wait_step, wait_drain. destruct (waiting st); try apply grows_refl;
      (destruct (task_awaiters st) as [|j rest]; [grows_tac|]);
      (destruct (awaiters st !! j) as [a|]; [|apply grows_refl]);
      destruct (a_done a); grows_tac.
Qed.

(** One turn of the loop takes the first callback off the FIFO and adds at
    its end. *)
Lemma run_once_ready cb (rest : list (@callback V)) st :
  waiting st ≠ WSpin -> ready st = cb :: rest ->
  run_once st = run_cb cb (set_ready rest st) /\
  exists x, ready (run_once st) = rest ++ x.
Proof.
  intros Hw Hr. unfold Bus.run_once. rewrite Hr.
  destruct (run_cb_grows cb (set_ready rest st)) as (x & y & h & Hx & _).
  split; [by destruct (waiting st)|]. exists x. by destruct (waiting st).
Qed.




(** *** Subscribing and publishing *)



(** [sub] by a registered service on a topic that exists and that it is not
    subscribed to. *)
Lemma sub_spec (svc topic : string) (f : F) st (names : gset string) :
  svc ∈ managed st -> svc ∈ services st ->
  topics st !! topic = Some names -> subs st !! (svc, topic) = None ->
  exists st1,
    sub svc topic f st = (st1, None) /\
    topics st1 = <[topic := names ∪ {[svc]}]> (topics st) /\
    subs st1 = <[(svc, topic) := mkSub [] f LReady]> (subs st) /\
    ready st1 = ready st ++ [ListenerStep svc topic] /\
    services st1 = services st /\ managed st1 = managed st /\
    created st1 = created st /\ handled st1 = handled st.
Proof.
  intros Hm Hs Ht Hn. unfold sub. rewrite Hn.
  rewrite bool_decide_eq_true_2 by done. simpl.
  rewrite bool_decide_eq_true_2 by done. rewrite Ht.
  eexists. split; [done|]. simpl. done.
Qed.


(** *** Closing a topic *)

Lemma on_pub_queue (svc topic : string) o st (r : @sub_rec F V) :
  subs st !! (svc, topic) = Some r ->
  queue_of (svc, topic) (on_pub svc topic o st).1 = items r ++ [o].
Proof.
  intros H. unfold on_pub, queue_of. rewrite H.
  destruct (status r); simpl; by rewrite lookup_insert_eq.
Qed.

(** The consumer that takes [QUIT] off its queue leaves its loop, its
    handler not called. *)
Lemma listener_quit (svc topic : string) (f : F) (rest : list obj) st (r : @sub_rec F V) :
  subs st !! (svc, topic) = Some r ->
  listener_loop svc topic f (QUIT :: rest) st
  = set_status (svc, topic) LQuit (set_items (svc, topic) rest st) /\
  status_of (svc, topic) (listener_loop svc topic f (QUIT :: rest) st) = Some LQuit /\
  queue_of (svc, topic) (listener_loop svc topic f (QUIT :: rest) st) = rest /\
  handled (listener_loop svc topic f (QUIT :: rest) st) = handled st.
Proof.
  intros H. simpl. split; [done|].
  rewrite (set_items_eq _ _ _ _ H).
  erewrite set_status_eq by (simpl; apply lookup_insert_eq).
  unfold status_of, queue_of. simpl. by rewrite lookup_insert_eq.
Qed.

(** A consumer that left its loop stays out of it. *)
Lemma listener_loop_other k (svc topic : string) (f : F) (its : list obj) st
    (r : @sub_rec F V) :
  k ≠ (svc, topic) -> subs st !! k = Some r ->
  subs (listener_loop svc topic f its st) !! k = Some r /\
  handled_for k (listener_loop svc topic f its st) = handled_for k st.
Proof.
  intros Hne. revert st.
  assert (Hst : forall s st, subs st !! k = Some r ->
            subs (set_status (svc, topic) s st) !! k = Some r /\
            handled_for k (set_status (svc, topic) s st) = handled_for k st).
  { intros s st Hk. unfold set_status, handled_for.
    destruct (subs st !! (svc, topic)); simpl; [|done]. by rewrite lookup_insert_ne. }
  assert (Hit : forall x st, subs st !! k = Some r ->
            subs (set_items (svc, topic) x st) !! k = Some r /\
            handled (set_items (svc, topic) x st) = handled st).
  { intros x st Hk. unfold set_items.
    destruct (subs st !! (svc, topic)); simpl; [|done]. by rewrite lookup_insert_ne. }
  induction its as [|o rest IH]; intros st Hk; simpl; [by apply Hst|].
  destruct o as [|v].
  { destruct (Hit rest st Hk) as [H1 H2]. destruct (Hst LQuit _ H1) as [H3 H4].
    split; [done|]. rewrite H4. unfold handled_for. by rewrite H2. }
  set (st1 := set_handled _ _).
  destruct (Hit rest st Hk) as [H1 H2].
  assert (Hk1 : subs st1 !! k = Some r) by done.
  assert (Hh1 : handled_for k st1 = handled_for k st).
  { unfold handled_for. simpl. rewrite omap_app. simpl.
    rewrite bool_decide_eq_false_2 by done. by rewrite app_nil_r. }
  destruct (call f v st1) as [cs raises].
  pose proof (exec_all_subs cs st1 _ _ Hk1) as Hk2.
  pose proof (exec_all_handled cs st1) as Hh2.
  destruct (exec_all cs st1) as [st2 [e|]]; simpl in *.
  - destruct (Hst LCrashed _ Hk2) as [H3 H4]. split; [done|].
    rewrite H4. unfold handled_for in *. by rewrite Hh2.
  - destruct raises.
    + destruct (Hst LCrashed _ Hk2) as [H3 H4]. split; [done|].
      rewrite H4. unfold handled_for in *. by rewrite Hh2.
    + destruct (IH _ Hk2) as [H3 H4]. split; [done|].
      rewrite H4. unfold handled_for in *. by rewrite Hh2.
Qed.

(** The awaiters' callbacks and [wait] touch no queue and call no handler. *)
Lemma awaiter_finish_same (idx : nat) st :
  subs (awaiter_finish idx st) = subs st /\ handled (awaiter_finish idx st) = handled st.
Proof.
  unfold awaiter_finish, awaiter_del. case_bool_decide; simpl; [|done].
  unfold awaiter_set. simpl. destruct (awaiters st !! idx) as [a|]; [|done].
  destruct (a_done a); [done|]. simpl.
  destruct (waiting st); try done. by case_bool_decide.
Qed.

Lemma foldl_add_done_callback_same (idx : nat) (tids : list nat) st :
  subs (foldl (add_done_callback idx) st tids) = subs st /\
  handled (foldl (add_done_callback idx) st tids) = handled st.
Proof.
  revert st. induction tids as [|tid tids IH]; intros st; simpl; [done|].
  destruct (IH (add_done_callback idx st tid)) as [-> ->].
  unfold add_done_callback. destruct (tasks st !! tid) as [t|]; [|done].
  by destruct (t_done t).
Qed.

Lemma finish_task_same (tid : nat) st :
  subs (finish_task tid st) = subs st /\ handled (finish_task tid st) = handled st.
Proof. unfold finish_task. by destruct (tasks st !! tid). Qed.

Lemma run_cb_same cb st :
  match cb with OnPub _ _ _ _ | ListenerStep _ _ => False | _ => True end ->
  subs (run_cb cb st) = subs st /\ handled (run_cb cb st) = handled st.
Proof.
  destruct cb as [tid svc topic o|svc topic|i|i|i|]; simpl; try done; intros _.
  - unfold awaiter_start. destruct (awaiters st !! i) as [a|]; [|done].
    destruct (a_tasks a) as [|tid tids]; [apply awaiter_finish_same|].
    by destruct (foldl_add_done_callback_same i (tid :: tids)
                   (set_awaiters (<[i := mkAwaiter (tid :: tids) (length (tid :: tids)) false]>
                                    (awaiters st)) st)) as [-> ->].
  - unfold on_completion. destruct (awaiters st !! i) as [a|]; [|done].
    simpl. by case_bool_decide.
  - apply awaiter_finish_same.
  - unfold wait_step, wait_drain. destruct (waiting st); try done;
      (destruct (task_awaiters st) as [|j rest]; [done|]);
      (destruct (awaiters st !! j) as [a|]; [|done]); by destruct (a_done a).
Qed.

(** A consumer that left its loop on [QUIT] stays out of it: no turn of the
    loop calls its handler again. *)
Lemma quit_stays k st :
  status_of k st = Some LQuit ->
  status_of k (run_once st) = Some LQuit /\
  handled_for k (run_once st) = handled_for k st.
Proof.
  unfold status_of. intros Hq.
  destruct (subs st !! k) as [r|] eqn:Hk; [|done]. simpl in Hq. injection Hq as Hq.
  assert (Hsame : forall st', subs st' = subs st -> handled st' = handled st ->
            status <$> subs st' !! k = Some LQuit /\ handled_for k st' = handled_for k st).
  { intros st' Hs Hh. unfold handled_for. rewrite Hs, Hh, Hk. simpl. by rewrite Hq. }
  unfold Bus.run_once.
  destruct (waiting st); try (by apply Hsame);
    (destruct (ready st) as [|cb rest]; [by apply Hsame|]);
    (destruct cb as [tid svc topic o|svc topic|i|i|i|];
     try (by apply Hsame; apply (run_cb_same _ (set_ready rest st)))).
  all: simpl.
  all: try (destruct (finish_task_same tid (on_pub svc topic o (set_ready rest st)).1)
              as [Hs Hh];
            unfold handled_for; rewrite Hs, Hh; unfold on_pub; simpl;
            destruct (decide (k = (svc, topic))) as [->|Hne];
            [ rewrite Hk, Hq; simpl; rewrite lookup_insert_eq; done
            | destruct (subs st !! (svc, topic)) as [r'|]; simpl;
              [ destruct (status r'); simpl; rewrite lookup_insert_ne by done;
                rewrite Hk; simpl; by rewrite Hq
              | rewrite Hk; simpl; by rewrite Hq ] ]).
  all: unfold Bus.listener_step; simpl;
       destruct (decide (k = (svc, topic))) as [->|Hne];
       [ rewrite Hk, Hq; simpl; rewrite Hk; simpl; by rewrite Hq
       | destruct (subs st !! (svc, topic)) as [r'|] eqn:Hk'; simpl;
         [ destruct (status r'); simpl; try (rewrite Hk; simpl; by rewrite Hq);
           destruct (listener_loop_other k svc topic (func r') (items r')
                       (set_ready rest st) r Hne Hk) as [H1 H2];
           rewrite H1, H2; simpl; by rewrite Hq
         | rewrite Hk; simpl; by rewrite Hq ] ].
Qed.

(** *** The loop runs every callback *)

Lemma run_S (n : nat) st : run (S n) st = run n (run_once st).
Proof. unfold Bus.run. by rewrite Nat.iter_succ_r. Qed.

Lemma run_add (n m : nat) st : run (n + m) st = run m (run n st).
Proof.
  revert st. induction n as [|n IH]; intros st; [done|].
  change (S n + m)%nat with (S (n + m)). by rewrite !run_S, IH.
Qed.

Lemma run_once_step cb (rest : list (@callback V)) st :
  life_inv st -> ready st = cb :: rest ->
  run_once st = run_cb cb (set_ready rest st).
Proof. intros Hl Hr. by apply run_once_ready; [apply Hl|]. Qed.

Lemma run_once_grows cb (rest : list (@callback V)) st :
  life_inv st -> ready st = cb :: rest ->
  grows (set_ready rest st) (run_once st).
Proof. intros Hl Hr. rewrite (run_once_step cb rest) by done. apply run_cb_grows. Qed.

Lemma run_keys (n : nat) st k :
  life_inv st -> bus_inv st -> is_Some (subs st !! k) -> is_Some (subs (run n st) !! k).
Proof.
  revert st. induction n as [|n IH]; intros st Hl Hi Hk; [done|].
  rewrite run_S. destruct (run_once_inv st Hi Hl) as [Hi1 Hl1].
  apply IH; try done.
  destruct (ready st) as [|cb rest] eqn:Hr.
  - unfold Bus.run_once. rewrite Hr. by destruct (waiting st).
  - by apply (grows_keys (set_ready rest st) _ k (run_once_grows cb rest st Hl Hr)).
Qed.

(** After as many turns as the FIFO holds callbacks, the FIFO holds what the
    turns added, and the tasks made in the meantime are the [on_pub] tasks
    it holds. *)
Lemma flush (n : nat) st :
  bus_inv st -> life_inv st -> (n <= length (ready st))%nat ->
  exists x y,
    ready (run n st) = drop n (ready st) ++ x /\
    created (run n st) = created st ++ y /\
    forall k, inflight k x
              = omap (fun e => if bool_decide (k = e.1) then Some e.2 else None) y.
Proof.
  intros Hi Hl. induction n as [|n IH]; intros Hn.
  { exists [], []. simpl. by rewrite !app_nil_r. }
  destruct IH as (x & y & Hx & Hy & Hxy); [lia|].
  destruct (run_inv n st Hi Hl) as [Hin Hln].
  destruct (drop n (ready st)) as [|cb rest] eqn:Hd.
  { apply (f_equal length) in Hd. rewrite length_drop in Hd. simpl in Hd. lia. }
  assert (drop (S n) (ready st) = rest) as Hd'.
  { rewrite <- (Nat.add_1_l n), Nat.add_comm, <- drop_drop, Hd. done. }
  destruct (run_once_grows cb (rest ++ x) (run n st) Hln Hx)
    as (x' & y' & h' & Hx' & Hy' & _ & Hxy' & _). simpl in *.
  exists (x ++ x'), (y ++ y'). change (run (S n) st) with (run_once (run n st)).
  rewrite Hx', Hy', Hy, Hd', <- !app_assoc. do 2 (split; [done|]).
  intros k. by rewrite inflight_app, omap_app, Hxy, Hxy'.
Qed.

(** Once every callback the FIFO held has run, what was made for a queue is
    what its consumer took and what the queue holds. *)
Lemma flushed k st :
  bus_inv st -> life_inv st ->
  created_for k st
  = consumed k (run (length (ready st)) st) ++ queue_of k (run (length (ready st)) st).
Proof.
  intros Hi Hl. destruct (flush (length (ready st)) st Hi Hl) as (x & y & Hx & Hy & Hxy); [done|].
  destruct (run_inv (length (ready st)) st Hi Hl) as [Hi' _].
  pose proof (bi_stream _ Hi' k) as Hs.
  rewrite drop_all in Hx. simpl in Hx. rewrite Hx, Hxy in Hs.
  unfold created_for in Hs at 1. rewrite Hy, omap_app in Hs. fold (created_for k st) in Hs.
  rewrite app_assoc in Hs. by apply app_inv_tail in Hs.
Qed.

(** *** The consumers that are due are in the FIFO *)

Lemma ready_inv_frame skip st st' (x : list (@callback V)) :
  subs st' = subs st -> ready st' = ready st ++ x ->
  ready_inv skip st -> ready_inv skip st'.
Proof.
  intros Hs Hr H k r Hk Hsub Hst. rewrite Hs in Hsub. rewrite Hr.
  apply elem_of_app. left. by apply (H k r).
Qed.

Lemma ready_inv_weaken skip st : ready_inv None st -> ready_inv skip st.
Proof. intros H k r _. by apply H. Qed.

Lemma sub_ready_inv skip (svc topic : string) (f : F) st :
  ready_inv skip st -> ready_inv skip (sub svc topic f st).1.
Proof.
  intros H. unfold sub. destruct (subs st !! (svc, topic)) eqn:Hn; [done|].
  case_bool_decide; [|done].
  assert (ready_inv skip
            (set_ready (ready st ++ [ListenerStep svc topic])
               (set_subs (<[(svc, topic) := mkSub [] f LReady]> (subs st)) st))) as H1.
  { intros k r Hk Hsub Hst. simpl in *. apply elem_of_app.
    destruct (decide (k = (svc, topic))) as [->|Hne].
    - right. by apply list_elem_of_singleton.
    - left. rewrite lookup_insert_ne in Hsub by done. by apply (H k r). }
  case_bool_decide; [|done]. simpl.
  destruct (topics st !! topic); [|done].
  by eapply (ready_inv_frame _ _ _ []); [..|exact H1]; rewrite ?app_nil_r.
Qed.

Lemma exec_ready_inv skip (c : cmd) st : ready_inv skip st -> ready_inv skip (exec c st).1.
Proof.
  intros H. destruct c as [t|s|s t f|t o|t|].
  - simpl. unfold create_topic. destruct (topics st !! t); [done|].
    by eapply (ready_inv_frame _ _ _ []); [..|exact H]; rewrite ?app_nil_r.
  - simpl. unfold register, create_topic. simpl. destruct (topics st !! s); simpl;
      by eapply (ready_inv_frame _ _ _ []); [..|exact H]; rewrite ?app_nil_r.
  - by apply sub_ready_inv.
  - simpl. destruct (pub_grows t o st) as (x & _ & _ & Hx & _).
    eapply ready_inv_frame; [apply pub_subs|exact Hx|exact H].
  - simpl. destruct (close_topic_grows t st) as (x & _ & _ & Hx & _).
    eapply ready_inv_frame; [|exact Hx|exact H].
    unfold close_topic. pose proof (pub_subs t QUIT st) as Hs.
    by destruct (pub t QUIT st) as [st1 [e|]].
  - simpl. destruct (run_tasks_grows [next_tid st]
                       (set_next_tid (S (next_tid st))
                          (set_tasks (<[next_tid st := mkTask true false []]> (tasks st)) st)))
      as (x & _ & _ & Hx & _).
    eapply ready_inv_frame; [|exact Hx|exact H]. done.
Qed.

Lemma exec_all_ready_inv skip (cs : list cmd) st :
  ready_inv skip st -> ready_inv skip (exec_all cs st).1.
Proof.
  revert st. induction cs as [|c cs IH]; intros st H; simpl; [done|].
  pose proof (exec_ready_inv skip c st H) as H1.
  destruct (exec c st) as [st1 [e|]]; simpl in *; [done|]. by apply IH.
Qed.

Lemma on_pub_ready_inv (svc topic : string) o st :
  ready_inv None st -> ready_inv None (on_pub svc topic o st).1.
Proof.
  intros H. unfold on_pub. destruct (subs st !! (svc, topic)) as [r0|] eqn:Hk0; [|done].
  destruct (status r0) eqn:Hs0; simpl;
    intros k r Hk Hsub Hst; simpl in *;
    (destruct (decide (k = (svc, topic))) as [->|Hne];
     [ rewrite lookup_insert_eq in Hsub; injection Hsub as <-; simpl in *;
       try discriminate;
       first [ by apply (H (svc, topic) r0)
             | apply elem_of_app; right; by apply list_elem_of_singleton ]
     | rewrite lookup_insert_ne in Hsub by done;
       first [ by apply (H k r) | apply elem_of_app; left; by apply (H k r) ] ]).
Qed.

(** A consumer that ends its step is no longer due. *)
Lemma set_status_ready_inv k (s : lstate) st :
  s ≠ LReady -> ready_inv (Some k) st -> ready_inv None (set_status k s st).
Proof.
  intros Hs H. unfold set_status. destruct (subs st !! k) as [r0|] eqn:Hk0.
  - intros k' r _ Hsub Hst. simpl in *.
    destruct (decide (k' = k)) as [->|Hne].
    + rewrite lookup_insert_eq in Hsub. injection Hsub as <-. done.
    + rewrite lookup_insert_ne in Hsub by done. apply (H k' r); [congruence|done..].
  - intros k' r _ Hsub Hst. apply (H k' r); [congruence|done..].
Qed.

Lemma set_items_ready_inv skip k (its : list obj) st :
  ready_inv skip st -> ready_inv skip (set_items k its st).
Proof.
  intros H. unfold set_items. destruct (subs st !! k) as [r0|] eqn:Hk0; [|done].
  intros k' r Hk Hsub Hst. simpl in *.
  destruct (decide (k' = k)) as [->|Hne].
  - rewrite lookup_insert_eq in Hsub. injection Hsub as <-. simpl in *.
    by apply (H k r0).
  - rewrite lookup_insert_ne in Hsub by done. by apply (H k' r).
Qed.

Lemma listener_loop_ready_inv (svc topic : string) (f : F) (its : list obj) st :
  ready_inv (Some (svc, topic)) st ->
  ready_inv None (listener_loop svc topic f its st).
Proof.
  revert st. induction its as [|o rest IH]; intros st H; simpl.
  { by apply set_status_ready_inv. }
  destruct o as [|v].
  { apply set_status_ready_inv; [done|]. by apply set_items_ready_inv. }
  set (st1 := set_handled _ _).
  assert (ready_inv (Some (svc, topic)) st1) as H1.
  { eapply (ready_inv_frame _ (set_items (svc, topic) rest st) _ []);
      [done|by rewrite app_nil_r|by apply set_items_ready_inv]. }
  destruct (call f v st1) as [cs raises].
  pose proof (exec_all_ready_inv _ cs st1 H1) as H2.
  destruct (exec_all cs st1) as [st2 [e|]]; simpl in *.
  - by apply set_status_ready_inv.
  - destruct raises; [by apply set_status_ready_inv|by apply IH].
Qed.

Lemma pop_ready_inv cb (rest : list (@callback V)) st :
  ready_inv None st -> ready st = cb :: rest ->
  ready_inv (resumes cb) (set_ready rest st).
Proof.
  intros H Hr k r Hk Hsub Hst. simpl in *.
  pose proof (H k r ltac:(done) Hsub Hst) as Hin. rewrite Hr in Hin.
  apply elem_of_cons in Hin as [Hin|Hin]; [|done].
  subst cb. simpl in Hk. by destruct k.
Qed.

Lemma run_cb_ready_inv cb st :
  ready_inv (resumes cb) st -> ready_inv None (run_cb cb st).
Proof.
  intros H. destruct cb as [tid svc topic o|svc topic|i|i|i|] eqn:Ecb; simpl in H.
  - simpl. destruct (finish_task_same tid (on_pub svc topic o st).1) as [Hs _].
    assert (exists x, ready (finish_task tid (on_pub svc topic o st).1)
                      = ready (on_pub svc topic o st).1 ++ x) as [x Hx].
    { unfold finish_task. destruct (tasks _ !! tid); simpl; [by eexists|].
      exists []. by rewrite app_nil_r. }
    eapply ready_inv_frame; [exact Hs|exact Hx|by apply on_pub_ready_inv].
  - simpl. unfold Bus.listener_step.
    destruct (subs st !! (svc, topic)) as [r0|] eqn:Hk0.
    + destruct (status r0) eqn:Hs0; try by apply listener_loop_ready_inv.
      all: intros k r _ Hsub Hst; apply (H k r); [|done..];
           intros [= ->]; congruence.
    + intros k r _ Hsub Hst. apply (H k r); [|done..]. intros [= ->]. congruence.
  - destruct (run_cb_grows (AwaiterStart i) st) as (x & _ & _ & Hx & _).
    eapply ready_inv_frame; [|exact Hx|exact H]. by apply run_cb_same.
  - destruct (run_cb_grows (OnCompletion i) st) as (x & _ & _ & Hx & _).
    eapply ready_inv_frame; [|exact Hx|exact H]. by apply run_cb_same.
  - destruct (run_cb_grows (AwaiterWake i) st) as (x & _ & _ & Hx & _).
    eapply ready_inv_frame; [|exact Hx|exact H]. by apply run_cb_same.
  - destruct (run_cb_grows WaitStep st) as (x & _ & _ & Hx & _).
    eapply ready_inv_frame; [|exact Hx|exact H]. by apply run_cb_same.
Qed.

Lemma run_once_ready_inv st : ready_inv None st -> ready_inv None (run_once st).
Proof.
  intros H. unfold Bus.run_once.
  destruct (waiting st); try done;
    (destruct (ready st) as [|cb rest] eqn:Hr; [done|]);
    apply run_cb_ready_inv; by apply pop_ready_inv.
Qed.

Lemma run_ready_inv (n : nat) st : ready_inv None st -> ready_inv None (run n st).
Proof. intros H. induction n as [|n IH]; [done|]. by apply run_once_ready_inv. Qed.

Lemma reachable_ready_inv st : reachable st -> ready_inv None st.
Proof.
  induction 1 as [|st _ IH|st c _ IH|st tid _ IH|st _ IH|st _ IH].
  - intros k r _ Hsub. rewrite init_eq in Hsub. simpl in Hsub. by rewrite lookup_empty in Hsub.
  - by apply run_once_ready_inv.
  - by apply exec_ready_inv.
  - unfold finish_external. destruct (tasks st !! tid) as [t|]; [|done].
    destruct (t_ext t && negb (t_done t)); [|done].
    destruct (finish_task_same tid st) as [Hs _].
    unfold finish_task in *. destruct (tasks st !! tid); [|done].
    by eapply ready_inv_frame; [exact Hs| |exact IH].
  - unfold start_wait, wait_drain. destruct (waiting st); try done.
    destruct (quit st).
    + destruct (task_awaiters st) as [|j rest];
        [by eapply (ready_inv_frame _ _ _ []); [..|exact IH]; rewrite ?app_nil_r|].
      destruct (awaiters st !! j) as [a|]; [|done].
      destruct (a_done a);
        by eapply (ready_inv_frame _ _ _ []); [..|exact IH]; rewrite ?app_nil_r.
    + by eapply (ready_inv_frame _ _ _ []); [..|exact IH]; rewrite ?app_nil_r.
  - unfold quit_set. destruct (quit st); [done|]. simpl.
    destruct (waiting st);
      try (by eapply (ready_inv_frame _ _ _ []); [..|exact IH]; rewrite ?app_nil_r).
    by eapply (ready_inv_frame _ _ _ [WaitStep]); [..|exact IH].
Qed.

(** *** A consumer that is due takes what its queue holds *)

(** The consumer loop on a queue that holds [its]: it ends on [QUIT], on a
    handler that raised, or suspended with all of [its] handled. *)
Lemma listener_drain (svc topic : string) (f : F) (its : list obj) st :
  subs st !! (svc, topic) = Some (mkSub its f LReady) ->
  let st' := listener_loop svc topic f its st in
  status_of (svc, topic) st' = Some LQuit \/
  status_of (svc, topic) st' = Some LCrashed \/
  map Ev (handled_for (svc, topic) st') = map Ev (handled_for (svc, topic) st) ++ its.
Proof.
  revert st. induction its as [|o rest IH]; intros st Hk; simpl.
  { right. right. rewrite (set_status_eq _ _ _ _ Hk). unfold handled_for. simpl.
    by rewrite app_nil_r. }
  destruct o as [|v].
  { left. by destruct (listener_quit svc topic f rest st _ Hk) as (_ & ? & _). }
  rewrite (set_items_eq _ _ _ _ Hk). simpl.
  set (st1 := set_handled _ _).
  assert (Hk1 : subs st1 !! (svc, topic) = Some (mkSub rest f LReady))
    by (simpl; apply lookup_insert_eq).
  assert (Hh1 : handled_for (svc, topic) st1 = handled_for (svc, topic) st ++ [v]).
  { unfold handled_for. simpl. rewrite omap_app. simpl.
    by rewrite bool_decide_eq_true_2. }
  destruct (call f v st1) as [cs raises].
  pose proof (exec_all_subs cs st1 _ _ Hk1) as Hk2.
  pose proof (exec_all_handled cs st1) as Hh2.
  assert (Hcrash : forall st2, subs st2 !! (svc, topic) = Some (mkSub rest f LReady) ->
            status_of (svc, topic) (set_status (svc, topic) LCrashed st2) = Some LCrashed).
  { intros st2 H2. rewrite (set_status_eq _ _ _ _ H2). unfold status_of. simpl.
    by rewrite lookup_insert_eq. }
  destruct (exec_all cs st1) as [st2 [e|]]; simpl in *.
  - right. left. by apply Hcrash.
  - destruct raises; [right; left; by apply Hcrash|].
    destruct (IH st2 Hk2) as [H|[H|H]]; [by left|right; by left|].
    right. right. rewrite H. unfold handled_for. rewrite Hh2, omap_app. simpl.
    rewrite bool_decide_eq_true_2 by done. by rewrite map_app, <- app_assoc.
Qed.

(** A turn of the loop that does not resume a consumer that is due leaves it
    due, its handler not called, its queue longer at most. *)
Lemma other_step k cb st (r : @sub_rec F V) :
  resumes cb ≠ Some k -> subs st !! k = Some r -> status r = LReady ->
  exists more,
    subs (run_cb cb st) !! k = Some (mkSub (items r ++ more) (func r) LReady) /\
    handled_for k (run_cb cb st) = handled_for k st.
Proof.
  intros Hcb Hk Hs.
  assert (Hsame : forall st', subs st' = subs st -> handled st' = handled st ->
            exists more, subs st' !! k = Some (mkSub (items r ++ more) (func r) LReady) /\
                         handled_for k st' = handled_for k st).
  { intros st' Hs' Hh'. exists []. unfold handled_for. rewrite Hs', Hh', Hk, app_nil_r.
    split; [|done]. f_equal. destruct r; simpl in *. by subst. }
  destruct cb as [tid svc topic o|svc topic|i|i|i|];
    try (by apply Hsame; apply run_cb_same).
  - simpl. destruct (finish_task_same tid (on_pub svc topic o st).1) as [Hs1 Hh1].
    unfold handled_for. rewrite Hs1, Hh1. unfold on_pub.
    destruct (decide (k = (svc, topic))) as [->|Hne].
    + rewrite Hk, Hs. simpl. rewrite lookup_insert_eq. by exists [o].
    + destruct (subs st !! (svc, topic)) as [r'|]; simpl.
      * exists []. rewrite app_nil_r.
        destruct (status r'); simpl; rewrite lookup_insert_ne by done;
          (split; [|done]); rewrite Hk; f_equal; destruct r; simpl in *; by subst.
      * by apply Hsame.
  - simpl in Hcb. assert (k ≠ (svc, topic)) as Hne by congruence.
    simpl. unfold Bus.listener_step.
    destruct (subs st !! (svc, topic)) as [r'|] eqn:Hk'; [|by apply Hsame].
    destruct (status r'); try by apply Hsame.
    destruct (listener_loop_other k svc topic (func r') (items r') st r Hne Hk) as [H1 H2].
    exists []. rewrite app_nil_r, H1, H2. split; [|done].
    f_equal. destruct r; simpl in *. by subst.
Qed.

(** The first callback of the FIFO that resumes the consumer [k]. *)
Lemma first_resume k (l : list (@callback V)) :
  ListenerStep k.1 k.2 ∈ l ->
  exists l1 l2,
    l = l1 ++ ListenerStep k.1 k.2 :: l2 /\
    Forall (fun cb => resumes cb ≠ Some k) l1.
Proof.
  induction l as [|cb l IH]; intros Hin; [by apply elem_of_nil in Hin|].
  destruct (decide (resumes cb = Some k)) as [E|E].
  - exists [], l. split; [|done]. destruct cb; simpl in E; try done.
    injection E as <-. done.
  - apply elem_of_cons in Hin as [Hcb|Hin]; [exfalso; apply E; rewrite <- Hcb; by destruct k|].
    destruct (IH Hin) as (l1 & l2 & -> & Hl1). exists (cb :: l1), l2.
    split; [done|]. by constructor.
Qed.

(** A consumer that is due runs after the callbacks before it in the FIFO,
    and then takes all its queue holds. *)
Lemma walk k (l1 l2 : list (@callback V)) st (r : @sub_rec F V) :
  bus_inv st -> life_inv st ->
  ready st = l1 ++ ListenerStep k.1 k.2 :: l2 ->
  Forall (fun cb => resumes cb ≠ Some k) l1 ->
  subs st !! k = Some r -> status r = LReady ->
  exists m,
    status_of k (run m st) = Some LQuit \/
    status_of k (run m st) = Some LCrashed \/
    exists more,
      map Ev (handled_for k (run m st)) = map Ev (handled_for k st) ++ items r ++ more.
Proof.
  revert l2 st r. induction l1 as [|cb l1 IH]; intros l2 st r Hi Hl Hr Hl1 Hk Hs.
  - exists 1%nat. change (run 1 st) with (run_once st).
    rewrite (run_once_step _ _ st Hl Hr). destruct k as [svc topic]. simpl.
    unfold Bus.listener_step. simpl. rewrite Hk, Hs.
    destruct (listener_drain svc topic (func r) (items r) (set_ready l2 st)) as [H|[H|H]].
    + simpl. rewrite Hk. f_equal. destruct r; simpl in *. by subst.
    + by left.
    + right. by left.
    + right. right. exists []. rewrite app_nil_r. exact H.
  - apply Forall_cons in Hl1 as [Hcb Hl1]. simpl in Hr.
    destruct (other_step k cb (set_ready (l1 ++ ListenerStep k.1 k.2 :: l2) st) r Hcb Hk Hs)
      as (more1 & Hk1 & Hh1).
    rewrite <- (run_once_step _ _ st Hl Hr) in Hk1, Hh1.
    destruct (run_once_grows _ _ st Hl Hr) as (x & _ & _ & Hx & _). simpl in Hx.
    destruct (run_once_inv st Hi Hl) as [Hi1 Hl1'].
    rewrite <- app_assoc in Hx. simpl in Hx.
    destruct (IH (l2 ++ x) (run_once st) _ Hi1 Hl1' Hx Hl1 Hk1 eq_refl)
      as (m & Hm).
    exists (S m). rewrite run_S.
    destruct Hm as [H|[H|(more & H)]]; [by left|right; by left|].
    right. right. exists (more1 ++ more). rewrite H. unfold handled_for in *.
    rewrite Hh1. simpl. by rewrite <- !app_assoc.
Qed.

(** Whatever the handlers do, the loop brings every consumer to the end of
    what was made for its queue, unless the consumer ended before. *)
Lemma eventually_consumed k st (r : @sub_rec F V) :
  bus_inv st -> life_inv st -> ready_inv None st -> subs st !! k = Some r ->
  exists n,
    status_of k (run n st) = Some LQuit \/
    status_of k (run n st) = Some LCrashed \/
    exists more, map Ev (handled_for k (run n st)) = created_for k st ++ more.
Proof.
  intros Hi Hl Hrd Hk.
  set (N := length (ready st)).
  pose proof (flushed k st Hi Hl) as Hf. fold N in Hf.
  destruct (run_inv N st Hi Hl) as [Hi' Hl'].
  pose proof (run_ready_inv N st Hrd) as Hrd'.
  destruct (run_keys N st k Hl Hi) as [r' Hk']; [by exists r|].
  unfold consumed, queue_of, status_of in Hf. rewrite Hk' in Hf. simpl in Hf.
  destruct (status r') eqn:Hs'.
  - destruct (first_resume k (ready (run N st))) as (l1 & l2 & Hr & Hl1).
    { by apply (Hrd' k r'). }
    destruct (walk k l1 l2 (run N st) r' Hi' Hl' Hr Hl1 Hk' Hs') as (m & Hm).
    exists (N + m)%nat. rewrite run_add.
    destruct Hm as [H|[H|(more & H)]]; [by left|right; by left|].
    right. right. exists more. rewrite H, Hf. by rewrite app_nil_r, app_assoc.
  - exists N. right. right. exists [].
    rewrite (bi_idle _ Hi' _ _ Hk' Hs') in Hf. by rewrite Hf, !app_nil_r.
  - exists N. left. unfold status_of. by rewrite Hk'; simpl; rewrite Hs'.
  - exists N. right. left. unfold status_of. by rewrite Hk'; simpl; rewrite Hs'.
Qed.

Lemma exec_all_reachable (cs : list cmd) st : reachable st -> reachable (exec_all cs st).1.
Proof.
  revert st. induction cs as [|c cs IH]; intros st Hr; simpl; [done|].
  pose proof (reach_cmd call st c Hr) as H.
  destruct (exec c st) as [st1 [e|]]; simpl in *; [done|]. by apply IH.
Qed.










(** C6. [close_topic] on a topic that exists raises nothing, makes one
    [on_pub] task carrying [QUIT] for each subscriber the topic has at the
    call and none for anybody else, and removes the topic. Such a task puts
    [QUIT] at the end of the subscriber's queue; the consumer that takes
    [QUIT] off its queue leaves its loop without a handler call, and no later
    turn of the loop calls its handler. After the close, and as long as no
    topic of that name exists, a publish on the name fails on the topic
    lookup, and so does the subscription of a registered service not yet
    subscribed; every subscription fails. And whatever the
    handlers of the program do, after enough turns of the loop the consumer
    of each of those subscribers has left its loop: on [QUIT], or before it
    on a handler that raised. *)
Theorem close_topic_quits st (topic : string) (names : gset string) :
  reachable st -> topics st !! topic = Some names ->
  exists st1,
    close_topic topic st = (st1, None) /\
    topics st1 !! topic = None /\
    (forall k, created_for k st1
               = created_for k st ++
                 if bool_decide (k.2 = topic /\ k.1 ∈ names) then [QUIT] else []) /\
    (forall st' svc r,
       subs st' !! (svc, topic) = Some r ->
       queue_of (svc, topic) (on_pub svc topic QUIT st').1 = items r ++ [QUIT]) /\
    (forall st' svc f rest r,
       subs st' !! (svc, topic) = Some r ->
       status_of (svc, topic) (listener_loop svc topic f (QUIT :: rest) st') = Some LQuit /\
       handled (listener_loop svc topic f (QUIT :: rest) st') = handled st') /\
    (forall st' svc n,
       status_of (svc, topic) st' = Some LQuit ->
       status_of (svc, topic) (run n st') = Some LQuit /\
       handled_for (svc, topic) (run n st') = handled_for (svc, topic) st') /\
    (forall svc,
       svc ∈ names ->
       exists n,
         status_of (svc, topic) (run n st1) = Some LQuit \/
         status_of (svc, topic) (run n st1) = Some LCrashed) /\
    (forall st' o,
       topics st' !! topic = None -> pub topic o st' = (st', Some UnknownTopic)) /\
    (forall st' svc f, topics st' !! topic = None -> (sub svc topic f st').2 ≠ None) /\
    (forall st' svc f,
       topics st' !! topic = None ->
       svc ∈ managed st' -> svc ∈ services st' -> subs st' !! (svc, topic) = None ->
       (sub svc topic f st').2 = Some UnknownTopic).
Proof.
  intros Hr Ht. destruct (reachable_inv st Hr) as [Hi Hl].
  destruct (pub_spec topic QUIT st names Hi Hl Ht)
    as (st0 & Hp & Hi0 & Hl0 & _ & _ & Ht0 & Hs0 & Hh0 & Hc0 & _).
  pose proof (reach_cmd call st (CloseTopic topic) Hr) as Hr1.
  simpl in Hr1. unfold close_topic in Hr1. rewrite Hp in Hr1. simpl in Hr1.
  unfold close_topic. rewrite Hp. eexists. split; [done|]. simpl.
  split; [apply lookup_delete_eq|].
  split; [exact Hc0|].
  split; [intros st' svc r; apply on_pub_queue|].
  split.
  { intros st' svc f rest r Hk.
    by destruct (listener_quit svc topic f rest st' r Hk) as (_ & ? & _ & ?). }
  split.
  { intros st' svc n Hq. induction n as [|n [IH1 IH2]]; simpl; [done|].
    destruct (quit_stays _ _ IH1) as [H1 H2]. split; [done|]. by rewrite H2. }
  split.
  { intros svc Hin. destruct (reachable_inv _ Hr1) as [Hi1 Hl1].
    destruct (bi_topics _ Hi topic names svc Ht Hin) as [_ [r Hk]].
    destruct (eventually_consumed (svc, topic) _ r Hi1 Hl1) as (n & Hev).
    { by apply reachable_ready_inv. }
    { simpl. by rewrite Hs0. }
    exists n. destruct Hev as [Hq|[Hcr|(more & Hmore)]]; [by left|by right|].
    exfalso. assert (QUIT ∈ map (@Ev V) (handled_for (svc, topic)
                       (run n (set_topics (delete topic (topics st0)) st0)))) as Hin'.
    { rewrite Hmore. unfold created_for. simpl. fold (created_for (svc, topic) st0).
      rewrite Hc0. simpl. rewrite bool_decide_eq_true_2 by done.
      apply elem_of_app. left. apply elem_of_app. right. by left. }
    apply list_elem_of_fmap in Hin' as (v & Hv & _). discriminate. }
  split.
  { intros st' o Hnone. unfold pub. by rewrite Hnone. }
  split.
  - intros st' svc f Hnone. unfold sub.
    destruct (subs st' !! (svc, topic)); [done|].
    case_bool_decide; [|done]. case_bool_decide; [|done].
    simpl. by rewrite Hnone.
  - intros st' svc f Hnone Hm Hs Hn. unfold sub. rewrite Hn.
    rewrite bool_decide_eq_true_2 by done. simpl.
    rewrite bool_decide_eq_true_2 by done. by rewrite Hnone.
Qed.

End Facts.

(** *** The bus run on two services *)

Lemma wired_reachable : reachable observer wired.
Proof. unfold wired. do 3 apply reach_cmd. apply reach_init. Qed.

Lemma wired_subscribed_reachable : reachable observer wired_subscribed.
Proof. unfold wired_subscribed. do 2 apply reach_cmd. apply wired_reachable. Qed.


(** T is closed with a and b subscribed to it. *)
Lemma close_topic_quits_witness :
  exists st1,
    close_topic "T" wired_subscribed = (st1, None) /\
    topics st1 !! "T" = None /\
    created_for ("a", "T") st1 = [QUIT] /\
    created_for ("b", "T") st1 = [QUIT] /\
    pub "T" (Ev 0%nat) st1 = (st1, Some UnknownTopic) /\
    (sub "a" "T" tt st1).2 ≠ None.
Proof.
  assert (topics wired_subscribed !! "T" = Some ({["a"]} ∪ {["b"]})) as Hn
    by (vm_compute; reflexivity).
  assert ("a" ∈ ({["a"]} ∪ {["b"]} : gset string)) as Ha by set_solver.
  assert ("b" ∈ ({["a"]} ∪ {["b"]} : gset string)) as Hb by set_solver.
  destruct (close_topic_quits observer wired_subscribed "T" _
              wired_subscribed_reachable Hn)
    as (st1 & H1 & H2 & H3 & _ & _ & _ & _ & H4 & H5 & _).
  exists st1. split; [exact H1|]. split; [exact H2|].
  split; [|split; [|split; [by apply H4|by apply H5]]].
  - rewrite H3. rewrite bool_decide_eq_true_2 by (split; [reflexivity|exact Ha]).
    vm_compute. reflexivity.
  - rewrite H3. rewrite bool_decide_eq_true_2 by (split; [reflexivity|exact Hb]).
    vm_compute. reflexivity.
Defined.


End BusFacts.

(** ** More on the worker registry *)

Module RegistryMore.
Import Registry RegistryInv RegistryFacts.

Lemma wf_nil : wf [].
Proof. intros pos c H. by rewrite lookup_nil in H. Qed.

(** What one handler call does to the records, on a well-formed registry:
    a record is appended or one record is rewritten in place, its [listidx]
    kept, and nothing raises. *)
Lemma handle_shape (cs : list Client) (e : event) :
  wf cs ->
  raised (handle cs e) = None /\
  ((exists c, clients (handle cs e) = cs ++ [c] /\ listidx c = Z.of_nat (length cs) /\
              status c = Recording /\ exists i p, e = Join i p /\ idx c = i /\ name c = p) \/
   (exists pos c c',
      cs !! pos = Some c /\ clients (handle cs e) = <[pos := c']> cs /\
      listidx c' = listidx c /\ name c' = name c /\
      (status c' = status c \/ status c' = Recording \/ status c' = Success
       \/ status c' = Error) /\
      (idx c' = idx c \/ idx c' = -1 \/ exists i p, e = Join i p /\ idx c' = i)) \/
   clients (handle cs e) = cs).
Proof.
  intros Hwf. destruct e as [i p|i p|i|i]; simpl.
  - unfold on_client_join. destruct (get_client cs (-1)) as [pos|] eqn:E.
    + apply get_client_Some in E as (c & Hc & _).
      rewrite (update_refresh_ok _ _ _ c) by done. simpl. split; [done|].
      right. left. eexists pos, c, _. split; [done|]. split; [done|]. simpl.
      do 2 (split; [done|]). split; [right; by left|]. right. right. by exists i, p.
    + cbn [listidx]. rewrite refresh_ok by (rewrite length_app; simpl; lia). simpl.
      split; [done|]. left. eexists. split; [done|]. simpl. do 2 (split; [done|]).
      by exists i, p.
  - unfold on_client_progress. destruct (get_client cs i) as [pos|] eqn:E; [|by auto].
    apply get_client_Some in E as (c & Hc & _).
    rewrite (update_refresh_ok _ _ _ c) by done. simpl. split; [done|].
    right. left. eexists pos, c, _. split; [done|]. split; [done|]. simpl. by auto 10.
  - unfold on_client_done. destruct (get_client cs i) as [pos|] eqn:E; [|by auto].
    apply get_client_Some in E as (c & Hc & _).
    rewrite (update_refresh_ok _ _ _ c) by done. simpl. split; [done|].
    right. left. eexists pos, c, _. split; [done|]. split; [done|]. simpl. by auto 10.
  - destruct (get_client cs i) as [pos|] eqn:E.
    + pose proof E as E'. apply get_client_Some in E' as (c & Hc & _).
      destruct (leave_at cs i pos c Hwf Hc E) as (es & ->). simpl. split; [done|].
      right. left. eexists pos, c, _. split; [done|]. split; [done|].
      destruct (bool_decide (status c ≠ 1)); simpl; by auto 10.
    + unfold on_client_leave. rewrite E. by auto.
Qed.

Lemma wf_handle (cs : list Client) (e : event) : wf cs -> wf (clients (handle cs e)).
Proof.
  intros Hwf. destruct (handle_shape cs e Hwf) as
    (_ & [(c & -> & Hl & _)|[(pos & c & c' & Hc & -> & Hl & _)| ->]]).
  - by apply wf_snoc.
  - by eapply wf_insert.
  - done.
Qed.

(** [on_rename]: the index is read as Python reads it, from the end when
    negative; out of range it raises and nothing changes. *)
Lemma rename_shape (cs : list Client) (i : Z) (newname : string) :
  let n := Z.of_nat (length cs) in
  (- n <= i < n ->
   exists pos c,
     pos = Z.to_nat (if bool_decide (0 <= i) then i else n + i) /\
     cs !! pos = Some c /\
     on_rename cs i newname
     = mkOut (<[pos := set_name newname c]> cs) [("client-refresh", VClient pos)] None) /\
  (~ (- n <= i < n) -> on_rename cs i newname = mkOut cs [] (Some IndexError)).
Proof.
  intros n. unfold on_rename, py_index. fold n. split.
  - intros Hi. destruct (decide (0 <= i)) as [Hp|Hp].
    + rewrite !bool_decide_eq_true_2 by lia.
      destruct (lookup_lt_is_Some_2 cs (Z.to_nat i)) as [c Hc]; [lia|].
      exists (Z.to_nat i), c. do 2 (split; [done|]). rewrite Hc.
      unfold _refresh, py_index. rewrite length_insert. fold n.
      by rewrite bool_decide_eq_true_2 by lia.
    + rewrite (bool_decide_eq_false_2 (0 <= i < n)) by lia.
      rewrite (bool_decide_eq_true_2 (- n <= i < 0)) by lia.
      rewrite (bool_decide_eq_false_2 (0 <= i)) by lia.
      destruct (lookup_lt_is_Some_2 cs (Z.to_nat (n + i))) as [c Hc]; [lia|].
      exists (Z.to_nat (n + i)), c. do 2 (split; [done|]). rewrite Hc.
      unfold _refresh, py_index. rewrite length_insert. fold n.
      rewrite (bool_decide_eq_false_2 (0 <= i < n)) by lia.
      by rewrite (bool_decide_eq_true_2 (- n <= i < 0)) by lia.
  - intros Hi. rewrite !bool_decide_eq_false_2 by lia. done.
Qed.

Lemma rename_cases (cs : list Client) (i : Z) (newname : string) :
  (exists pos c, cs !! pos = Some c /\
     on_rename cs i newname
     = mkOut (<[pos := set_name newname c]> cs) [("client-refresh", VClient pos)] None) \/
  on_rename cs i newname = mkOut cs [] (Some IndexError).
Proof.
  destruct (rename_shape cs i newname) as [H1 H2].
  destruct (decide (- Z.of_nat (length cs) <= i < Z.of_nat (length cs))) as [Hi|Hi].
  - left. destruct (H1 Hi) as (pos & c & _ & Hc & E). eauto.
  - right. auto.
Qed.

Lemma wf_step (cs : list Client) (x : input) : wf cs -> wf (clients (step cs x)).
Proof.
  intros Hwf. destruct x as [e|i n]; simpl; [by apply wf_handle|].
  destruct (rename_cases cs i n) as [(pos & c & Hc & ->)| ->]; simpl; [|done].
  by eapply wf_insert.
Qed.

Lemma status_step (cs : list Client) (x : input) :
  wf cs -> status_ok cs -> status_ok (clients (step cs x)).
Proof.
  unfold status_ok. intros Hwf Hs. destruct x as [e|i n]; simpl.
  - destruct (handle_shape cs e Hwf) as
      (_ & [(c & -> & _ & Hc & _)|[(pos & c & c' & Hc & -> & _ & _ & Hst & _)| ->]]).
    + apply Forall_app. split; [done|]. apply Forall_singleton. by left.
    + apply Forall_insert; [done|].
      rewrite Forall_lookup in Hs. specialize (Hs _ _ Hc). simpl in Hs.
      destruct Hst as [->|Hst]; [done|]. unfold Recording, Success, Error in *.
      tauto.
    + done.
  - destruct (rename_cases cs i n) as [(pos & c & Hc & ->)| ->]; simpl; [|done].
    apply Forall_insert; [done|]. rewrite Forall_lookup in Hs. exact (Hs _ _ Hc).
Qed.

Lemma steps_inv (cs : list Client) (xs : list input) :
  wf cs -> status_ok cs -> wf (steps cs xs).1 /\ status_ok (steps cs xs).1.
Proof.
  revert cs. induction xs as [|x xs IH]; intros cs Hwf Hs; simpl; [done|].
  destruct (IH (clients (step cs x))) as [H1 H2];
    [by apply wf_step|by apply status_step|].
  by destruct (steps (clients (step cs x)) xs).
Qed.

Lemma process_ok (cs : list Client) (evs : list event) :
  wf cs -> (process cs evs).2 = [] /\ wf (process cs evs).1.1.
Proof.
  revert cs. induction evs as [|e evs IH]; intros cs Hwf; simpl; [done|].
  destruct (handle_shape cs e Hwf) as [Hr _].
  destruct (IH _ (wf_handle cs e Hwf)) as [H1 H2].
  destruct (process (clients (handle cs e)) evs) as [[cs' es] xs]. simpl in *.
  by rewrite Hr, H1.
Qed.

(** X1. Starting from the empty registry, whatever join, progress, done and
    leave events arrive and in whatever order, no handler raises, and every
    record stays at the position its [listidx] names. *)
Theorem session_events_never_raise (evs : list event) :
  (process [] evs).2 = [] /\ wf (process [] evs).1.1.
Proof. apply process_ok, wf_nil. Qed.

(** What one input does to the records that are there. *)
Lemma step_rows (cs : list Client) (x : input) :
  wf cs ->
  (length cs <= length (clients (step cs x)))%nat /\
  forall pos c, cs !! pos = Some c ->
    exists c', clients (step cs x) !! pos = Some c' /\ listidx c' = listidx c /\
               (is_rename x = false -> name c' = name c).
Proof.
  intros Hwf.
  assert (Hins : forall pos0 c0 c0', cs !! pos0 = Some c0 -> listidx c0' = listidx c0 ->
            (is_rename x = false -> name c0' = name c0) ->
            (length cs <= length (<[pos0 := c0']> cs))%nat /\
            forall pos c, cs !! pos = Some c ->
              exists c', <[pos0 := c0']> cs !! pos = Some c' /\ listidx c' = listidx c /\
                         (is_rename x = false -> name c' = name c)).
  { intros pos0 c0 c0' H0 Hl Hn. split; [by rewrite length_insert|].
    intros pos c Hc. destruct (decide (pos = pos0)) as [->|Hne].
    - exists c0'. rewrite list_lookup_insert_eq by (by eapply lookup_lt_Some).
      assert (c = c0) as -> by congruence. done.
    - exists c. by rewrite list_lookup_insert_ne. }
  destruct x as [e|i n]; simpl.
  - destruct (handle_shape cs e Hwf) as
      (_ & [(c & -> & _)|[(pos0 & c0 & c0' & H0 & -> & Hl & Hn & _)| ->]]).
    + split; [rewrite length_app; lia|]. intros pos c0 H0. exists c0.
      by rewrite lookup_app_l by (by eapply lookup_lt_Some).
    + by apply (Hins pos0 c0 c0').
    + split; [done|]. intros pos c Hc. by exists c.
  - destruct (rename_cases cs i n) as [(pos0 & c0 & H0 & ->)| ->]; simpl.
    + by apply (Hins pos0 c0 (set_name n c0)).
    + split; [done|]. intros pos c Hc. by exists c.
Qed.

Lemma steps_rows (cs : list Client) (xs : list input) :
  wf cs ->
  (length cs <= length (steps cs xs).1)%nat /\
  forall pos c, cs !! pos = Some c ->
    exists c', (steps cs xs).1 !! pos = Some c' /\ listidx c' = listidx c /\
               (forallb (fun x => negb (is_rename x)) xs = true -> name c' = name c).
Proof.
  revert cs. induction xs as [|x xs IH]; intros cs Hwf; simpl.
  { split; [done|]. intros pos c Hc. by exists c. }
  destruct (step_rows cs x Hwf) as [Hlen Hrow].
  destruct (IH _ (wf_step cs x Hwf)) as [Hlen' Hrow'].
  destruct (steps (clients (step cs x)) xs) as [cs' es]. simpl in *.
  split; [lia|]. intros pos c Hc.
  destruct (Hrow pos c Hc) as (c1 & H1 & Hl1 & Hn1).
  destruct (Hrow' pos c1 H1) as (c2 & H2 & Hl2 & Hn2).
  exists c2. split; [done|]. split; [congruence|].
  intros [Hx Hxs]%andb_prop. apply negb_true_iff in Hx.
  rewrite Hn2, Hn1; done.
Qed.

(** X2. Records are never removed or moved: after any further inputs [ys],
    renames included, the registry is at least as long, every row that held a
    record still holds one with the same [listidx], and with the same name
    when [ys] has no rename in it. *)
Theorem rows_are_stable (xs ys : list input) :
  let cs := (steps [] xs).1 in
  let cs' := (steps cs ys).1 in
  (length cs <= length cs')%nat /\
  forall pos c, cs !! pos = Some c ->
    exists c', cs' !! pos = Some c' /\ listidx c' = listidx c /\
               listidx c' = Z.of_nat pos /\
               (forallb (fun x => negb (is_rename x)) ys = true -> name c' = name c).
Proof.
  intros cs cs'.
  assert (Hwf : wf cs) by (apply steps_inv; [apply wf_nil|constructor]).
  destruct (steps_rows cs ys Hwf) as [Hlen Hrow]. split; [done|].
  intros pos c Hc. destruct (Hrow pos c Hc) as (c' & H1 & H2 & H3).
  exists c'. do 2 (split; [done|]). split; [|done]. rewrite H2. by apply Hwf.
Qed.

(** X3. The status of a record is always one of the three values the screen
    has a text for, whatever inputs the registry has handled. *)
Theorem status_always_known (xs : list input) (pos : nat) (c : Client) :
  (steps [] xs).1 !! pos = Some c ->
  status c = Recording \/ status c = Success \/ status c = Error.
Proof.
  intros Hc.
  assert (Hs : status_ok (steps [] xs).1) by (apply steps_inv; [apply wf_nil|constructor]).
  unfold status_ok in Hs. rewrite Forall_lookup in Hs. exact (Hs _ _ Hc).
Qed.

(** Two joins, a progress report and a rename; the record at row 1. *)
Lemma status_always_known_witness :
  let c := mkClient 8 0 "spare" (PInt 0) 1 in
  status c = Recording \/ status c = Success \/ status c = Error.
Proof.
  apply (status_always_known
           [Ev (Join 7 "handler/7"); Ev (Join 8 "handler/8");
            Ev (Progress 7 (PStr "half")); Rename (-1) "spare"] 1%nat).
  vm_compute. reflexivity.
Defined.

Lemma unique_insert (cs : list Client) (pos : nat) (c c' : Client) :
  live_unique cs -> cs !! pos = Some c ->
  (idx c' = idx c \/ idx c' = -1 \/ Forall (fun d => idx d ≠ idx c') cs) ->
  live_unique (<[pos := c']> cs).
Proof.
  intros Hu Hc Hi p q a b Ha Hb Hab Hne.
  assert (Hold : forall r d, r ≠ pos -> <[pos := c']> cs !! r = Some d -> cs !! r = Some d).
  { intros r d Hr. by rewrite list_lookup_insert_ne. }
  assert (Hnew : forall r d, <[pos := c']> cs !! r = Some d -> r = pos -> d = c').
  { intros r d Hd ->. rewrite list_lookup_insert_eq in Hd by (by eapply lookup_lt_Some).
    congruence. }
  assert (Hcl : forall r d, r ≠ pos -> cs !! r = Some d -> idx d = idx c' ->
                            idx c' ≠ -1 -> False).
  { intros r d Hr Hd Hdc Hn. destruct Hi as [E|[E|E]].
    - apply Hr. eapply (Hu r pos d c); [done|done|congruence|congruence].
    - done.
    - rewrite Forall_lookup in E. by apply (E _ _ Hd). }
  destruct (decide (p = pos)) as [Hp|Hp], (decide (q = pos)) as [Hq|Hq].
  - congruence.
  - exfalso. pose proof (Hnew _ _ Ha Hp) as ->.
    apply (Hcl q b Hq); [by apply Hold|congruence|done].
  - exfalso. pose proof (Hnew _ _ Hb Hq) as ->.
    apply (Hcl p a Hp); [by apply Hold|congruence|congruence].
  - apply (Hu p q a b); [by apply Hold|by apply Hold|done|done].
Qed.

(** X4. When every session joins with an id no record carries, no two records
    ever carry the same session id: a join, progress, done, leave or rename
    keeps the ids of the records in use distinct. *)
Theorem live_ids_stay_unique (cs : list Client) (x : input) :
  wf cs -> live_unique cs ->
  (forall e, x = Ev e -> fresh_join cs e) ->
  live_unique (clients (step cs x)).
Proof.
  intros Hwf Hu Hf. destruct x as [e|i n]; simpl.
  - specialize (Hf e eq_refl).
    destruct (handle_shape cs e Hwf) as
      (_ & [(c & -> & _ & _ & j & p & -> & <- & _)|
            [(pos & c & c' & Hc & -> & _ & _ & _ & Hi)| ->]]); [| |done].
    + simpl in Hf. rewrite Forall_lookup in Hf.
      intros p1 q1 a b Ha Hb Hab Hne.
      apply lookup_snoc_Some in Ha as [[Hp Ha]|[Hp <-]],
            Hb as [[Hq Hb]|[Hq <-]].
      * by apply (Hu p1 q1 a b).
      * exfalso. by apply (Hf _ _ Ha).
      * exfalso. apply (Hf _ _ Hb). congruence.
      * congruence.
    + apply (unique_insert cs pos c c' Hu Hc).
      destruct Hi as [E|[E|(j & p & -> & E)]]; [by left|by right; left|].
      right. right. simpl in Hf. by rewrite E.
  - destruct (rename_cases cs i n) as [(pos & c & Hc & ->)| ->]; simpl; [|done].
    apply (unique_insert cs pos c _ Hu Hc). by left.
Qed.

(** Session 3 joins a registry that holds session 0 and a free record. *)
Lemma live_ids_stay_unique_witness :
  let cs := [mkClient 0 0 "handler/0" (PInt 0) 0; mkClient (-1) 1 "handler/1" (PInt 0) 1] in
  live_unique (clients (step cs (Ev (Join 3 "handler/3")))).
Proof.
  apply (live_ids_stay_unique
           [mkClient 0 0 "handler/0" (PInt 0) 0; mkClient (-1) 1 "handler/1" (PInt 0) 1]
           (Ev (Join 3 "handler/3"))).
  - intros [|[|pos]] c [= <-]; reflexivity.
  - intros [|[|p]] [|[|q]] c d [= <-] [= <-]; simpl; intros E1 E2;
      first [reflexivity | exfalso; lia].
  - intros e [= <-]. simpl. repeat constructor; simpl; lia.
Defined.

(** X5. Once a session has left, no record carries its id, so a progress, done
    or second leave event that arrives for it afterwards changes nothing and
    only logs a level-2 message. *)
Theorem late_events_only_warn (cs : list Client) (i : Z) (e : event) :
  wf cs -> live_unique cs -> i ≠ -1 ->
  (e = Done i \/ e = Leave i \/ exists p, e = Progress i p) ->
  let cs' := clients (handle cs (Leave i)) in
  Forall (fun c => idx c ≠ i) cs' /\
  exists txt, handle cs' e = mkOut cs' [("log", VLog 2 txt)] None.
Proof.
  intros Hwf Hu Hi He cs'.
  assert (Hgone : Forall (fun c => idx c ≠ i) cs').
  { subst cs'. simpl. destruct (get_client cs i) as [pos|] eqn:E.
    - pose proof E as E'. apply get_client_Some in E' as (c & Hc & Hci & _).
      destruct (leave_at cs i pos c Hwf Hc E) as (es & ->). simpl.
      apply Forall_lookup. intros q d Hd Hdi.
      destruct (decide (q = pos)) as [->|Hq].
      + rewrite list_lookup_insert_eq in Hd by (by eapply lookup_lt_Some).
        injection Hd as <-. destruct (bool_decide (status c ≠ 1)); simpl in Hdi; lia.
      + rewrite list_lookup_insert_ne in Hd by done.
        apply Hq. apply (Hu q pos d c); [done|done|congruence|congruence].
    - unfold on_client_leave. rewrite E. simpl. by apply get_client_None. }
  split; [done|]. apply get_client_None in Hgone.
  destruct He as [->|[->|[p ->]]]; simpl;
    unfold on_client_done, on_client_leave, on_client_progress; rewrite Hgone;
    eexists; reflexivity.
Qed.

(** Session 4 leaves and then reports progress. *)
Lemma late_events_only_warn_witness :
  let cs := [mkClient 4 0 "handler/4" (PInt 0) 0] in
  let cs' := clients (handle cs (Leave 4)) in
  Forall (fun c => idx c ≠ 4) cs' /\
  exists txt, handle cs' (Progress 4 (PFloat 0.5)) = mkOut cs' [("log", VLog 2 txt)] None.
Proof.
  apply (late_events_only_warn [mkClient 4 0 "handler/4" (PInt 0) 0] 4
           (Progress 4 (PFloat 0.5))).
  - intros [|pos] c [= <-]; reflexivity.
  - intros [|p] [|q] c d [= <-] [= <-] _ _. reflexivity.
  - lia.
  - right. right. by eexists.
Defined.

(** X6. [on_rename] reads its index as a Python list index: from [-len] to
    [len - 1], a negative one counting from the end. In range it renames that
    one record and publishes its refresh; out of range it raises IndexError,
    changes nothing and publishes nothing. *)
Theorem rename_index_bounds (cs : list Client) (i : Z) (newname : string) :
  let n := Z.of_nat (length cs) in
  let o := on_rename cs i newname in
  (raised o = None <-> - n <= i < n) /\
  (- n <= i < n ->
   let pos := Z.to_nat (if bool_decide (0 <= i) then i else n + i) in
   emits o = [("client-refresh", VClient pos)] /\
   length (clients o) = length cs /\
   (exists c, cs !! pos = Some c /\ clients o !! pos = Some (set_name newname c)) /\
   forall k, k ≠ pos -> clients o !! k = cs !! k) /\
  (~ (- n <= i < n) -> o = mkOut cs [] (Some IndexError)).
Proof.
  intros n o. destruct (rename_shape cs i newname) as [H1 H2]. fold n in H1, H2.
  assert (Hin : - n <= i < n ->
    let pos := Z.to_nat (if bool_decide (0 <= i) then i else n + i) in
    raised o = None /\
    emits o = [("client-refresh", VClient pos)] /\
    length (clients o) = length cs /\
    (exists c, cs !! pos = Some c /\ clients o !! pos = Some (set_name newname c)) /\
    forall k, k ≠ pos -> clients o !! k = cs !! k).
  { intros Hi pos. destruct (H1 Hi) as (pos' & c & Hp & Hc & E). fold pos in Hp. subst pos'.
    subst o. rewrite E. simpl. split; [done|]. split; [done|].
    split; [by rewrite length_insert|]. split.
    - exists c. split; [done|]. apply list_lookup_insert_eq. by eapply lookup_lt_Some.
    - intros k Hk. by rewrite list_lookup_insert_ne. }
  split; [|split].
  - split.
    + intros Hr. destruct (decide (- n <= i < n)) as [Hi|Hi]; [done|].
      subst o. rewrite (H2 Hi) in Hr. discriminate.
    + intros Hi. by destruct (Hin Hi).
  - intros Hi. by destruct (Hin Hi) as (_ & ?).
  - exact H2.
Qed.

End RegistryMore.

(** ** More on the session handler *)

Module HandlerMore.
Import Handler Sessions.

Lemma slash_free_go (x : N) (s : string) :
  slash_free s = true -> slash_free (pretty_N_go x s) = true.
Proof.
  revert s. induction (N.lt_wf_0 x) as [x _ IH]; intros s Hs.
  assert (x = 0 \/ 0 < x)%N as [->|Hx] by lia.
  - by rewrite pretty_N_go_0.
  - rewrite pretty_N_go_step by done. apply IH; [by apply N.div_lt|].
    simpl. rewrite Hs. unfold pretty_N_char. by repeat case_match.
Qed.

Lemma slash_free_N (x : N) : slash_free (pretty x) = true.
Proof.
  unfold pretty, pretty_N. case_decide; [done|]. by apply slash_free_go.
Qed.

Lemma slash_free_pretty (z : Z) : slash_free (pretty z) = true.
Proof.
  destruct z as [|q|q]; [done|apply slash_free_N|].
  change (pretty (Z.neg q)) with (String "-" (pretty (N.pos q))).
  simpl. apply slash_free_N.
Qed.

Lemma slash_split (a b x y : string) :
  slash_free a = true -> slash_free b = true ->
  a +:+ String "/" x = b +:+ String "/" y -> a = b /\ x = y.
Proof.
  revert b. induction a as [|c a IH]; intros [|d b] Ha Hb E; simpl in *.
  - by injection E.
  - injection E as <- E. simpl in Hb. discriminate.
  - injection E as -> E. simpl in Ha. discriminate.
  - injection E as -> E. apply andb_prop in Ha as [_ Ha], Hb as [_ Hb].
    destruct (IH b Ha Hb E) as [-> ->]. done.
Qed.

Lemma topic_of_inj (i j : Z) (s t : string) :
  topic_of i s = topic_of j t -> i = j /\ s = t.
Proof.
  unfold topic_of, prefix_of. intros E.
  change ("handler/" +:+ (pretty i +:+ String "/" s)
          = "handler/" +:+ (pretty j +:+ String "/" t)) in E.
  apply (inj (String.app "handler/")) in E.
  apply slash_split in E as [E ->]; [|apply slash_free_pretty..].
  split; [|done]. by apply (inj pretty).
Qed.

Lemma accept_spec (n : nat) (c : Z) :
  accept n c = (c + Z.of_nat n, map (fun k => (new_client (c + Z.of_nat k)).2) (seq 0 n)).
Proof.
  revert c. induction n as [|n IH]; intros c.
  - simpl. f_equal. lia.
  - cbn [accept]. change (new_client c) with (c + 1, (new_client c).2).
    cbn iota. rewrite IH. f_equal; [lia|].
    cbn [seq map]. f_equal; [by rewrite Z.add_0_r|].
    rewrite <- seq_shift, map_map. apply map_ext. intros k. do 2 f_equal. lia.
Qed.

Lemma created_new_client (c : Z) :
  created (new_client c).2
  = map (topic_of c) ["progress"; "alert"; "recv"; "send"; "keepalive"].
Proof. reflexivity. Qed.

(** X7. The session ids given to [n] connections accepted in turn are the
    counter's values [c], [c+1], ..., one each, and no topic is created
    twice: the topic names of one session are distinct and those of two
    sessions never coincide. *)
Theorem session_topics_never_collide (n : nat) (c : Z) :
  (accept n c).1 = c + Z.of_nat n /\
  joined (concat (accept n c).2) = map (fun k => c + Z.of_nat k) (seq 0 n) /\
  NoDup (created (concat (accept n c).2)).
Proof.
  rewrite accept_spec. cbn [fst snd]. split; [done|]. split.
  - induction (seq 0 n) as [|k l IH]; [done|]. cbn [map concat].
    unfold joined in *. rewrite omap_app, IH. done.
  - assert (Hc : forall l, created (concat (map (fun k => (new_client (c + Z.of_nat k)).2) l))
               = flat_map (fun k => map (topic_of (c + Z.of_nat k))
                                      ["progress"; "alert"; "recv"; "send"; "keepalive"]) l).
    { induction l as [|k l IH]; [done|]. cbn [map concat flat_map].
      unfold created in *. rewrite omap_app, IH. done. }
    rewrite Hc.
    assert (Hnd : NoDup (seq 0 n)) by apply NoDup_seq.
    induction (seq 0 n) as [|k l IH]; [constructor|].
    apply NoDup_cons in Hnd as [Hk Hl]. cbn [flat_map].
    apply NoDup_app. split; [|split; [|by apply IH]].
    + apply (NoDup_fmap_2_strong (topic_of (c + Z.of_nat k))).
      * intros x y _ _ E. by apply topic_of_inj in E as [_ ?].
      * repeat (apply NoDup_cons; split;
          [rewrite ?not_elem_of_cons; repeat split; try discriminate; apply not_elem_of_nil|]).
        constructor.
    + intros t Ht Ht'. apply list_elem_of_fmap in Ht as (x & -> & _).
      apply list_elem_of_In, in_flat_map in Ht' as (k' & Hk' & Hin).
      apply list_elem_of_In, list_elem_of_fmap in Hin as (y & E & _).
      apply topic_of_inj in E as [E _].
      assert (k = k') as -> by lia. apply Hk. by apply list_elem_of_In.
Qed.

Lemma reader_lines (idx : Z) (ls : list string) (rs : list read) :
  _reader idx (map Line ls ++ rs)
  = map (fun b => (topic_of idx "recv", VBytes b)) ls ++ _reader idx rs.
Proof. induction ls as [|b ls IH]; [done|]. simpl. by rewrite IH. Qed.

(** X8. [_reader] publishes the lines it reads on the session's recv topic,
    in the order read; at the end of the stream it publishes one client-leave
    after them and stops, whatever the stream would give next; at any other
    exception it stops with no client-leave. *)
Theorem reader_lines_then_leave (idx : Z) (ls : list string) (rs : list read) :
  let recvs := map (fun b => (topic_of idx "recv", VBytes b)) ls in
  _reader idx (map Line ls) = recvs /\
  _reader idx (map Line ls ++ IncompleteReadError :: rs)
    = recvs ++ [("client-leave", VIdx idx)] /\
  _reader idx (map Line ls ++ OtherError :: rs) = recvs.
Proof.
  intros recvs. split; [|split].
  - rewrite <- (app_nil_r (map Line ls)), reader_lines. apply app_nil_r.
  - by rewrite reader_lines.
  - rewrite reader_lines. apply app_nil_r.
Qed.

Section Builtins.

Variable py_int : string -> option Z.
Variable py_float : string -> option float.

Local Abbreviation client_update_args := (client_update_args py_int py_float).
Local Abbreviation client_update := (client_update py_int py_float).
Local Abbreviation recv_listener := (recv_listener py_int py_float).
Local Abbreviation progress_of := (progress_of py_int py_float).

Lemma args_raise_nothing_out (idx : Z) (args : list string) :
  raised (client_update_args idx args) ≠ None -> emits (client_update_args idx args) = [].
Proof.
  unfold Handler.client_update_args. destruct args as [|cmd rest]; [done|].
  repeat case_bool_decide; try done.
  - by destruct (progress_of _).
  - by destruct (_ !! _).
Qed.

Lemma update_raise_nothing_out (idx : Z) (line : string) :
  raised (client_update idx line) ≠ None -> emits (client_update idx line) = [].
Proof.
  unfold Handler.client_update. destruct (Py.decode line); [|done].
  apply args_raise_nothing_out.
Qed.

Lemma recv_listener_app (idx : Z) (ls rest : list string) :
  Forall (fun l => raised (client_update idx l) = None) ls ->
  recv_listener idx (ls ++ rest)
  = concat (map (fun l => emits (client_update idx l)) ls) ++ recv_listener idx rest.
Proof.
  induction 1 as [|l ls Hl _ IH]; [done|].
  cbn [app Handler.recv_listener map concat]. rewrite Hl, IH. by rewrite app_assoc.
Qed.

(** X9. A line on which [client_update] raises publishes nothing, and it ends
    the consumer of the session's recv topic: whatever lines follow it, the
    session publishes what the lines before it published and nothing more. *)
Theorem bad_line_silences_session (idx : Z) (ls : list string) (bad : string)
    (rest : list string) :
  Forall (fun l => raised (client_update idx l) = None) ls ->
  raised (client_update idx bad) ≠ None ->
  emits (client_update idx bad) = [] /\
  recv_listener idx (ls ++ bad :: rest)
  = concat (map (fun l => emits (client_update idx l)) ls) /\
  recv_listener idx (ls ++ bad :: rest) = recv_listener idx ls.
Proof.
  intros Hls Hbad. pose proof (update_raise_nothing_out idx bad Hbad) as Hout.
  split; [done|].
  assert (Hb : recv_listener idx (bad :: rest) = []).
  { cbn [Handler.recv_listener]. rewrite Hout.
    by destruct (raised (client_update idx bad)). }
  split.
  - rewrite recv_listener_app by done. rewrite Hb. apply app_nil_r.
  - rewrite recv_listener_app by done. rewrite Hb.
    rewrite <- (app_nil_r ls) at 2. by rewrite recv_listener_app.
Qed.

(** X10. [client_update] on the tokens of a line returns normally in these
    cases and no other: there is a first token, and when it is [progress]
    there is a second one and, with three tokens in all, both numbers are
    read by [int] and their quotient exists (the divisor is not zero and the
    result is in the range of a float); when it is [alert] there is a second
    token. *)
Theorem update_returns_exactly_when (idx : Z) (args : list string) :
  raised (client_update_args idx args) = None <->
  exists cmd rest, args = cmd :: rest /\
    (cmd = "progress" ->
       rest ≠ [] /\
       forall a b, rest = [a; b] ->
         exists x y q, py_int a = Some x /\ py_int b = Some y /\ y ≠ 0 /\
                       Py.int_truediv x y = inr q) /\
    (cmd = "alert" -> rest ≠ []).
Proof.
  unfold Handler.client_update_args. destruct args as [|cmd rest].
  { split; [done|]. by intros (? & ? & ? & _). }
  split.
  - intros Hr. exists cmd, rest. split; [done|]. split.
    + intros ->. rewrite bool_decide_eq_true_2 in Hr by done.
      unfold Handler.progress_of in Hr. split.
      * intros ->. simpl in Hr. discriminate.
      * intros a b ->. simpl in Hr.
        destruct (py_int a) as [x|]; [|discriminate].
        destruct (py_int b) as [y|]; [|discriminate].
        destruct (Py.int_truediv x y) as [e|q] eqn:E; [discriminate|].
        exists x, y, q. do 2 (split; [done|]). split; [|done].
        intros ->. by destruct x.
    + intros ->. rewrite bool_decide_eq_false_2 in Hr by done.
      rewrite bool_decide_eq_true_2 in Hr by done.
      intros ->. simpl in Hr. discriminate.
  - intros (cmd' & rest' & [= <- <-] & Hp & Ha).
    case_bool_decide as E1.
    + destruct (Hp E1) as [Hne Hab]. unfold Handler.progress_of.
      destruct rest as [|a [|b [|c rest]]]; [done| | |].
      * simpl. by destruct (py_float a).
      * destruct (Hab a b eq_refl) as (x & y & q & Hx & Hy & _ & E).
        simpl. by rewrite Hx, Hy, E.
      * rewrite bool_decide_eq_false_2 by (simpl; lia). simpl.
        by destruct (py_float a).
    + case_bool_decide as E2.
      * destruct rest as [|a rest]; [by destruct (Ha E2)|done].
      * by repeat case_bool_decide.
Qed.

End Builtins.

(** The lines [progress 50], an empty line and [done]. *)
Lemma bad_line_silences_session_witness :
  let l := "progress 50" +:+ Py.newline in
  let rest := ["done" +:+ Py.newline] in
  emits (client_update Py.dec_int Py.dec_float 2 Py.newline) = [] /\
  recv_listener Py.dec_int Py.dec_float 2 ([l] ++ Py.newline :: rest)
  = concat (map (fun l => emits (client_update Py.dec_int Py.dec_float 2 l)) [l]) /\
  recv_listener Py.dec_int Py.dec_float 2 ([l] ++ Py.newline :: rest)
  = recv_listener Py.dec_int Py.dec_float 2 [l].
Proof.
  apply (bad_line_silences_session Py.dec_int Py.dec_float 2
           ["progress 50" +:+ Py.newline] Py.newline ["done" +:+ Py.newline]).
  - repeat constructor.
  - discriminate.
Defined.

End HandlerMore.

(** ** The line editor of the terminal *)

Module EditorFacts.
Import Editor.

Section Facts.

Context {char : Type} `{!EqDecision char}.
Variable nl : char.
Variable LINES : Z.
Variable color_pair_1 : Z.

Implicit Types (s : state char) (c : key char) (t text : list char).

Local Abbreviation on_input := (on_input nl LINES).
Local Abbreviation edit_key := (edit_key nl).
Local Abbreviation set_cursor := (set_cursor LINES).
Local Abbreviation on_start_edit := (on_start_edit LINES).
Local Abbreviation handle := (handle nl LINES color_pair_1).
Local Abbreviation run := (run nl LINES color_pair_1).

Lemma py_del_spec {A} (l : list A) (i : Z) :
  0 <= i ->
  (i < Z.of_nat (length l) -> py_del l i = Some (delete (Z.to_nat i) l)) /\
  (Z.of_nat (length l) <= i -> py_del l i = None).
Proof.
  intros Hi. unfold py_del, py_index. split; intros H.
  - by rewrite bool_decide_eq_true_2 by lia.
  - by rewrite !bool_decide_eq_false_2 by lia.
Qed.

Lemma py_insert_spec {A} (l : list A) (i : Z) (x : A) :
  0 <= i <= Z.of_nat (length l) ->
  py_insert l i x = take (Z.to_nat i) l ++ x :: drop (Z.to_nat i) l.
Proof.
  intros Hi. unfold py_insert. rewrite bool_decide_eq_false_2 by lia.
  by rewrite Z.min_l by lia.
Qed.

Lemma length_py_insert {A} (l : list A) (i : Z) (x : A) :
  length (py_insert l i x) = S (length l).
Proof.
  unfold py_insert. rewrite length_app. simpl.
  rewrite length_take, length_drop. lia.
Qed.

Lemma key_int_eq (z z' : Z) : bool_decide (@KInt char z = KInt z') = bool_decide (z = z').
Proof. apply bool_decide_ext. split; [by intros [=]|by intros ->]. Qed.

Lemma key_str_eq t t' : bool_decide (KStr t = KStr t') = bool_decide (t = t').
Proof. apply bool_decide_ext. split; [by intros [=]|by intros ->]. Qed.

Lemma key_str_int t (z : Z) : bool_decide (KStr t = KInt z) = false.
Proof. by apply bool_decide_eq_false_2. Qed.

Lemma key_int_str (z : Z) t : bool_decide (@KInt char z = KStr t) = false.
Proof. by apply bool_decide_eq_false_2. Qed.

(** The editing branch on a text: the newline ends the edit, any other text
    goes into the buffer. *)
Lemma edit_key_str s t :
  edit_key s (KStr t)
  = if bool_decide (t = [nl]) then
      (set_editing false (set_edit_cursor 0 (set_buf [] s)), [Pub_edit_end (joined s)], None)
    else
      (set_edit_cursor (_edit_cursor s + 1)
         (set_buf (py_insert (_buf s) (_edit_cursor s) t) s), [], None).
Proof.
  unfold Editor.edit_key. rewrite !key_str_int, key_str_eq.
  by destruct (bool_decide (t = [nl])).
Qed.

Lemma edit_key_backspace s :
  edit_key s (KInt KEY_BACKSPACE)
  = if bool_decide (0 < _edit_cursor s) then
      if bool_decide (_edit_cursor s <= Z.of_nat (length (_buf s))) then
        (set_buf (delete (Z.to_nat (_edit_cursor s - 1)) (_buf s))
           (set_edit_cursor (_edit_cursor s - 1) s), [], None)
      else (set_edit_cursor (_edit_cursor s - 1) s, [], Some IndexError)
    else (s, [], None).
Proof.
  unfold Editor.edit_key. rewrite !key_int_eq. simpl.
  case_bool_decide as Hk; [|done]. cbn [_buf _edit_cursor set_edit_cursor].
  destruct (py_del_spec (_buf s) (_edit_cursor s - 1)) as [H1 H2]; [lia|].
  case_bool_decide as Hn.
  - by rewrite H1 by lia.
  - by rewrite H2 by lia.
Qed.




Lemma editor_handle_inv s (m : msg char) :
  0 <= _edit_cursor s /\ 0 <= _cursor s <= Z.max (LINES - 3) 0 /\
  (_editing s = false -> _buf s = [] /\ _edit_cursor s = 0) ->
  let s' := after (handle s m) in
  0 <= _edit_cursor s' /\ 0 <= _cursor s' <= Z.max (LINES - 3) 0 /\
  (_editing s' = false -> _buf s' = [] /\ _edit_cursor s' = 0).
Proof.
  intros (H1 & H2 & H3). destruct m as [c|text|row l|color|severity txt]; simpl.
  - unfold Editor.on_input. destruct (_editing s) eqn:E.
    + assert (Hr : 0 <= _edit_cursor (edit_key s c).1.1 /\
                   _cursor (edit_key s c).1.1 = _cursor s /\
                   (_editing (edit_key s c).1.1 = false ->
                    _buf (edit_key s c).1.1 = [] /\ _edit_cursor (edit_key s c).1.1 = 0)).
      { destruct c as [z|t].
        - destruct (decide (z = KEY_BACKSPACE)) as [->|Hz].
          + rewrite edit_key_backspace.
            repeat case_bool_decide; simpl;
              (split; [lia|]); (split; [done|]); intros; congruence.
          + unfold Editor.edit_key. rewrite !key_int_eq, key_int_str.
            rewrite (bool_decide_eq_false_2 (z = KEY_BACKSPACE)) by done.
            simpl. repeat case_bool_decide; simpl;
              (split; [lia|]); (split; [done|]); first [done|intros; congruence].
        - rewrite edit_key_str. case_bool_decide; simpl;
            (split; [lia|]); (split; [done|]); first [done|intros; congruence]. }
      destruct (edit_key s c) as [[s1 es] [e|]]; simpl in *;
        destruct Hr as (? & -> & ?); done.
    + specialize (H3 eq_refl). unfold Editor.set_cursor.
      repeat case_bool_decide; simpl; rewrite ?E; (split; [lia|]); (split; [lia|]); done.
  - split; [done|]. split; [done|]. intros; discriminate.
  - done.
  - done.
  - by case_bool_decide.
Qed.

Lemma editor_run_inv s (ms : list (msg char)) :
  0 <= _edit_cursor s /\ 0 <= _cursor s <= Z.max (LINES - 3) 0 /\
  (_editing s = false -> _buf s = [] /\ _edit_cursor s = 0) ->
  let s' := run s ms in
  0 <= _edit_cursor s' /\ 0 <= _cursor s' <= Z.max (LINES - 3) 0 /\
  (_editing s' = false -> _buf s' = [] /\ _edit_cursor s' = 0).
Proof.
  revert s. induction ms as [|m ms IH]; intros s Hs; [done|].
  simpl. apply IH. by apply editor_handle_inv.
Qed.

Lemma editor_init_inv :
  0 <= _edit_cursor (@init char) /\ 0 <= _cursor (@init char) <= Z.max (LINES - 3) 0 /\
  (_editing (@init char) = false -> _buf (@init char) = [] /\ _edit_cursor (@init char) = 0).
Proof. simpl. split; [lia|]. split; [lia|done]. Qed.

(** X13. Whatever the service has handled since it was created, the edit
    cursor is not negative, the row cursor is a row between 0 and
    [curses.LINES - 3] (row 0 on a shorter terminal), and outside an edit the
    buffer is empty with the edit cursor at 0. *)
Theorem editor_state_invariant (ms : list (msg char)) :
  let s := run init ms in
  0 <= _edit_cursor s /\ 0 <= _cursor s <= Z.max (LINES - 3) 0 /\
  (_editing s = false -> _buf s = [] /\ _edit_cursor s = 0).
Proof. apply editor_run_inv, editor_init_inv. Qed.

Lemma cursor_published_unclamped_eq s c (d : Z) :
  _editing s = false ->
  (c = KInt KEY_UP /\ d = -1) \/ (c = KInt KEY_DOWN /\ d = 1) ->
  let p := _cursor s + d in
  after (on_input s c) = set_cursor_field (Z.max (Z.min p (LINES - 3)) 0) s /\
  effects (on_input s c)
  = [Pub_log 0 c; Pub_cursor p; Move (Z.max (Z.min p (LINES - 3)) 0) 0; Refresh; Pub_input c].
Proof.
  intros E Hc p. subst p. unfold Editor.on_input. rewrite E.
  assert (Hs : forall q, q ≠ _cursor s ->
            set_cursor s q
            = (set_cursor_field (Z.max (Z.min q (LINES - 3)) 0) s,
               [Pub_cursor q; Move (Z.max (Z.min q (LINES - 3)) 0) 0; Refresh])).
  { intros q Hq. unfold Editor.set_cursor. rewrite bool_decide_eq_true_2 by done.
    unfold refresh. simpl. by rewrite E. }
  destruct Hc as [[-> ->]|[-> ->]].
  - rewrite bool_decide_eq_true_2 by done.
    replace (_cursor s - 1) with (_cursor s + -1) by lia.
    rewrite Hs by lia. done.
  - rewrite bool_decide_eq_false_2 by done. rewrite bool_decide_eq_true_2 by done.
    rewrite Hs by lia. done.
Qed.

Lemma concat_chars text : concat (chars text) = text.
Proof. induction text as [|a text IH]; [done|]. simpl. by rewrite IH. Qed.

(** Typing a text that is not the newline, while editing. *)
Lemma type_one s t :
  _editing s = true -> t ≠ [nl] ->
  raised (on_input s (KStr t)) = None /\
  after (on_input s (KStr t))
  = set_edit_cursor (_edit_cursor s + 1)
      (set_buf (py_insert (_buf s) (_edit_cursor s) t) s).
Proof.
  intros E Ht. unfold Editor.on_input. rewrite E, edit_key_str.
  by rewrite bool_decide_eq_false_2 by done.
Qed.

Lemma type_many s (ts : list (list char)) :
  _editing s = true -> Forall (fun t => t ≠ [nl]) ts ->
  0 <= _edit_cursor s <= Z.of_nat (length (_buf s)) ->
  run s (typed ts)
  = set_edit_cursor (_edit_cursor s + Z.of_nat (length ts))
      (set_buf (take (Z.to_nat (_edit_cursor s)) (_buf s) ++ ts
                ++ drop (Z.to_nat (_edit_cursor s)) (_buf s)) s).
Proof.
  intros E Hts. revert s E. induction Hts as [|t ts Ht _ IH]; intros s E Hk.
  - simpl. rewrite take_drop, Z.add_0_r. by destruct s.
  - cbn [typed map Editor.run Editor.handle].
    destruct (type_one s t E Ht) as [_ ->]. fold (typed ts).
    rewrite py_insert_spec by done. rewrite IH; [|done|].
    + cbn [_edit_cursor _buf set_edit_cursor set_buf _editing _cursor _color].
      unfold set_edit_cursor, set_buf. simpl. f_equal; [|lia].
      replace (Z.to_nat (_edit_cursor s + 1)) with (S (Z.to_nat (_edit_cursor s))) by lia.
      set (k := Z.to_nat (_edit_cursor s)).
      assert (Hlen : length (take k (_buf s) ++ [t]) = S k).
      { rewrite length_app, length_take_le by lia. simpl. lia. }
      rewrite (cons_middle t (take k (_buf s)) (drop k (_buf s))).
      rewrite (app_assoc (take k (_buf s)) [t] (drop k (_buf s))).
      rewrite take_app_length', drop_app_length' by (symmetry; exact Hlen).
      by rewrite <- !app_assoc.
    + cbn [_edit_cursor _buf set_edit_cursor set_buf].
      rewrite length_app. simpl. rewrite length_take_le, length_drop by lia. lia.
Qed.

Lemma typed_enter_spec (ms : list (msg char)) text (ts : list (list char)) c :
  _editing (run init ms) = false ->
  Forall (fun t => t ≠ [nl]) ts ->
  c = KStr [nl] \/ c = KInt KEY_ENTER ->
  let s1 := run (run init ms) (Edit_start text :: typed ts) in
  _buf s1 = ts ++ chars text /\
  on_input s1 c
  = mkOut (set_editing false (set_edit_cursor 0 (set_buf [] s1)))
      [Pub_edit_end (concat ts ++ text); Addstr (LINES - 1) 0 [] (_color s1); Clrtoeol;
       Move (_cursor s1) 0; Refresh] None.
Proof.
  intros E Hts Hc s1.
  destruct (editor_run_inv init ms editor_init_inv) as (_ & _ & H3). destruct (H3 E) as [Hb Hk].
  set (s0 := run init ms) in *.
  assert (Hs1 : s1 = set_edit_cursor (Z.of_nat (length ts))
                       (set_buf (ts ++ chars text) (set_editing true s0))).
  { subst s1. cbn [Editor.run Editor.handle Editor.on_start_edit after].
    rewrite type_many; [| done | done |].
    - cbn [_edit_cursor _buf set_edit_cursor set_buf set_editing].
      rewrite Hk. simpl. rewrite drop_0. unfold set_edit_cursor, set_buf. simpl. done.
    - cbn [_edit_cursor _buf set_edit_cursor set_buf set_editing]. lia. }
  split; [by rewrite Hs1|].
  assert (He : edit_key s1 c
               = (set_editing false (set_edit_cursor 0 (set_buf [] s1)),
                  [Pub_edit_end (joined s1)], None)).
  { destruct Hc as [->| ->].
    - rewrite edit_key_str. by rewrite bool_decide_eq_true_2.
    - unfold Editor.edit_key. rewrite !key_int_eq, key_int_str. done. }
  unfold Editor.on_input.
  assert (E1 : _editing s1 = true) by (by rewrite Hs1).
  rewrite E1, He. simpl. do 3 f_equal. rewrite Hs1. unfold joined. simpl.
  by rewrite concat_app, concat_chars.
Qed.

(** X14. An edit started outside an edit has its cursor at the front: after
    [on_start_edit(text)], the texts typed go before [text] in the order
    typed, and the newline (or the enter key) publishes them followed by
    [text] on edit/end and leaves the editor idle with an empty buffer. *)
Theorem typed_text_goes_in_front (ms : list (msg char)) text (ts : list (list char)) c :
  _editing (run init ms) = false ->
  Forall (fun t => t ≠ [nl]) ts ->
  c = KStr [nl] \/ c = KInt KEY_ENTER ->
  let s1 := run (run init ms) (Edit_start text :: typed ts) in
  let o := on_input s1 c in
  _buf s1 = ts ++ chars text /\
  raised o = None /\
  (exists es, effects o = Pub_edit_end (concat ts ++ text) :: es) /\
  _editing (after o) = false /\ _buf (after o) = [] /\ _edit_cursor (after o) = 0.
Proof.
  intros E Hts Hc s1 o.
  destruct (typed_enter_spec ms text ts c E Hts Hc) as [Hb Ho].
  fold s1 in Hb, Ho. subst o. rewrite Ho. simpl.
  split; [done|]. split; [done|]. split; [by eexists|done].
Qed.

(** X15. While the edit cursor is within the buffer, the backspace key
    undoes a text just typed: buffer, cursor and the rest of the state are as
    before. *)
Theorem backspace_undoes_typing s t :
  _editing s = true -> t ≠ [nl] ->
  0 <= _edit_cursor s <= Z.of_nat (length (_buf s)) ->
  let s1 := after (on_input s (KStr t)) in
  raised (on_input s1 (KInt KEY_BACKSPACE)) = None /\
  after (on_input s1 (KInt KEY_BACKSPACE)) = s.
Proof.
  intros E Ht Hk s1. subst s1. destruct (type_one s t E Ht) as [_ ->].
  unfold Editor.on_input at 1 2. cbn [_editing set_edit_cursor set_buf]. rewrite E.
  rewrite edit_key_backspace. cbn [_edit_cursor _buf set_edit_cursor set_buf].
  rewrite bool_decide_eq_true_2 by lia.
  rewrite length_py_insert. rewrite bool_decide_eq_true_2 by lia.
  simpl. split; [done|].
  rewrite py_insert_spec by done.
  replace (_edit_cursor s + 1 - 1) with (_edit_cursor s) by lia.
  set (k := Z.to_nat (_edit_cursor s)).
  assert (Hd : delete k (take k (_buf s) ++ t :: drop k (_buf s)) = _buf s).
  { rewrite <- (length_take_le (_buf s) k) at 1 by lia.
    by rewrite delete_middle, take_drop. }
  unfold set_buf, set_edit_cursor. simpl. rewrite Hd. by destruct s.
Qed.

(** X16. [on_start_edit] replaces the buffer and leaves the edit cursor where
    it was: when it arrives during an edit with a text shorter than the
    cursor position, the next backspace raises IndexError. *)
Theorem start_edit_keeps_edit_cursor s text :
  Z.of_nat (length text) < _edit_cursor s ->
  let s1 := after (on_start_edit s text) in
  _edit_cursor s1 = _edit_cursor s /\ _buf s1 = chars text /\
  raised (on_input s1 (KInt KEY_BACKSPACE)) = Some IndexError.
Proof.
  intros Hk s1. subst s1. simpl. do 2 (split; [done|]).
  unfold Editor.on_input. simpl. rewrite edit_key_backspace. simpl.
  rewrite bool_decide_eq_true_2 by lia.
  unfold chars. rewrite length_map. by rewrite bool_decide_eq_false_2 by lia.
Qed.

End Facts.


(** A first edit of the text ab, then the text xy typed before the enter
    key. *)
Lemma typed_text_goes_in_front_witness :
  let s1 := run "010"%char 24 1 (run "010"%char 24 1 init [])
              (Edit_start ["a"; "b"]%char :: typed [["x"%char]; ["y"%char]]) in
  let o := on_input "010"%char 24 s1 (KInt KEY_ENTER) in
  _buf s1 = [["x"%char]; ["y"%char]] ++ chars ["a"; "b"]%char /\
  raised o = None /\
  (exists es, effects o
              = Pub_edit_end (concat [["x"%char]; ["y"%char]] ++ ["a"; "b"]%char) :: es) /\
  _editing (after o) = false /\ _buf (after o) = [] /\ _edit_cursor (after o) = 0.
Proof.
  apply (typed_text_goes_in_front "010"%char 24 1 [] ["a"; "b"]%char
           [["x"%char]; ["y"%char]] (KInt KEY_ENTER)).
  - reflexivity.
  - repeat constructor; discriminate.
  - right. reflexivity.
Defined.

Lemma backspace_undoes_typing_witness :
  let s := mkState [["b"%char]] true 1 0 0 in
  let s1 := after (on_input "010"%char 24 s (KStr ["a"%char])) in
  raised (on_input "010"%char 24 s1 (KInt KEY_BACKSPACE)) = None /\
  after (on_input "010"%char 24 s1 (KInt KEY_BACKSPACE)) = s.
Proof.
  apply (backspace_undoes_typing "010"%char 24
           (mkState [["b"%char]] true 1 0 0) ["a"%char]).
  - reflexivity.
  - discriminate.
  - simpl. lia.
Defined.

(** Two characters typed into an edit of one, then a second edit/start. *)
Lemma start_edit_keeps_edit_cursor_witness :
  let s := mkState [["x"]; ["y"]; ["a"]]%char true 2 0 0 in
  let s1 := after (on_start_edit 24 s ["a"%char]) in
  _edit_cursor s1 = _edit_cursor s /\ _buf s1 = chars ["a"%char] /\
  raised (on_input "010"%char 24 s1 (KInt KEY_BACKSPACE)) = Some IndexError.
Proof.
  apply (start_edit_keeps_edit_cursor "010"%char 24
           (mkState [["x"]; ["y"]; ["a"]]%char true 2 0 0) ["a"%char]).
  simpl. lia.
Defined.

End EditorFacts.

(** ** The screen, with the terminal and with the registry *)

Module ScreenFacts.

Section Keys.

Context {char : Type} `{!EqDecision char}.
Variable nl : char.
Variable LINES : Z.

Implicit Types (ed : Editor.state char) (sc : Screen.state (list char)).
Implicit Types (c : Editor.key char).

Local Abbreviation key_press := (Terminal.key_press nl LINES).
Local Abbreviation deliver_all := (Terminal.deliver_all nl).

(** A movement key outside an edit, on both services. *)
Lemma move_key ed sc c (d : Z) :
  Editor._editing ed = false ->
  (c = Editor.KInt Editor.KEY_UP /\ d = -1) \/ (c = Editor.KInt Editor.KEY_DOWN /\ d = 1) ->
  key_press ed sc c
  = (Editor.set_cursor_field (Z.max (Z.min (Editor._cursor ed + d) (LINES - 3)) 0) ed,
     Screen.mkState (Screen._names sc) (Editor._cursor ed + d), []).
Proof.
  intros E Hc. unfold Terminal.key_press.
  destruct (EditorFacts.cursor_published_unclamped_eq nl LINES ed c d E Hc) as (Ha & He).
  rewrite He, Ha. simpl.
  assert (Hn : bool_decide (c ≠ Editor.KStr [nl]) = true).
  { apply bool_decide_eq_true_2. by destruct Hc as [[-> _]|[-> _]]. }
  unfold Screen.on_input. simpl. rewrite Hn. done.
Qed.

(** The newline outside an edit, on both services. *)
Lemma enter_key ed sc :
  Editor._editing ed = false ->
  key_press ed sc (Editor.KStr [nl])
  = (ed, sc, match Screen._names sc !! Screen._cursor sc with
             | Some name => [Screen.Pub_edit_start name]
             | None => []
             end).
Proof.
  intros E. unfold Terminal.key_press, Editor.on_input. rewrite E.
  rewrite !EditorFacts.key_str_int. simpl.
  unfold Screen.on_input. rewrite bool_decide_eq_false_2 by (by intros []).
  by destruct (Screen._names sc !! Screen._cursor sc).
Qed.

(** X17. After an up or down key outside an edit, the screen service holds
    the row asked for and the terminal the row clamped to the screen; they
    are the same row exactly when the row asked for is on the screen. *)
Theorem screen_row_is_row_asked_for ed sc c (d : Z) :
  Editor._editing ed = false ->
  (c = Editor.KInt Editor.KEY_UP /\ d = -1) \/ (c = Editor.KInt Editor.KEY_DOWN /\ d = 1) ->
  let ed1 := (key_press ed sc c).1.1 in
  let sc1 := (key_press ed sc c).1.2 in
  (key_press ed sc c).2 = [] /\
  Screen._names sc1 = Screen._names sc /\
  Screen._cursor sc1 = Editor._cursor ed + d /\
  Editor._cursor ed1 = Z.max (Z.min (Editor._cursor ed + d) (LINES - 3)) 0 /\
  (3 <= LINES ->
   (Screen._cursor sc1 = Editor._cursor ed1 <-> 0 <= Editor._cursor ed + d <= LINES - 3)).
Proof.
  intros E Hc ed1 sc1. subst ed1 sc1. rewrite (move_key ed sc c d E Hc). simpl.
  do 4 (split; [done|]). lia.
Qed.

(** X18. On the top row the newline starts the edit of the name shown there;
    after an up key, which leaves the terminal on the top row, it starts no
    edit: the screen service is then on row -1, which holds no name. *)
Theorem up_on_top_row_loses_the_row ed sc (name : list char) :
  Editor._editing ed = false ->
  Editor._cursor ed = 0 -> Screen._cursor sc = 0 ->
  Screen._names sc !! 0 = Some name ->
  Screen._names sc !! (-1) = None ->
  (key_press ed sc (Editor.KStr [nl])).2 = [Screen.Pub_edit_start name] /\
  let ed1 := (key_press ed sc (Editor.KInt Editor.KEY_UP)).1.1 in
  let sc1 := (key_press ed sc (Editor.KInt Editor.KEY_UP)).1.2 in
  Editor._cursor ed1 = 0 /\ Editor._editing ed1 = false /\
  Screen._cursor sc1 = -1 /\
  (key_press ed1 sc1 (Editor.KStr [nl])).2 = [].
Proof.
  intros E Hc Hs Hn Hm. split.
  - rewrite enter_key by done. simpl. by rewrite Hs, Hn.
  - rewrite (move_key ed sc _ (-1) E) by (left; done). simpl. rewrite Hc.
    split; [lia|]. split; [done|]. split; [done|].
    rewrite enter_key by done. cbn [Screen._names Screen._cursor snd].
    change (0 + -1) with (-1). by rewrite Hm.
Qed.

(** X19. From the newline on a row that shows a name to the rename: the
    screen publishes the name on edit/start; after the terminal has handled
    it and the texts typed, the newline or the enter key makes the screen
    publish, on client-rename, its row with the texts typed followed by the
    old name, and leaves the terminal idle. *)
Theorem edit_ends_in_rename (color_pair_1 : Z) (ms : list (Editor.msg char)) sc
    (name : list char) (ts : list (list char)) c :
  let ed := Editor.run nl LINES color_pair_1 Editor.init ms in
  Editor._editing ed = false ->
  Screen._names sc !! Screen._cursor sc = Some name ->
  Forall (fun t => t ≠ [nl]) ts ->
  c = Editor.KStr [nl] \/ c = Editor.KInt Editor.KEY_ENTER ->
  key_press ed sc (Editor.KStr [nl]) = (ed, sc, [Screen.Pub_edit_start name]) /\
  let ed1 := Editor.run nl LINES color_pair_1 ed
               (Editor.Edit_start name :: Editor.typed ts) in
  (key_press ed1 sc c).2
    = [Screen.Pub_client_rename (Screen._cursor sc) (concat ts ++ name)] /\
  (key_press ed1 sc c).1.2 = sc /\
  Editor._editing (key_press ed1 sc c).1.1 = false /\
  Editor._buf (key_press ed1 sc c).1.1 = [].
Proof.
  intros ed E Hn Hts Hc. split.
  - rewrite enter_key by done. by rewrite Hn.
  - intros ed1.
    destruct (EditorFacts.typed_enter_spec nl LINES color_pair_1 ms name ts c E Hts Hc)
      as [_ Ho].
    fold ed in Ho. fold ed1 in Ho.
    unfold Terminal.key_press. rewrite Ho. simpl. done.
Qed.

End Keys.

(** The up key and then the newline, on the top row of a terminal of 24
    lines that shows one name. *)
Lemma screen_row_is_row_asked_for_witness :
  let ed := @Editor.init ascii in
  let sc := Screen.mkState (<[0 := ["w"%char]]> ∅) 0 in
  let c := Editor.KInt Editor.KEY_UP in
  let ed1 := (Terminal.key_press "010"%char 24 ed sc c).1.1 in
  let sc1 := (Terminal.key_press "010"%char 24 ed sc c).1.2 in
  (Terminal.key_press "010"%char 24 ed sc c).2 = [] /\
  Screen._names sc1 = Screen._names sc /\
  Screen._cursor sc1 = Editor._cursor ed + -1 /\
  Editor._cursor ed1 = Z.max (Z.min (Editor._cursor ed + -1) (24 - 3)) 0 /\
  (3 <= 24 ->
   (Screen._cursor sc1 = Editor._cursor ed1 <-> 0 <= Editor._cursor ed + -1 <= 24 - 3)).
Proof.
  apply (screen_row_is_row_asked_for "010"%char 24 (@Editor.init ascii)
           (Screen.mkState (<[0 := ["w"%char]]> ∅) 0) (Editor.KInt Editor.KEY_UP) (-1)).
  - reflexivity.
  - left. split; reflexivity.
Defined.

Lemma up_on_top_row_loses_the_row_witness :
  let ed := @Editor.init ascii in
  let sc := Screen.mkState (<[0 := ["w"%char]]> ∅) 0 in
  (Terminal.key_press "010"%char 24 ed sc (Editor.KStr ["010"%char])).2
    = [Screen.Pub_edit_start ["w"%char]] /\
  let ed1 := (Terminal.key_press "010"%char 24 ed sc (Editor.KInt Editor.KEY_UP)).1.1 in
  let sc1 := (Terminal.key_press "010"%char 24 ed sc (Editor.KInt Editor.KEY_UP)).1.2 in
  Editor._cursor ed1 = 0 /\ Editor._editing ed1 = false /\
  Screen._cursor sc1 = -1 /\
  (Terminal.key_press "010"%char 24 ed1 sc1 (Editor.KStr ["010"%char])).2 = [].
Proof.
  apply (up_on_top_row_loses_the_row "010"%char 24 (@Editor.init ascii)
           (Screen.mkState (<[0 := ["w"%char]]> ∅) 0) ["w"%char]).
  - reflexivity.
  - reflexivity.
  - reflexivity.
  - vm_compute. reflexivity.
  - vm_compute. reflexivity.
Defined.

(** The name w on row 0, the texts a and b typed, the enter key. *)
Lemma edit_ends_in_rename_witness :
  let ed := Editor.run "010"%char 24 1 (@Editor.init ascii) [] in
  let sc := Screen.mkState (<[0 := ["w"%char]]> ∅) 0 in
  let ts := [["a"%char]; ["b"%char]] in
  let c := Editor.KInt Editor.KEY_ENTER in
  Terminal.key_press "010"%char 24 ed sc (Editor.KStr ["010"%char])
    = (ed, sc, [Screen.Pub_edit_start ["w"%char]]) /\
  let ed1 := Editor.run "010"%char 24 1 ed
               (Editor.Edit_start ["w"%char] :: Editor.typed ts) in
  (Terminal.key_press "010"%char 24 ed1 sc c).2
    = [Screen.Pub_client_rename (Screen._cursor sc) (concat ts ++ ["w"%char])] /\
  (Terminal.key_press "010"%char 24 ed1 sc c).1.2 = sc /\
  Editor._editing (Terminal.key_press "010"%char 24 ed1 sc c).1.1 = false /\
  Editor._buf (Terminal.key_press "010"%char 24 ed1 sc c).1.1 = [].
Proof.
  apply (edit_ends_in_rename "010"%char 24 1 []
           (Screen.mkState (<[0 := ["w"%char]]> ∅) 0) ["w"%char]
           [["a"%char]; ["b"%char]] (Editor.KInt Editor.KEY_ENTER)).
  - reflexivity.
  - vm_compute. reflexivity.
  - repeat constructor; discriminate.
  - right. reflexivity.
Defined.

Section Rows.

Import Registry RegistryInv.

Implicit Types (sc : Screen.state string) (cs : list Client).

Lemma refresh_spec {str : Type} (s : Screen.state str) (li st : Z) (nm : str)
    (p : progress_t) :
  let o := Screen.on_refresh s li st nm p in
  Screen._names (Screen.after o) = <[li := nm]> (Screen._names s) /\
  Screen._cursor (Screen.after o) = Screen._cursor s /\
  (-3 <= st < 3 ->
   exists l, Screen.effects o = [Screen.Pub_line li l] /\ Screen.l_name l = nm /\
             Screen.raised o = None) /\
  (~ (-3 <= st < 3) -> Screen.effects o = [] /\ Screen.raised o = Some IndexError).
Proof.
  intros o. subst o. unfold Screen.on_refresh, py_index. simpl.
  split; [by repeat case_match|]. split; [by repeat case_match|]. split.
  - intros Hst.
    assert (st = -3 \/ st = -2 \/ st = -1 \/ st = 0 \/ st = 1 \/ st = 2)
      as [->|[->|[->|[->|[->| ->]]]]] by lia; simpl; by eexists.
  - intros Hst. by rewrite !bool_decide_eq_false_2 by lia.
Qed.

(** X20. [on_refresh] stores the name under the record's row before it looks
    the status up: it raises IndexError exactly when the status is outside
    -3 .. 2, the name stored all the same and no line published; otherwise it
    publishes one line, for that row, with that name. *)
Theorem refresh_raises_exactly_when {str : Type} (s : Screen.state str) (li st : Z)
    (nm : str) (p : progress_t) :
  let o := Screen.on_refresh s li st nm p in
  Screen._names (Screen.after o) !! li = Some nm /\
  (Screen.raised o = None <-> -3 <= st < 3) /\
  (Screen.raised o = None ->
   exists l, Screen.effects o = [Screen.Pub_line li l] /\ Screen.l_name l = nm) /\
  (Screen.raised o ≠ None -> Screen.raised o = Some IndexError /\ Screen.effects o = []).
Proof.
  intros o. destruct (refresh_spec s li st nm p) as (Hn & _ & Hin & Hout). fold o in Hn, Hin, Hout.
  split; [by rewrite Hn, lookup_insert_eq|].
  destruct (decide (-3 <= st < 3)) as [Hst|Hst].
  - destruct (Hin Hst) as (l & He & Hl & Hr). rewrite Hr.
    split; [done|]. split; [by exists l|done].
  - destruct (Hout Hst) as [He Hr]. rewrite Hr.
    split; [split; [done|by intros ?]|]. split; [done|]. done.
Qed.

(** X21. Every record the registry can come to hold is drawn without error:
    handled by [on_refresh], it raises nothing, publishes one line for the
    row of the record, and files the record's name under that row. *)
Theorem registry_rows_draw sc (xs : list input) (pos : nat) (c : Client) :
  (steps [] xs).1 !! pos = Some c ->
  let o := Screen.on_refresh sc (listidx c) (status c) (name c) (progress c) in
  Screen.raised o = None /\
  (exists l, Screen.effects o = [Screen.Pub_line (Z.of_nat pos) l] /\
             Screen.l_name l = name c) /\
  Screen._names (Screen.after o) !! Z.of_nat pos = Some (name c).
Proof.
  intros Hc o.
  destruct (RegistryMore.steps_inv [] xs RegistryMore.wf_nil) as [Hwf Hs]; [constructor|].
  unfold status_ok in Hs. rewrite Forall_lookup in Hs. specialize (Hs _ _ Hc). simpl in Hs.
  pose proof (Hwf _ _ Hc) as Hl.
  destruct (refresh_spec sc (listidx c) (status c) (name c) (progress c))
    as (Hn & _ & Hin & _). fold o in Hn, Hin.
  destruct Hin as (l & He & Hln & Hr).
  { unfold Recording, Success, Error in Hs. lia. }
  split; [done|]. rewrite <- Hl. split; [by exists l|].
  by rewrite Hn, lookup_insert_eq.
Qed.

(** X22. The end of an edit reaches the row it was started on: the rename the
    screen publishes for its row, handled by the registry when that row holds
    a record, renames the record of that row and no other; its refresh,
    handled by the screen, raises nothing and files the new name under the
    row. *)
Theorem rename_reaches_the_row sc (xs : list input) (newname : string) :
  let cs := (steps [] xs).1 in
  0 <= Screen._cursor sc < Z.of_nat (length cs) ->
  let row := Z.to_nat (Screen._cursor sc) in
  Screen.effects (Screen.on_finish_edit sc newname)
    = [Screen.Pub_client_rename (Screen._cursor sc) newname] /\
  let o := on_rename cs (Screen._cursor sc) newname in
  raised o = None /\ emits o = [("client-refresh", VClient row)] /\
  (forall k, k ≠ row -> clients o !! k = cs !! k) /\
  exists c c',
    cs !! row = Some c /\ clients o !! row = Some c' /\ c' = set_name newname c /\
    let o2 := Screen.on_refresh sc (listidx c') (status c') (name c') (progress c') in
    Screen.raised o2 = None /\
    Screen._names (Screen.after o2) !! Screen._cursor sc = Some newname.
Proof.
  intros cs Hrow row. split; [done|]. intros o.
  destruct (RegistryMore.steps_inv [] xs RegistryMore.wf_nil) as [Hwf Hs]; [constructor|].
  fold cs in Hwf, Hs.
  destruct (RegistryMore.rename_shape cs (Screen._cursor sc) newname) as [H1 _].
  destruct H1 as (pos & c & Hp & Hc & Ho); [lia|].
  rewrite bool_decide_eq_true_2 in Hp by lia. fold row in Hp. subst pos.
  fold o in Ho. rewrite Ho. simpl. do 2 (split; [done|]).
  split; [intros k Hk; by rewrite list_lookup_insert_ne|].
  exists c, (set_name newname c). split; [done|].
  split; [apply list_lookup_insert_eq; by eapply lookup_lt_Some|]. split; [done|].
  unfold status_ok in Hs. rewrite Forall_lookup in Hs. specialize (Hs _ _ Hc). simpl in Hs.
  pose proof (Hwf _ _ Hc) as Hl.
  destruct (refresh_spec sc (listidx (set_name newname c)) (status (set_name newname c))
              (name (set_name newname c)) (progress (set_name newname c)))
    as (Hn & _ & Hin & _).
  destruct Hin as (l & He & Hln & Hr).
  { simpl. unfold Recording, Success, Error in Hs. lia. }
  split; [done|]. rewrite Hn. simpl. rewrite Hl.
  replace (Z.of_nat row) with (Screen._cursor sc) by (subst row; lia).
  by rewrite lookup_insert_eq.
Qed.

End Rows.

(** The record of session 7 after it has joined and reported progress. *)
Lemma registry_rows_draw_witness :
  let sc := @Screen.init string in
  let c := Registry.mkClient 7 0 "handler/7" (PStr "half") 0 in
  let o := Screen.on_refresh sc (Registry.listidx c) (Registry.status c)
             (Registry.name c) (Registry.progress c) in
  Screen.raised o = None /\
  (exists l, Screen.effects o = [Screen.Pub_line (Z.of_nat 0) l] /\
             Screen.l_name l = Registry.name c) /\
  Screen._names (Screen.after o) !! Z.of_nat 0 = Some (Registry.name c).
Proof.
  apply (registry_rows_draw (@Screen.init string)
           [RegistryInv.Ev (Registry.Join 7 "handler/7");
            RegistryInv.Ev (Registry.Progress 7 (PStr "half"))] 0%nat).
  vm_compute. reflexivity.
Defined.

(** The screen on row 1 of a registry of two records. *)
Lemma rename_reaches_the_row_witness :
  let sc := Screen.mkState (∅ : gmap Z string) 1 in
  let xs := [RegistryInv.Ev (Registry.Join 7 "handler/7");
             RegistryInv.Ev (Registry.Join 8 "handler/8")] in
  let cs := (RegistryInv.steps [] xs).1 in
  let row := Z.to_nat (Screen._cursor sc) in
  Screen.effects (Screen.on_finish_edit sc "spare")
    = [Screen.Pub_client_rename (Screen._cursor sc) "spare"] /\
  let o := Registry.on_rename cs (Screen._cursor sc) "spare" in
  Registry.raised o = None /\ Registry.emits o = [("client-refresh", VClient row)] /\
  (forall k, k ≠ row -> Registry.clients o !! k = cs !! k) /\
  exists c c',
    cs !! row = Some c /\ Registry.clients o !! row = Some c' /\
    c' = Registry.set_name "spare" c /\
    let o2 := Screen.on_refresh sc (Registry.listidx c') (Registry.status c')
                (Registry.name c') (Registry.progress c') in
    Screen.raised o2 = None /\
    Screen._names (Screen.after o2) !! Screen._cursor sc = Some "spare".
Proof.
  apply (rename_reaches_the_row (Screen.mkState (∅ : gmap Z string) 1)
           [RegistryInv.Ev (Registry.Join 7 "handler/7");
            RegistryInv.Ev (Registry.Join 8 "handler/8")] "spare").
  vm_compute. split; [intros H; discriminate H|reflexivity].
Defined.

End ScreenFacts.

(** ** More on the event bus *)

Module BusMore.
Import Bus BusLife BusFacts.

Section Facts.

Context {F V : Type}.
Context (call : F -> V -> @state F V -> list (@cmd F V) * bool).

Implicit Types (st : @state F V) (k : string * string) (o : @obj V).
Implicit Types (cb : @callback V) (cbs : list (@callback V)).

Local Abbreviation listener_loop := (listener_loop call).
Local Abbreviation listener_step := (listener_step call).
Local Abbreviation run_cb := (run_cb call).
Local Abbreviation run_once := (run_once call).
Local Abbreviation run := (run call).
Local Abbreviation reachable := (reachable call).

(** X23. In every state the program reaches, a publish on a topic that
    exists raises nothing, whoever its subscribers are, and the [on_pub] of
    every task waiting in the loop finds its queue: the lookup
    [self._services[sub]] and the assertion of [on_pub] never fail. And a
    subscriber of a topic is always a registered service with a queue for
    it. *)
Theorem publish_never_raises st :
  reachable st ->
  (forall (topic : string) o names,
     topics st !! topic = Some names -> (pub topic o st).2 = None) /\
  (forall tid (svc topic : string) o,
     OnPub tid svc topic o ∈ ready st -> (on_pub svc topic o st).2 = None) /\
  (forall (topic svc : string) names,
     topics st !! topic = Some names -> svc ∈ names ->
     svc ∈ services st /\ is_Some (subs st !! (svc, topic))).
Proof.
  intros Hr. destruct (reachable_inv call st Hr) as [Hi Hl]. split; [|split].
  - intros topic o names Ht.
    destruct (pub_spec topic o st names Hi Hl Ht) as (st1 & -> & _). done.
  - intros tid svc topic o Hin.
    destruct (bi_pending st Hi tid svc topic o Hin) as [r Hk].
    unfold on_pub. rewrite Hk. by destruct (status r).
  - intros topic svc names Ht Hs. by apply (bi_topics st Hi topic names).
Qed.

(** X24. Closing a topic detaches its subscribers for good. After
    [close_topic] and a [create_topic] of the same name, the topic is there
    with no subscriber, a publish on it makes no task for a former
    subscriber, and a former subscriber that subscribes again fails on the
    assertion of [sub], now and after any number of turns of the loop: its
    queue of the first subscription is still in [_subs]. *)
Theorem closed_topic_detaches st (topic svc : string) (names : gset string) :
  reachable st ->
  topics st !! topic = Some names -> svc ∈ names ->
  let st1 := (close_topic topic st).1 in
  let st2 := (create_topic topic st1).1 in
  (close_topic topic st).2 = None /\
  (create_topic topic st1).2 = None /\
  topics st2 !! topic = Some ∅ /\
  (forall o, (pub topic o st2).2 = None /\
             created_for (svc, topic) (pub topic o st2).1 = created_for (svc, topic) st2) /\
  (forall (n : nat) (f : F),
     (sub svc topic f (run n st2)).2 = Some DuplicateSubscription).
Proof.
  intros Hr Ht Hs st1 st2.
  destruct (reachable_inv call st Hr) as [Hi Hl].
  destruct (bi_topics st Hi topic names svc Ht Hs) as [_ Hk].
  destruct (pub_spec topic QUIT st names Hi Hl Ht)
    as (stp & Hp & _ & _ & _ & _ & Htp & Hsp & _).
  assert (E1 : close_topic topic st = (set_topics (delete topic (topics stp)) stp, None)).
  { unfold close_topic. by rewrite Hp. }
  assert (Ht1 : topics st1 !! topic = None).
  { subst st1. rewrite E1. simpl. apply lookup_delete_eq. }
  assert (E2 : create_topic topic st1
               = (set_topics (<[topic := ∅]> (topics st1)) st1, None)).
  { unfold create_topic. by rewrite Ht1. }
  assert (Hr2 : reachable st2).
  { subst st2 st1. apply (reach_cmd call _ (CreateTopic topic)).
    apply (reach_cmd call _ (CloseTopic topic)). exact Hr. }
  destruct (reachable_inv call st2 Hr2) as [Hi2 Hl2].
  assert (Ht2 : topics st2 !! topic = Some ∅).
  { subst st2. rewrite E2. simpl. apply lookup_insert_eq. }
  assert (Hk2 : is_Some (subs st2 !! (svc, topic))).
  { subst st2. rewrite E2. simpl. subst st1. rewrite E1. simpl. by rewrite Hsp. }
  split; [by rewrite E1|]. split; [by rewrite E2|]. split; [done|]. split.
  - intros o. destruct (pub_spec topic o st2 ∅ Hi2 Hl2 Ht2)
      as (st3 & -> & _ & _ & _ & _ & _ & _ & _ & Hc & _).
    split; [done|]. simpl. rewrite Hc.
    rewrite bool_decide_eq_false_2; [apply app_nil_r|].
    intros [_ H]. simpl in H. by apply not_elem_of_empty in H.
  - intros n f. destruct (run_keys call n st2 (svc, topic) Hl2 Hi2 Hk2) as [r Hkn].
    unfold sub. by rewrite Hkn.
Qed.

(** X25. A subscription to a topic that does not exist fails after the queue
    and its consumer were made: [sub] raises on the lookup of the topic,
    leaves the queue in [_subs] and the consumer's first step in the loop,
    and registers nobody on any topic. The subscription cannot be made later
    either: whatever calls follow, the topic created among them, and however
    many turns the loop runs, the same [sub] fails on its first assertion. *)
Theorem failed_sub_cannot_be_retried st (svc topic : string) (f : F) :
  reachable st ->
  svc ∈ managed st -> svc ∈ services st ->
  subs st !! (svc, topic) = None -> topics st !! topic = None ->
  let st1 := (sub svc topic f st).1 in
  (sub svc topic f st).2 = Some UnknownTopic /\
  subs st1 !! (svc, topic) = Some (mkSub [] f LReady) /\
  ready st1 = ready st ++ [ListenerStep svc topic] /\
  topics st1 = topics st /\
  (forall (cs : list cmd) (n : nat) (f' : F),
     (sub svc topic f' (run n (exec_all cs st1).1)).2 = Some DuplicateSubscription).
Proof.
  intros Hr Hm Hs Hk Ht st1.
  assert (E : sub svc topic f st
              = (set_ready (ready st ++ [ListenerStep svc topic])
                   (set_subs (<[(svc, topic) := mkSub [] f LReady]> (subs st)) st),
                 Some UnknownTopic)).
  { unfold sub. rewrite Hk. rewrite bool_decide_eq_true_2 by done. simpl.
    rewrite bool_decide_eq_true_2 by done. by rewrite Ht. }
  subst st1. rewrite E. simpl. split; [done|].
  split; [apply lookup_insert_eq|]. do 2 (split; [done|]).
  intros cs n f'.
  set (st1 := set_ready _ _).
  assert (Hr1 : reachable st1).
  { replace st1 with (exec (Sub svc topic f) st).1 by (simpl; by rewrite E).
    by apply reach_cmd. }
  pose proof (exec_all_reachable call cs st1 Hr1) as Hr2.
  destruct (reachable_inv call _ Hr2) as [Hi2 Hl2].
  assert (Hk1 : is_Some (subs (exec_all cs st1).1 !! (svc, topic))).
  { apply (grows_keys st1); [apply exec_all_grows|].
    subst st1. simpl. rewrite lookup_insert_eq. by eexists. }
  destruct (run_keys call n _ (svc, topic) Hl2 Hi2 Hk1) as [r Hkn].
  unfold sub. by rewrite Hkn.
Qed.

Lemma crashed_stays_once k st :
  status_of k st = Some LCrashed ->
  status_of k (run_once st) = Some LCrashed /\
  handled_for k (run_once st) = handled_for k st.
Proof.
  unfold status_of. intros Hq.
  destruct (subs st !! k) as [r|] eqn:Hk; [|done]. simpl in Hq. injection Hq as Hq.
  assert (Hsame : forall st', subs st' = subs st -> handled st' = handled st ->
            status <$> subs st' !! k = Some LCrashed /\ handled_for k st' = handled_for k st).
  { intros st' Hs Hh. unfold handled_for. rewrite Hs, Hh, Hk. simpl. by rewrite Hq. }
  unfold Bus.run_once.
  destruct (waiting st); try (by apply Hsame);
    (destruct (ready st) as [|cb rest]; [by apply Hsame|]);
    (destruct cb as [tid svc topic o|svc topic|i|i|i|];
     try (by apply Hsame; apply (run_cb_same call _ (set_ready rest st)))).
  all: simpl.
  all: try (destruct (finish_task_same tid (on_pub svc topic o (set_ready rest st)).1)
              as [Hs Hh];
            unfold handled_for; rewrite Hs, Hh; unfold on_pub; simpl;
            destruct (decide (k = (svc, topic))) as [->|Hne];
            [ rewrite Hk, Hq; simpl; rewrite lookup_insert_eq; done
            | destruct (subs st !! (svc, topic)) as [r'|]; simpl;
              [ destruct (status r'); simpl; rewrite lookup_insert_ne by done;
                rewrite Hk; simpl; by rewrite Hq
              | rewrite Hk; simpl; by rewrite Hq ] ]).
  all: unfold Bus.listener_step; simpl;
       destruct (decide (k = (svc, topic))) as [->|Hne];
       [ rewrite Hk, Hq; simpl; rewrite Hk; simpl; by rewrite Hq
       | destruct (subs st !! (svc, topic)) as [r'|] eqn:Hk'; simpl;
         [ destruct (status r'); simpl; try (rewrite Hk; simpl; by rewrite Hq);
           destruct (listener_loop_other call k svc topic (func r') (items r')
                       (set_ready rest st) r Hne Hk) as [H1 H2];
           rewrite H1, H2; simpl; by rewrite Hq
         | rewrite Hk; simpl; by rewrite Hq ] ].
Qed.

Lemma crashed_stays k st (n : nat) :
  status_of k st = Some LCrashed ->
  status_of k (run n st) = Some LCrashed /\
  handled_for k (run n st) = handled_for k st.
Proof.
  revert st. induction n as [|n IH]; intros st Hq; [done|].
  rewrite run_S. destruct (crashed_stays_once k st Hq) as [H1 H2].
  destruct (IH _ H1) as [H3 H4]. split; [done|]. by rewrite H4.
Qed.

(** X26. A handler that raises, or makes a manager call that raises, ends
    the consumer of its subscription: the value it was called with counts as
    handled, what the queue held behind it stays there, and however long the
    loop runs and whatever is published, that handler is never called
    again. *)
Theorem raising_handler_is_never_called_again st (svc topic : string)
    (r : @sub_rec F V) (v : V) (rest : list obj) :
  subs st !! (svc, topic) = Some r -> status r = LReady -> items r = Ev v :: rest ->
  let st1 := set_handled (handled st ++ [(svc, topic, v)])
               (set_items (svc, topic) rest st) in
  (call (func r) v st1).2 = true \/ (exec_all (call (func r) v st1).1 st1).2 ≠ None ->
  let st' := listener_step svc topic st in
  status_of (svc, topic) st' = Some LCrashed /\
  handled_for (svc, topic) st' = handled_for (svc, topic) st ++ [v] /\
  queue_of (svc, topic) st' = rest /\
  forall n : nat,
    status_of (svc, topic) (run n st') = Some LCrashed /\
    handled_for (svc, topic) (run n st') = handled_for (svc, topic) st ++ [v].
Proof.
  intros Hk Hst Hit st1 Hraise st'.
  assert (Hk1 : subs st1 !! (svc, topic) = Some (mkSub rest (func r) LReady)).
  { unfold st1. simpl. rewrite (set_items_eq _ _ _ r Hk). simpl.
    rewrite lookup_insert_eq. by rewrite Hst. }
  assert (Hh1 : handled_for (svc, topic) st1 = handled_for (svc, topic) st ++ [v]).
  { unfold st1, handled_for. simpl. rewrite omap_app. simpl.
    rewrite bool_decide_eq_true_2 by done. f_equal. }
  assert (Hcr : forall st2, subs st2 !! (svc, topic) = Some (mkSub rest (func r) LReady) ->
            handled st2 = handled st1 ->
            let st3 := set_status (svc, topic) LCrashed st2 in
            status_of (svc, topic) st3 = Some LCrashed /\
            handled_for (svc, topic) st3 = handled_for (svc, topic) st ++ [v] /\
            queue_of (svc, topic) st3 = rest).
  { intros st2 Hk2 Hh2 st3. subst st3. rewrite (set_status_eq _ _ _ _ Hk2).
    unfold status_of, handled_for, queue_of. simpl. rewrite lookup_insert_eq. simpl.
    split; [done|]. split; [|done]. rewrite Hh2. exact Hh1. }
  assert (Hst' : status_of (svc, topic) st' = Some LCrashed /\
                 handled_for (svc, topic) st' = handled_for (svc, topic) st ++ [v] /\
                 queue_of (svc, topic) st' = rest).
  { subst st'. unfold Bus.listener_step. rewrite Hk, Hst, Hit.
    cbn [Bus.listener_loop]. fold st1.
    destruct (call (func r) v st1) as [cs raises] eqn:Ec. simpl in Hraise.
    pose proof (exec_all_subs cs st1 _ _ Hk1) as Hk2.
    pose proof (exec_all_handled cs st1) as Hh2.
    destruct (exec_all cs st1) as [st2 [e|]]; simpl in *.
    - by apply Hcr.
    - destruct Hraise as [-> |H]; [|done]. by apply Hcr. }
  destruct Hst' as (H1 & H2 & H3). do 3 (split; [done|]).
  intros n. destruct (crashed_stays (svc, topic) st' n H1) as [H4 H5].
  split; [done|]. by rewrite H5.
Qed.

(** *** Two publishes made in one step *)

Lemma run_reachable (n : nat) st : reachable st -> reachable (run n st).
Proof.
  revert st. induction n as [|n IH]; intros st Hr; [done|].
  rewrite run_S. apply IH. by apply reach_loop.
Qed.







(** *** [wait] and [_quit] *)

Lemma quiet_refl st : quiet st st.
Proof. do 2 (split; [done|]). exists []. by rewrite app_nil_r. Qed.

Lemma quiet_trans st1 st2 st3 : quiet st1 st2 -> quiet st2 st3 -> quiet st1 st3.
Proof.
  intros (H1 & H2 & x & H3 & H4) (H5 & H6 & y & H7 & H8).
  split; [congruence|]. split; [congruence|]. exists (x ++ y).
  rewrite H7, H3, <- app_assoc. split; [done|]. by apply Forall_app.
Qed.

Ltac quiet_eq := first [reflexivity | symmetry; apply app_nil_r].

Ltac quiet_tac :=
  unfold quiet; simpl;
  split; [done|split; [done|eexists; split; [quiet_eq|repeat constructor]]].

Lemma spawn_quiet (topic : string) o (names : list string) (tids : list nat) st :
  quiet st (spawn topic o names tids st).1.1.
Proof.
  revert tids st. induction names as [|s names IH]; intros tids st; simpl.
  { apply quiet_refl. }
  case_bool_decide; [|apply quiet_refl].
  eapply quiet_trans; [|apply IH]. quiet_tac.
Qed.

Lemma pub_quiet (topic : string) o st : quiet st (pub topic o st).1.
Proof.
  unfold pub. destruct (topics st !! topic) as [names|]; [|apply quiet_refl].
  pose proof (spawn_quiet topic o (elements names) [] st) as H.
  destruct (spawn _ _ _ _ _) as [[st1 tids] [e|]]; simpl in *; [done|].
  eapply quiet_trans; [exact H|quiet_tac].
Qed.

Lemma exec_quiet (c : cmd) st : quiet st (exec c st).1.
Proof.
  destruct c as [t|s|s t f|t o|t|]; simpl.
  - unfold create_topic. destruct (topics st !! t); quiet_tac.
  - unfold register, create_topic. simpl. destruct (topics st !! s); quiet_tac.
  - unfold sub. destruct (subs st !! (s, t)); [apply quiet_refl|].
    case_bool_decide; [|apply quiet_refl]. case_bool_decide; [|quiet_tac].
    simpl. destruct (topics st !! t); quiet_tac.
  - apply pub_quiet.
  - unfold close_topic. pose proof (pub_quiet t QUIT st) as H.
    destruct (pub t QUIT st) as [st1 [e|]]; simpl in *; [done|].
    eapply quiet_trans; [exact H|quiet_tac].
  - quiet_tac.
Qed.

Lemma exec_all_quiet (cs : list cmd) st : quiet st (exec_all cs st).1.
Proof.
  revert st. induction cs as [|c cs IH]; intros st; simpl; [apply quiet_refl|].
  pose proof (exec_quiet c st) as H.
  destruct (exec c st) as [st1 [e|]]; simpl in *; [done|].
  eapply quiet_trans; [exact H|apply IH].
Qed.

Lemma set_status_quiet k (s : lstate) st : quiet st (set_status k s st).
Proof. unfold set_status. destruct (subs st !! k); quiet_tac. Qed.

Lemma set_items_quiet k (its : list obj) st : quiet st (set_items k its st).
Proof. unfold set_items. destruct (subs st !! k); quiet_tac. Qed.

Lemma listener_loop_quiet (svc topic : string) (f : F) (its : list obj) st :
  quiet st (listener_loop svc topic f its st).
Proof.
  revert st. induction its as [|o rest IH]; intros st; simpl.
  { apply set_status_quiet. }
  destruct o as [|v].
  { eapply quiet_trans; [apply set_items_quiet|apply set_status_quiet]. }
  set (st1 := set_handled _ _).
  assert (quiet st st1) as H1.
  { subst st1. unfold set_items. destruct (subs st !! (svc, topic)); quiet_tac. }
  destruct (call f v st1) as [cs raises].
  pose proof (exec_all_quiet cs st1) as H2.
  destruct (exec_all cs st1) as [st2 [e|]]; simpl in *.
  - eapply quiet_trans; [exact H1|]. eapply quiet_trans; [exact H2|apply set_status_quiet].
  - destruct raises.
    + eapply quiet_trans; [exact H1|]. eapply quiet_trans; [exact H2|apply set_status_quiet].
    + eapply quiet_trans; [exact H1|]. eapply quiet_trans; [exact H2|apply IH].
Qed.

Lemma finish_task_quiet (tid : nat) st : quiet st (finish_task tid st).
Proof.
  unfold finish_task. destruct (tasks st !! tid) as [t|]; [|apply quiet_refl].
  do 2 (split; [done|]). exists (map OnCompletion (t_cbs t)). split; [done|].
  apply Forall_forall. intros cb Hcb. by apply list_elem_of_fmap in Hcb as (i & -> & _).
Qed.

Lemma awaiter_finish_quiet (idx : nat) st :
  (forall j, waiting st ≠ WOn j) -> quiet st (awaiter_finish idx st).
Proof.
  intros Hw. unfold awaiter_finish, awaiter_del. case_bool_decide; simpl; [|apply quiet_refl].
  unfold awaiter_set. simpl. destruct (awaiters st !! idx) as [a|]; [|quiet_tac].
  destruct (a_done a); [quiet_tac|]. simpl.
  destruct (waiting st) as [| |j| |] eqn:E; try quiet_tac. by destruct (Hw j).
Qed.

Lemma foldl_add_done_callback_quiet (idx : nat) (tids : list nat) st :
  quiet st (foldl (add_done_callback idx) st tids).
Proof.
  revert st. induction tids as [|tid tids IH]; intros st; simpl; [apply quiet_refl|].
  eapply quiet_trans; [|apply IH].
  unfold add_done_callback. destruct (tasks st !! tid) as [t|]; [|apply quiet_refl].
  destruct (t_done t); quiet_tac.
Qed.

Lemma run_cb_quiet cb st :
  is_wait_step cb = false -> (forall j, waiting st ≠ WOn j) -> quiet st (run_cb cb st).
Proof.
  intros Hcb Hw. destruct cb as [tid svc topic o|svc topic|i|i|i|]; simpl; [| | | | |done].
  - eapply (quiet_trans _ (on_pub svc topic o st).1); [|apply finish_task_quiet].
    unfold on_pub. destruct (subs st !! (svc, topic)) as [r|]; [|apply quiet_refl].
    destruct (status r); quiet_tac.
  - unfold Bus.listener_step. destruct (subs st !! (svc, topic)) as [r|]; [|apply quiet_refl].
    destruct (status r); try apply quiet_refl. apply listener_loop_quiet.
  - unfold awaiter_start. destruct (awaiters st !! i) as [a|]; [|apply quiet_refl].
    destruct (a_tasks a) as [|tid tids]; [by apply awaiter_finish_quiet|].
    eapply quiet_trans; [|apply foldl_add_done_callback_quiet]. quiet_tac.
  - unfold on_completion. destruct (awaiters st !! i) as [a|]; [|apply quiet_refl].
    simpl. case_bool_decide; quiet_tac.
  - by apply awaiter_finish_quiet.
Qed.

Lemma quiet_before st st' : quiet st st' -> before_quit st -> before_quit st'.
Proof.
  intros (Hq & Hw & x & Hr & Hx) Hb Hq'. rewrite Hq in Hq'.
  destruct (Hb Hq') as [H1 H2]. rewrite Hw, Hr. split; [done|]. by apply Forall_app.
Qed.

Lemma awaiter_finish_quit (idx : nat) st : quit (awaiter_finish idx st) = quit st.
Proof.
  unfold awaiter_finish, awaiter_del. case_bool_decide; simpl; [|done].
  unfold awaiter_set. simpl. destruct (awaiters st !! idx) as [a|]; [|done].
  destruct (a_done a); [done|]. simpl.
  destruct (waiting st); try done. by case_bool_decide.
Qed.

Lemma run_cb_quit cb st : quit (run_cb cb st) = quit st.
Proof.
  destruct cb as [tid svc topic o|svc topic|i|i|i|]; simpl.
  - destruct (finish_task_quiet tid (on_pub svc topic o st).1) as [-> _].
    unfold on_pub. destruct (subs st !! (svc, topic)) as [r|]; [|done].
    by destruct (status r).
  - unfold Bus.listener_step. destruct (subs st !! (svc, topic)) as [r|]; [|done].
    destruct (status r); try done. apply listener_loop_quiet.
  - unfold awaiter_start. destruct (awaiters st !! i) as [a|]; [|done].
    destruct (a_tasks a) as [|tid tids]; [apply awaiter_finish_quit|].
    by destruct (foldl_add_done_callback_quiet i (tid :: tids)
                   (set_awaiters (<[i := mkAwaiter (tid :: tids) (length (tid :: tids)) false]>
                                    (awaiters st)) st)) as [-> _].
  - unfold on_completion. destruct (awaiters st !! i) as [a|]; [|done].
    simpl. by case_bool_decide.
  - apply awaiter_finish_quit.
  - unfold wait_step, wait_drain. destruct (waiting st); try done;
      (destruct (task_awaiters st) as [|j rest]; [done|]);
      (destruct (awaiters st !! j) as [a|]; [|done]); by destruct (a_done a).
Qed.

Lemma run_once_quit st : quit (run_once st) = quit st.
Proof.
  unfold Bus.run_once. destruct (waiting st); try done;
    (destruct (ready st) as [|cb rest]; [done|]); by rewrite run_cb_quit.
Qed.

Lemma run_once_before st : before_quit st -> before_quit (run_once st).
Proof.
  intros Hb Hq'. rewrite run_once_quit in Hq'. destruct (Hb Hq') as [Hw Hf].
  unfold Bus.run_once.
  destruct (ready st) as [|cb rest] eqn:Hr.
  { destruct Hw as [E|E]; rewrite E; rewrite E, Hr; (split; [auto|constructor]). }
  apply Forall_cons in Hf as [Hcb Hrest].
  assert (Hq : quiet (set_ready rest st) (run_cb cb (set_ready rest st))).
  { apply run_cb_quiet; [done|]. simpl. intros j Hj. destruct Hw as [E|E]; congruence. }
  assert (Hb' : before_quit (run_cb cb (set_ready rest st))).
  { apply (quiet_before _ _ Hq). intros _. simpl. by split. }
  assert (Hq2 : quit (run_cb cb (set_ready rest st)) = false) by (by rewrite run_cb_quit).
  destruct Hw as [E|E]; rewrite E; by apply Hb'.
Qed.

Lemma reachable_before st : reachable st -> before_quit st.
Proof.
  induction 1 as [|st _ IH|st c _ IH|st tid _ IH|st _ IH|st _ IH].
  - intros _. rewrite init_eq. simpl. split; [by left|constructor].
  - by apply run_once_before.
  - apply (quiet_before st); [apply exec_quiet|done].
  - apply (quiet_before st); [|done]. unfold finish_external.
    destruct (tasks st !! tid) as [t|]; [|apply quiet_refl].
    destruct (t_ext t && negb (t_done t)); [apply finish_task_quiet|apply quiet_refl].
  - intros Hq. unfold start_wait in *.
    assert (Hq0 : quit st = false).
    { destruct (waiting st); try done. destruct (quit st) eqn:E; [|done].
      simpl in Hq. unfold wait_drain in Hq.
      destruct (task_awaiters st) as [|j l]; [simpl in Hq; congruence|].
      destruct (awaiters st !! j) as [a|]; [|congruence].
      destruct (a_done a); simpl in Hq; congruence. }
    destruct (IH Hq0) as [[E|E] Hf]; rewrite E; rewrite ?Hq0; simpl; split; auto.
  - intros Hq. unfold quit_set in Hq. destruct (quit st) eqn:E; [congruence|].
    simpl in Hq. destruct (waiting st); simpl in Hq; discriminate.
Qed.

(** X28. [wait] does not get past its first line while [_quit] is unset: in
    every state the program reaches with [_quit] unset, [wait] is not called
    yet or is suspended on [_quit], nothing in the loop resumes it, and it
    has not returned after any number of turns of the loop, whether or not
    an awaiter is left. No manager call and no turn of the loop sets
    [_quit]. *)
Theorem wait_needs_quit st :
  reachable st -> quit st = false ->
  (waiting st = WIdle \/ waiting st = WQuit) /\
  (WaitStep ∉ ready st) /\
  (forall c : cmd, quit (exec c st).1 = false) /\
  forall n : nat, quit (run n st) = false /\ waiting (run n st) ≠ WReturned.
Proof.
  intros Hr Hq. destruct (reachable_before st Hr Hq) as [Hw Hf].
  split; [done|]. split.
  { intros Hin. rewrite Forall_forall in Hf. by specialize (Hf _ Hin). }
  split.
  { intros c. destruct (exec_quiet c st) as [-> _]. done. }
  intros n.
  assert (Hqn : quit (run n st) = false).
  { clear Hw Hf Hr. revert st Hq. induction n as [|n IH]; intros st Hq; [done|].
    rewrite run_S. apply IH. by rewrite run_once_quit. }
  split; [done|].
  destruct (reachable_before _ (run_reachable n st Hr) Hqn) as [[E|E] _];
    rewrite E; discriminate.
Qed.

End Facts.

(** *** On the manager with a and b subscribed to T *)

Lemma publish_never_raises_witness :
  (pub "T" (Ev 7%nat) wired_subscribed).2 = None /\
  "a" ∈ services wired_subscribed.
Proof.
  assert (topics wired_subscribed !! "T" = Some ({["a"]} ∪ {["b"]})) as Hn
    by (vm_compute; reflexivity).
  assert ("a" ∈ ({["a"]} ∪ {["b"]} : gset string)) as Ha by set_solver.
  destruct (publish_never_raises observer wired_subscribed wired_subscribed_reachable)
    as (H1 & _ & H3).
  split; [exact (H1 "T" (Ev 7%nat) _ Hn)|exact (proj1 (H3 "T" "a" _ Hn Ha))].
Defined.

Lemma closed_topic_detaches_witness :
  let st1 := (close_topic "T" wired_subscribed).1 in
  let st2 := (create_topic "T" st1).1 in
  topics st2 !! "T" = Some ∅ /\
  (sub "a" "T" tt (run observer 3 st2)).2 = Some DuplicateSubscription.
Proof.
  assert (topics wired_subscribed !! "T" = Some ({["a"]} ∪ {["b"]})) as Hn
    by (vm_compute; reflexivity).
  assert ("a" ∈ ({["a"]} ∪ {["b"]} : gset string)) as Ha by set_solver.
  destruct (closed_topic_detaches observer wired_subscribed "T" "a" _
              wired_subscribed_reachable Hn Ha) as (_ & _ & H1 & _ & H2).
  split; [exact H1|exact (H2 3%nat tt)].
Defined.

(** The service a subscribes to a topic U nobody created; U is created
    afterwards. *)
Lemma failed_sub_cannot_be_retried_witness :
  let st1 := (sub "a" "U" tt wired).1 in
  (sub "a" "U" tt wired).2 = Some UnknownTopic /\
  (sub "a" "U" tt (run observer 2 (exec_all [CreateTopic "U"] st1).1)).2
  = Some DuplicateSubscription.
Proof.
  destruct (failed_sub_cannot_be_retried observer wired "a" "U" tt wired_reachable)
    as (H1 & _ & _ & _ & H2).
  - apply (bool_decide_unpack _). vm_compute. exact I.
  - apply (bool_decide_unpack _). vm_compute. exact I.
  - vm_compute. reflexivity.
  - vm_compute. reflexivity.
  - split; [exact H1|exact (H2 [CreateTopic "U"] 2%nat tt)].
Defined.

(** The value 1 is on the queue of a for T, and the handler raises. *)
Lemma raising_handler_is_never_called_again_witness :
  let st := (on_pub "a" "T" (Ev 1%nat) wired_subscribed).1 in
  let st' := listener_step raiser "a" "T" st in
  status_of ("a", "T") (run raiser 10 st') = Some LCrashed /\
  handled_for ("a", "T") (run raiser 10 st') = handled_for ("a", "T") st ++ [1%nat].
Proof.
  destruct (raising_handler_is_never_called_again raiser
              (on_pub "a" "T" (Ev 1%nat) wired_subscribed).1 "a" "T"
              (mkSub [Ev 1%nat] tt LReady) 1%nat [])
    as (_ & _ & _ & H).
  - vm_compute. reflexivity.
  - reflexivity.
  - reflexivity.
  - left. reflexivity.
  - exact (H 10%nat).
Defined.

Lemma wait_needs_quit_witness :
  (waiting wired_subscribed = WIdle \/ waiting wired_subscribed = WQuit) /\
  waiting (run observer 4 wired_subscribed) ≠ WReturned.
Proof.
  destruct (wait_needs_quit observer wired_subscribed wired_subscribed_reachable)
    as (H1 & _ & _ & H2).
  - vm_compute. reflexivity.
  - split; [exact H1|exact (proj2 (H2 4%nat))].
Defined.

End BusMore.

(** ** The wiring of the server *)

Module StartupFacts.
Import Bus Handler Sessions Startup.

(** X29. The constructor of the server wires the services without tripping
    an assertion: every call of [register], [create_topic] and [sub] finds
    what it needs, in the order the code makes them. Afterwards each
    subscription of the services is in place, the service in the set of the
    topic and its queue in [_subs], and there is no other queue. *)
Theorem startup_wiring_succeeds :
  exec_all server_init init = (server, None) /\
  (forall svc topic : string,
     (svc, topic) ∈ wiring ->
     svc ∈ default ∅ (topics server !! topic) /\ is_Some (subs server !! (svc, topic))) /\
  size (subs server) = length wiring.
Proof.
  split; [vm_compute; reflexivity|]. split; [|vm_compute; reflexivity].
  intros svc topic Hin. unfold wiring in Hin.
  repeat (apply elem_of_cons in Hin as [[= -> ->]|Hin];
          [split; apply (bool_decide_unpack _); vm_compute; exact I|]).
  by apply elem_of_nil in Hin.
Qed.

Implicit Types (st : @state callable value).

Lemma exec_all_app (cs1 cs2 : list command) st :
  exec_all (cs1 ++ cs2) st
  = match exec_all cs1 st with
    | (st1, None) => exec_all cs2 st1
    | r => r
    end.
Proof.
  revert st. induction cs1 as [|c cs1 IH]; intros st; simpl; [done|].
  destruct (exec c st) as [st1 [e|]]; [done|]. apply IH.
Qed.

(** Topics created one after the other, none of them there before. *)
Lemma create_fresh (ts : list string) st :
  NoDup ts -> (forall t, t ∈ ts -> topics st !! t = None) ->
  exists st1,
    exec_all (map CreateTopic ts) st = (st1, None) /\
    (forall t, topics st1 !! t = if bool_decide (t ∈ ts) then Some ∅ else topics st !! t) /\
    subs st1 = subs st /\ services st1 = services st /\ managed st1 = managed st.
Proof.
  intros Hnd. revert st. induction Hnd as [|t ts Ht Hnd IH]; intros st Hf.
  { exists st. split; [done|]. split; [|done]. intros t. by rewrite bool_decide_eq_false_2
      by apply not_elem_of_nil. }
  cbn [map exec_all exec]. unfold create_topic. rewrite Hf by (by left).
  destruct (IH (set_topics (<[t := ∅]> (topics st)) st)) as (st1 & E & Htp & Hs & Hv & Hm).
  { intros t' Ht'. simpl. rewrite lookup_insert_ne by (intros ->; done).
    apply Hf. by right. }
  exists st1. split; [done|]. split; [|done].
  intros t'. rewrite Htp. simpl.
  destruct (decide (t' = t)) as [->|Hne].
  - rewrite bool_decide_eq_false_2 by done. rewrite lookup_insert_eq.
    by rewrite bool_decide_eq_true_2 by (by left).
  - rewrite lookup_insert_ne by done.
    assert (bool_decide (t' ∈ ts) = bool_decide (t' ∈ t :: ts)) as ->; [|done].
    apply bool_decide_ext. rewrite elem_of_cons. split; [by right|].
    by intros [?|?].
Qed.

(** One connection accepted on a manager that is ready for it. *)
Lemma session_step (c : Z) st :
  session_ready c st ->
  exists st',
    exec_all (map session_cmd (new_client c).2) st = (st', None) /\
    session_ready (c + 1) st' /\
    topics st' !! topic_of c "recv" = Some {["handler"]} /\
    topics st' !! topic_of c "send" = Some {["handler"]} /\
    is_Some (subs st' !! ("handler", topic_of c "recv")) /\
    is_Some (subs st' !! ("handler", topic_of c "send")).
Proof.
  intros (Hi & Hl & Hm & Hv & [nj Hj] & [nl Hlog] & Hf).
  pose proof (BusFacts.exec_all_inv (map session_cmd (new_client c).2) st Hi Hl) as Hinv.
  set (names := ["progress"; "alert"; "recv"; "send"; "keepalive"]).
  set (join := Ev (VJoin c (prefix_of c))).
  set (logged := Ev (VLog 0 [Lit "client-join "; FInt c; Lit " "; FStr (prefix_of c)])).
  assert (Hcmds : map session_cmd (new_client c).2
                  = [Pub "client-join" join; Pub "log" logged]
                    ++ map CreateTopic (map (topic_of c) names)
                    ++ [Sub "handler" (topic_of c "recv") (Session (F_client_update c));
                        Sub "handler" (topic_of c "send") (Session (F_writer c));
                        RunAsTask]) by reflexivity.
  rewrite Hcmds in Hinv |- *. clear Hcmds.
  destruct (BusFacts.pub_spec "client-join" join st nj Hi Hl Hj)
    as (st1 & Hp1 & Hi1 & Hl1 & Hv1 & Hm1 & Ht1 & Hs1 & _).
  rewrite <- Ht1 in Hlog.
  destruct (BusFacts.pub_spec "log" logged st1 nl Hi1 Hl1 Hlog)
    as (st2 & Hp2 & Hi2 & Hl2 & Hv2 & Hm2 & Ht2 & Hs2 & _).
  assert (E12 : exec_all [Pub "client-join" join; Pub "log" logged] st = (st2, None)).
  { cbn [exec_all exec]. rewrite Hp1, Hp2. done. }
  assert (Hnd : NoDup (map (topic_of c) names)).
  { apply (NoDup_fmap_2_strong (topic_of c)).
    - intros x y _ _ E. by apply HandlerMore.topic_of_inj in E as [_ ?].
    - subst names.
      repeat (apply NoDup_cons; split;
        [rewrite ?not_elem_of_cons; repeat split; try discriminate; apply not_elem_of_nil|]).
      constructor. }
  destruct (create_fresh (map (topic_of c) names) st2 Hnd)
    as (st3 & E3 & Ht3 & Hs3 & Hv3 & Hm3).
  { intros t Ht. apply list_elem_of_fmap in Ht as (x & -> & _).
    rewrite Ht2, Ht1. apply Hf. lia. }
  assert (Hin : forall x, x ∈ names -> topics st3 !! topic_of c x = Some ∅).
  { intros x Hx. rewrite Ht3. rewrite bool_decide_eq_true_2; [done|].
    apply list_elem_of_fmap. by exists x. }
  assert (Hsub0 : forall x, subs st3 !! ("handler", topic_of c x) = None).
  { intros x. rewrite Hs3, Hs2, Hs1. apply Hf. lia. }
  destruct (BusFacts.sub_spec "handler" (topic_of c "recv") (Session (F_client_update c))
              st3 ∅) as (st4 & Hsb4 & Ht4 & Hs4 & _ & Hv4 & Hm4 & _).
  { by rewrite Hm3, Hm2, Hm1. }
  { by rewrite Hv3, Hv2, Hv1. }
  { apply Hin. subst names. rewrite !elem_of_cons. auto. }
  { apply Hsub0. }
  assert (Hne : topic_of c "send" ≠ topic_of c "recv").
  { intros E. by apply HandlerMore.topic_of_inj in E as [_ ?]. }
  destruct (BusFacts.sub_spec "handler" (topic_of c "send") (Session (F_writer c))
              st4 ∅) as (st5 & Hsb5 & Ht5 & Hs5 & _ & Hv5 & Hm5 & _).
  { by rewrite Hm4, Hm3, Hm2, Hm1. }
  { by rewrite Hv4, Hv3, Hv2, Hv1. }
  { rewrite Ht4, lookup_insert_ne by done. apply Hin. subst names.
    rewrite !elem_of_cons. auto. }
  { rewrite Hs4, lookup_insert_ne by congruence. apply Hsub0. }
  assert (E45 : exec_all [Sub "handler" (topic_of c "recv") (Session (F_client_update c));
                          Sub "handler" (topic_of c "send") (Session (F_writer c));
                          RunAsTask] st3 = (run_as_task st5, None)).
  { cbn [exec_all exec]. rewrite Hsb4, Hsb5. done. }
  rewrite exec_all_app, E12, exec_all_app, E3, E45 in Hinv |- *.
  simpl in Hinv. destruct Hinv as [Hi6 Hl6].
  eexists. split; [reflexivity|]. split; [|split; [|split; [|split]]].
  - split; [exact Hi6|]. split; [exact Hl6|]. simpl.
    split; [by rewrite Hm5, Hm4, Hm3, Hm2, Hm1|].
    split; [by rewrite Hv5, Hv4, Hv3, Hv2, Hv1|].
    assert (Hold : forall t, (forall x, t ≠ topic_of c x) ->
              topics st5 !! t = topics st !! t).
    { intros t Ht. rewrite Ht5, lookup_insert_ne by done.
      rewrite Ht4, lookup_insert_ne by done. rewrite Ht3.
      rewrite bool_decide_eq_false_2; [by rewrite Ht2, Ht1|].
      intros Hx. apply list_elem_of_fmap in Hx as (x & -> & _). by apply (Ht x). }
    split; [|split].
    + rewrite Hold; [by eexists|]. intros x E. unfold topic_of, prefix_of in E.
      cbn [String.append] in E. discriminate.
    + rewrite Hold; [rewrite <- Ht1; by eexists|]. intros x E.
      unfold topic_of, prefix_of in E. cbn [String.append] in E. discriminate.
    + intros j sub Hjc.
      assert (Hjx : forall x, topic_of j sub ≠ topic_of c x).
      { intros x E. apply HandlerMore.topic_of_inj in E as [E _]. lia. }
      split.
      * rewrite Hold by done. apply Hf. lia.
      * assert (Hkey : forall x, ("handler", topic_of c x) ≠ ("handler", topic_of j sub)).
        { intros x E. apply (f_equal snd) in E. cbn [snd] in E. symmetry in E.
          by apply Hjx in E. }
        rewrite Hs5, lookup_insert_ne by apply Hkey.
        rewrite Hs4, lookup_insert_ne by apply Hkey.
        rewrite Hs3, Hs2, Hs1. apply Hf. lia.
  - cbn [run_as_task run_tasks topics set_awaiter_counter set_task_awaiters set_awaiters
         set_ready set_next_tid set_tasks].
    rewrite Ht5, lookup_insert_ne by done. rewrite Ht4, lookup_insert_eq.
    rewrite (left_id_L ∅ (∪)). reflexivity.
  - cbn [run_as_task run_tasks topics set_awaiter_counter set_task_awaiters set_awaiters
         set_ready set_next_tid set_tasks].
    rewrite Ht5, lookup_insert_eq. rewrite (left_id_L ∅ (∪)). reflexivity.
  - simpl. rewrite Hs5, lookup_insert_ne by congruence. rewrite Hs4, lookup_insert_eq.
    by eexists.
  - simpl. rewrite Hs5, lookup_insert_eq. by eexists.
Qed.

(** X30. On a manager that is ready for the sessions from [c] on, which the
    server is for [c = 0] once it is wired, any number of connections
    accepted one after the other are wired without a failed assertion: the
    publishes find their topics, the five topics of each session are new,
    and the two subscriptions of each session are made. The manager is
    then ready for the sessions that follow. *)
Theorem sessions_wire_up (n : nat) (c : Z) st :
  session_ready c st ->
  exists st',
    exec_all (map session_cmd (concat (accept n c).2)) st = (st', None) /\
    session_ready (c + Z.of_nat n) st' /\
    forall k : nat, (k < n)%nat ->
      is_Some (subs st' !! ("handler", topic_of (c + Z.of_nat k) "recv")) /\
      is_Some (subs st' !! ("handler", topic_of (c + Z.of_nat k) "send")).
Proof.
  revert c st. induction n as [|n IH]; intros c st Hst.
  { exists st. split; [done|]. rewrite Z.add_0_r. split; [done|]. intros k Hk. lia. }
  cbn [accept]. change (new_client c) with (c + 1, (new_client c).2). cbn iota.
  destruct (accept n (c + 1)) as [c2 rest] eqn:Ea. cbn [snd concat].
  rewrite map_app, exec_all_app.
  destruct (session_step c st Hst) as (st1 & -> & Hst1 & _ & _ & Hr & Hs).
  destruct (IH (c + 1) st1 Hst1) as (st2 & E2 & Hst2 & Hsubs).
  rewrite Ea in E2. cbn [snd] in E2. exists st2. split; [exact E2|]. split.
  - replace (c + Z.of_nat (S n)) with (c + 1 + Z.of_nat n) by lia. exact Hst2.
  - intros k Hk. destruct k as [|k].
    + rewrite Z.add_0_r.
      assert (Hg : forall key, is_Some (subs st1 !! key) -> is_Some (subs st2 !! key)).
      { intros key. replace st2 with (exec_all (map session_cmd (concat rest)) st1).1
          by (by rewrite E2).
        apply BusFacts.grows_keys, BusFacts.exec_all_grows. }
      split; by apply Hg.
    + replace (c + Z.of_nat (S k)) with (c + 1 + Z.of_nat k) by lia. apply Hsubs. lia.
Qed.

Lemma server_reachable (call : callable -> value -> @state callable value ->
                               list command * bool) :
  reachable call server.
Proof. unfold server. apply BusFacts.exec_all_reachable. apply reach_init. Qed.

Lemma server_ready : session_ready 0 server.
Proof.
  destruct (BusFacts.reachable_inv observer server (server_reachable observer)) as [Hi Hl].
  split; [exact Hi|]. split; [exact Hl|].
  split; [apply (bool_decide_unpack _); vm_compute; exact I|].
  split; [apply (bool_decide_unpack _); vm_compute; exact I|].
  split; [apply (bool_decide_unpack _); vm_compute; exact I|].
  split; [apply (bool_decide_unpack _); vm_compute; exact I|].
  intros j sub _. split.
  - destruct (topics server !! topic_of j sub) as [names|] eqn:E; [exfalso|done].
    apply elem_of_map_to_list in E.
    assert (Forall (fun kv : string * gset string =>
                      kv.1 ∈ ["log"; "notification"; "curses"; "raw-input"; "line";
                              "cursor"; "color"; "edit/start"; "edit/end"; "input";
                              "listener"; "handler"; "client-join"; "client-leave";
                              "client-done"; "client-progress"; "client-alert"; "client";
                              "client-refresh"; "client-rename"; "screen"])
                   (map_to_list (topics server))) as Hall
      by (apply (bool_decide_unpack _); vm_compute; exact I).
    rewrite Forall_forall in Hall. specialize (Hall _ E). cbn [fst] in Hall.
    unfold topic_of, prefix_of in Hall.
    repeat (apply elem_of_cons in Hall as [Hall|Hall];
            [cbn [String.append] in Hall; discriminate Hall|]).
    by apply elem_of_nil in Hall.
  - destruct (subs server !! ("handler", topic_of j sub)) as [r|] eqn:E; [exfalso|done].
    apply elem_of_map_to_list in E.
    assert (Forall (fun kv : string * string * @sub_rec callable value =>
                      kv.1.2 ∈ ["log"; "line"; "color"; "raw-input"; "edit/start";
                                "listener"; "client-rename"; "client-join";
                                "client-leave"; "client-done"; "client-progress";
                                "cursor"; "input"; "edit/end"; "client-refresh"])
                   (map_to_list (subs server))) as Hall
      by (apply (bool_decide_unpack _); vm_compute; exact I).
    rewrite Forall_forall in Hall. specialize (Hall _ E). cbn [fst snd] in Hall.
    unfold topic_of, prefix_of in Hall.
    repeat (apply elem_of_cons in Hall as [Hall|Hall];
            [cbn [String.append] in Hall; discriminate Hall|]).
    by apply elem_of_nil in Hall.
Qed.


(** Two connections accepted by the server as wired. *)
Lemma sessions_wire_up_witness :
  exists st',
    exec_all (map session_cmd (concat (accept 2 0).2)) server = (st', None) /\
    is_Some (subs st' !! ("handler", topic_of 1 "recv")).
Proof.
  destruct (sessions_wire_up 2 0 server server_ready) as (st' & H1 & _ & H2).
  exists st'. split; [exact H1|]. exact (proj1 (H2 1%nat (Nat.lt_succ_diag_r 1))).
Defined.


End StartupFacts.
